(** * MoCo MCP server: cache engine and paginated fetch client

    A shallow embedding of [src/utils/cache.ts] and of the parts of
    [src/services/mocoApi.ts] that the specification talks about, together
    with the theorems that settle the specification's claims; and, beyond
    the claims, of the configuration read from the environment, the log
    level, the routing by base path and the capture of a request body of the
    HTTP entry point, and of the methods of the service that answer from the
    cached lists and from the schedules.

    Conventions of the embedding.
    - A JavaScript string is a [string]: a sequence of code units below 256.
    - A [Map] or a plain object used as a dictionary is a [gmap].
    - [Date.now()] is an integer number of milliseconds.
    - A Number that [parseInt], a division or [Math.ceil] gives is a double:
      see [JsNum].
    - [T | undefined] is [option T]: the values a cache holds are the defined
      ones, [undefined] is the store's marker for "absent".
    - Asynchronous code is a transition system: one event per piece of code
      that runs without suspension (the synchronous body of a call, one
      promise reaction). *)

From Stdlib Require Import ZArith Ascii String List Permutation Sorted Lia Bool.
From Stdlib Require SpecFloat.
From stdpp Require Import base option list gmap strings fin_maps sorting.

Local Open Scope Z_scope.

(** ** JavaScript string built-ins *)

Module Js.

(** [WhiteSpace] and [LineTerminator] code units below 256, as
    [String.prototype.trim] and [parseInt] strip them. *)
Definition isWhiteSpace (c : ascii) : bool :=
  let n := nat_of_ascii c in
  (n =? 9)%nat || (n =? 10)%nat || (n =? 11)%nat || (n =? 12)%nat
  || (n =? 13)%nat || (n =? 32)%nat || (n =? 160)%nat.

Fixpoint trimStart (s : string) : string :=
  match s with
  | EmptyString => EmptyString
  | String c s' => if isWhiteSpace c then trimStart s' else s
  end.

Fixpoint trimEnd (s : string) : string :=
  match s with
  | EmptyString => EmptyString
  | String c s' =>
      match trimEnd s' with
      | EmptyString => if isWhiteSpace c then EmptyString else String c EmptyString
      | t => String c t
      end
  end.

(** [s.trim()] *)
Definition trim (s : string) : string := trimEnd (trimStart s).

(** Lower-casing of one code unit below 256: A-Z and the Latin-1 capitals. *)
Definition lowerChar (c : ascii) : ascii :=
  let n := nat_of_ascii c in
  if ((65 <=? n)%nat && (n <=? 90)%nat)
     || ((192 <=? n)%nat && (n <=? 222)%nat && negb (n =? 215)%nat)
  then ascii_of_nat (n + 32) else c.

(** [s.toLowerCase()] *)
Fixpoint toLowerCase (s : string) : string :=
  match s with
  | EmptyString => EmptyString
  | String c s' => String (lowerChar c) (toLowerCase s')
  end.

(** [s.includes(t)] *)
Fixpoint includes (s t : string) : bool :=
  String.prefix t s ||
  match s with
  | EmptyString => false
  | String _ s' => includes s' t
  end.

(** [s.indexOf(t)]; [None] stands for [-1]. *)
Fixpoint indexOf (s t : string) : option nat :=
  if String.prefix t s then Some 0%nat
  else match s with
       | EmptyString => None
       | String _ s' => S <$> indexOf s' t
       end.

(** How [slice] reads one of its indices: a negative index counts from the
    end, and both ends are clamped to the string. *)
Definition sliceIndex (len : nat) (i : Z) : nat :=
  if i <? 0 then Z.to_nat (Z.max (Z.of_nat len + i) 0)
  else Nat.min (Z.to_nat i) len.

(** [s.slice(start)] and [s.slice(start, end)] *)
Definition slice (s : string) (start : Z) (end_ : option Z) : string :=
  let len := String.length s in
  let from := sliceIndex len start in
  let to := match end_ with None => len | Some e => sliceIndex len e end in
  String.substring from (to - from) s.

(** [s.repeat(n)] *)
Fixpoint repeat (s : string) (n : nat) : string :=
  match n with
  | O => EmptyString
  | S n' => s +:+ repeat s n'
  end.

(** [parts.join(sep)] *)
Definition join (sep : string) (parts : list string) : string :=
  String.concat sep parts.

(** A JavaScript string is truthy when it is not empty. *)
Definition truthy (s : string) : bool :=
  match s with EmptyString => false | _ => true end.

End Js.

(** ** [MocoApiService.sanitizeRequestHeaders] *)

Module Redaction.

Definition sanitizeRequestHeaders (headers : gmap string string) : gmap string string :=
  match headers !! "Authorization" with
  | None => headers
  | Some authValue =>
      if negb (Js.truthy authValue) then headers
      else
        match Js.indexOf (Js.toLowerCase authValue) "token=" with
        | None => <["Authorization" := "[REDACTED]"]> headers
        | Some tokenIndex =>
            let cut := Z.of_nat (tokenIndex + String.length "token=") in
            let tokenPrefix := Js.slice authValue 0 (Some cut) in
            let tokenValue := Js.slice authValue cut None in
            if (String.length tokenValue <=? 8)%nat then
              <["Authorization" :=
                  tokenPrefix +:+ Js.repeat "*" (Nat.max (String.length tokenValue) 4)]> headers
            else
              <["Authorization" :=
                  tokenPrefix +:+ Js.slice tokenValue 0 (Some 4) +:+ "..."
                  +:+ Js.slice tokenValue (-4) None]> headers
        end
  end.

(** [defaultHeaders] for a configured API key. *)
Definition defaultHeaders (apiKey : string) : gmap string string :=
  <["Authorization" := "Token token=" +:+ apiKey]>
    (<["Content-Type" := "application/json"]>
       (<["Accept" := "application/json"]> ∅)).

End Redaction.

(** ** Numbers as [parseInt], division and [Math.ceil] produce them

    A Number is a double (IEEE 754 binary64). The Numbers that [parseInt]
    and [Math.ceil] produce are [NaN], the two infinities, [-0] and the
    doubles that are integers, so [Int z] stands for the double whose value
    is the integer [z]. [parseInt] rounds the integer its digits denote to
    the nearest double (the language leaves room for less precision beyond
    20 digits), and the quotient of two Numbers is rounded to the nearest
    double before [Math.ceil] sees it: both exact below 2^53 only.
    [Binary64] below holds the standard library's specification of binary64,
    against which this arithmetic is checked. *)

Module JsNum.

Inductive jsnum : Type :=
| NaN
| PosInf
| NegInf
| NegZero
| Int (z : Z).

(** [Number.MAX_SAFE_INTEGER] *)
Definition MAX_SAFE_INTEGER : Z := 2 ^ 53 - 1.

Definition digitOf (c : ascii) : option Z :=
  let n := nat_of_ascii c in
  if (48 <=? n)%nat && (n <=? 57)%nat then Some (Z.of_nat (n - 48)) else None.

Fixpoint parseDigits (acc : Z) (s : string) : Z :=
  match s with
  | EmptyString => acc
  | String c s' =>
      match digitOf c with
      | Some d => parseDigits (acc * 10 + d) s'
      | None => acc
      end
  end.

Definition startsWithDigit (s : string) : bool :=
  match s with
  | String c _ => match digitOf c with Some _ => true | None => false end
  | EmptyString => false
  end.

(** The integer nearest to [num / den], for [0 <= num] and [0 < den]; of
    two that are equally near, the even one. *)
Definition nearestEven (num den : Z) : Z :=
  let q := num / den in
  let r := num mod den in
  if 2 * r <? den then q
  else if den <? 2 * r then q + 1
  else if Z.even q then q else q + 1.

(** The double nearest to the integer [n >= 0], as the integer it is;
    [None] stands for [Infinity]. A double has 53 significant bits: an
    integer of [k + 1] bits, [k >= 53], is rounded to a multiple of
    [2 ^ (k - 52)]; what reaches [2 ^ 1024] is infinite. *)
Definition nearestDouble (n : Z) : option Z :=
  let e := Z.log2 n - 52 in
  let v := if e <=? 0 then n else nearestEven n (2 ^ e) * 2 ^ e in
  if v <? 2 ^ 1024 then Some v else None.

Definition isNegative (a : jsnum) : bool :=
  match a with
  | NegInf | NegZero => true
  | Int z => z <? 0
  | _ => false
  end.

Definition zero (negative : bool) : jsnum := if negative then NegZero else Int 0.
Definition infinity (negative : bool) : jsnum := if negative then NegInf else PosInf.

(** The Number of a sign and a magnitude. *)
Definition number (negative : bool) (magnitude : option Z) : jsnum :=
  match magnitude with
  | Some v => if v =? 0 then zero negative else Int (if negative then - v else v)
  | None => infinity negative
  end.

(** [parseInt(s, 10)]: leading white space, an optional sign, the longest
    run of decimal digits, read as the nearest double; [NaN] when there is
    no digit. *)
Definition parseInt (s : string) : jsnum :=
  let t := Js.trimStart s in
  let '(negative, body) :=
    match t with
    | String "-"%char r => (true, r)
    | String "+"%char r => (false, r)
    | _ => (false, t)
    end in
  if startsWithDigit body then number negative (nearestDouble (parseDigits 0 body))
  else NaN.

(** The finite value of a number, when it has one. *)
Definition finite (a : jsnum) : option Z :=
  match a with
  | Int z => Some z
  | NegZero => Some 0
  | _ => None
  end.

(** The double nearest to [x / y], for integers [0 < y <= x]: its
    significand of 53 bits and its exponent [e]; its value is [m * 2 ^ e]. *)
Definition quotient (x y : Z) : Z * Z :=
  let e := Z.log2 (x / y) - 52 in
  if 0 <=? e then (nearestEven x (y * 2 ^ e), e)
  else (nearestEven (x * 2 ^ (- e)) y, e).

(** [Math.ceil(x / y)] for integers [0 < x] and [0 < y] that are doubles.
    For [x < y] the quotient, and the double nearest to it, lie above 0 and
    at most at 1. *)
Definition ceilQuotient (x y : Z) : option Z :=
  if x <? y then Some 1
  else
    let '(m, e) := quotient x y in
    if 0 <=? e then nearestDouble (m * 2 ^ e)
    else Some (- ((- m) / 2 ^ (- e))).

(** [- Math.ceil(- x / y)], which is [Math.floor(x / y)], for integers
    [0 < x] and [0 < y] that are doubles. For [x < y] the double nearest to
    the quotient lies below 1. *)
Definition floorQuotient (x y : Z) : option Z :=
  if x <? y then Some 0
  else
    let '(m, e) := quotient x y in
    if 0 <=? e then nearestDouble (m * 2 ^ e)
    else Some (m / 2 ^ (- e)).

(** [Math.ceil(a / b)] *)
Definition ceilDiv (a b : jsnum) : jsnum :=
  let negative := xorb (isNegative a) (isNegative b) in
  match a, b with
  | NaN, _ | _, NaN => NaN
  | (PosInf | NegInf), (PosInf | NegInf) => NaN
  | (PosInf | NegInf), _ => infinity negative
  | _, (PosInf | NegInf) => zero negative
  | _, _ =>
      match finite a, finite b with
      | Some x, Some y =>
          if y =? 0 then (if x =? 0 then NaN else infinity negative)
          else if x =? 0 then zero negative
          else if negative then number true (floorQuotient (Z.abs x) (Z.abs y))
          else number false (ceilQuotient (Z.abs x) (Z.abs y))
      | _, _ => NaN
      end
  end.

(** [n < a] for an integer [n] that is a double *)
Definition lessThan (n : Z) (a : jsnum) : bool :=
  match a with
  | Int z => n <? z
  | NegZero => n <? 0
  | PosInf => true
  | NegInf | NaN => false
  end.

End JsNum.

(** ** The standard library's binary64

    [SpecFloat] specifies the operations of IEEE 754 on a mantissa and an
    exponent. Here 53 bits of precision and the exponent 1024 of the
    infinities give the doubles. *)

Module Binary64.

(** The double nearest to an integer. *)
Definition ofInteger (z : Z) : SpecFloat.spec_float :=
  SpecFloat.binary_normalize 53 1024 z 0 false.

Definition divide (x y : SpecFloat.spec_float) : SpecFloat.spec_float :=
  SpecFloat.SFdiv 53 1024 x y.

(** [Math.ceil] of a double, as a Number of [JsNum]. *)
Definition ceil (x : SpecFloat.spec_float) : JsNum.jsnum :=
  match x with
  | SpecFloat.S754_nan => JsNum.NaN
  | SpecFloat.S754_infinity s => JsNum.infinity s
  | SpecFloat.S754_zero s => JsNum.zero s
  | SpecFloat.S754_finite s m e =>
      if 0 <=? e then JsNum.Int ((if s then - Z.pos m else Z.pos m) * 2 ^ e)
      else if s then
        (let q := Z.pos m / 2 ^ (- e) in if q =? 0 then JsNum.NegZero else JsNum.Int (- q))
      else JsNum.Int (- ((- Z.pos m) / 2 ^ (- e)))
  end.

End Binary64.

(** ** [MocoApiService.fetchAllPages] *)

Module Pagination.

(** What [makeRequestWithHeaders] resolves to: the page's items and the three
    response headers ([headers.get] gives [null] for a header that is not
    there). *)
Record PageResponse (T : Type) : Type := {
  data : list T;
  xPage : option string;
  xTotal : option string;
  xPerPage : option string
}.
Arguments data {T} _.
Arguments xPage {T} _.
Arguments xTotal {T} _.
Arguments xPerPage {T} _.

(** How a run of [fetchAllPages] ends; [requests] are the requests made, by
    number and in order: up to 2^53 the number of a request is the page it
    asks for ([counterAt] below). *)
Inductive FetchResult (T : Type) : Type :=
| Done (items : list T) (requests : list Z)
| Threw (message : string) (requests : list Z)
| OutOfFuel (items : list T) (requests : list Z).
Arguments Done {T} _ _.
Arguments Threw {T} _ _.
Arguments OutOfFuel {T} _ _.

(** [xPage && xTotal && xPerPage] *)
Definition headerSet (h : option string) : bool :=
  match h with
  | Some s => Js.truthy s
  | None => false
  end.

Definition totalPages {T} (r : PageResponse T) : JsNum.jsnum :=
  JsNum.ceilDiv (JsNum.parseInt (default EmptyString (xTotal r)))
                (JsNum.parseInt (default EmptyString (xPerPage r))).

(** The counter [currentPage] at the [n]-th request. It is a Number that
    starts at 1 and is incremented once per iteration: [currentPage++] is
    exact up to 2^53 and leaves 2^53 as it is, since 2^53 + 1 is not a double
    and the sum is rounded to the even neighbour. *)
Definition counterAt (n : Z) : Z := Z.min n (2 ^ 53).

(** The value [hasMorePages] takes after the response [r] to the
    [currentPage]-th request: the requests are numbered 1, 2, ..., and up to
    2^53 the number of a request is the page it asks for. *)
Definition hasMorePages {T} (currentPage : Z) (r : PageResponse T) : bool :=
  if headerSet (xPage r) && headerSet (xTotal r) && headerSet (xPerPage r)
  then JsNum.lessThan (counterAt currentPage) (totalPages r)
  else false.

(** The [while (hasMorePages)] loop; [request n] is the outcome of the
    [n]-th call [makeRequestWithHeaders(endpoint, {...params, page})], which
    asks for the page [counterAt n]: a message when it throws. One unit of
    fuel is one iteration. *)
Fixpoint fetchLoop {T} (fuel : nat) (request : Z -> string + PageResponse T)
    (allItems : list T) (currentPage : Z) (requests : list Z) : FetchResult T :=
  match fuel with
  | O => OutOfFuel allItems requests
  | S fuel' =>
      match request currentPage with
      | inl message => Threw message (requests ++ [currentPage])
      | inr r =>
          let allItems' := allItems ++ data r in
          if hasMorePages currentPage r
          then fetchLoop fuel' request allItems' (currentPage + 1) (requests ++ [currentPage])
          else Done allItems' (requests ++ [currentPage])
      end
  end.

Definition fetchAllPages {T} (fuel : nat) (request : Z -> string + PageResponse T) : FetchResult T :=
  fetchLoop fuel request [] 1 [].

(** The requests a result records. *)
Definition requestsOf {T} (r : FetchResult T) : list Z :=
  match r with
  | Done _ q | Threw _ q | OutOfFuel _ q => q
  end.

(** The run ended by itself: it returned or threw. *)
Definition finished {T} (r : FetchResult T) : bool :=
  match r with
  | OutOfFuel _ _ => false
  | _ => true
  end.

(** The ceiling of [totalItems / itemsPerPage], on integers. *)
Definition ceiling (totalItems itemsPerPage : Z) : Z :=
  - ((- totalItems) / itemsPerPage).

(** The response carries the three headers, and [parseInt] reads
    [X-Total] and [X-Per-Page] as the integers [totalItems] and
    [itemsPerPage]. *)
Definition declared {T} (r : PageResponse T) : option (Z * Z) :=
  if headerSet (xPage r) && headerSet (xTotal r) && headerSet (xPerPage r) then
    match JsNum.parseInt (default EmptyString (xTotal r)),
          JsNum.parseInt (default EmptyString (xPerPage r)) with
    | JsNum.Int totalItems, JsNum.Int itemsPerPage => Some (totalItems, itemsPerPage)
    | _, _ => None
    end
  else None.

(** The response declares [n] pages: a positive page size and a total,
    neither above [Number.MAX_SAFE_INTEGER], whose quotient has the ceiling
    [n]. *)
Definition declaresPages {T} (r : PageResponse T) (n : Z) : Prop :=
  exists totalItems itemsPerPage : Z,
    declared r = Some (totalItems, itemsPerPage)
    /\ 0 < itemsPerPage <= JsNum.MAX_SAFE_INTEGER
    /\ 0 <= totalItems <= JsNum.MAX_SAFE_INTEGER
    /\ ceiling totalItems itemsPerPage = n.

(** The pages [page], [page + 1], ... : [n] of them. *)
Fixpoint pagesFrom (page : Z) (n : nat) : list Z :=
  match n with
  | O => []
  | S n' => page :: pagesFrom (page + 1) n'
  end.

(** The items of the response to the request for [page]. *)
Definition itemsOf {T} (request : Z -> string + PageResponse T) (page : Z) : list T :=
  match request page with
  | inr r => data r
  | inl _ => []
  end.

(** An upstream of three pages of two items each. *)
Definition threePages (page : Z) : string + PageResponse Z :=
  inr {| data := [10 * page + 1; 10 * page + 2];
         xPage := Some (if page =? 1 then "1"%string
                        else if page =? 2 then "2"%string else "3"%string);
         xTotal := Some "6"%string;
         xPerPage := Some "2"%string |}.

(** The decimal numeral of a natural number, as the upstream writes it in a
    header. *)
Definition digitChar (d : Z) : ascii :=
  match d with
  | 0 => "0" | 1 => "1" | 2 => "2" | 3 => "3" | 4 => "4"
  | 5 => "5" | 6 => "6" | 7 => "7" | 8 => "8" | _ => "9"
  end%char.

Fixpoint decimalFrom (fuel : nat) (n : Z) (acc : string) : string :=
  match fuel with
  | O => acc
  | S fuel' =>
      let acc' := String (digitChar (n mod 10)) acc in
      if n <? 10 then acc' else decimalFrom fuel' (n / 10) acc'
  end.

Definition decimal (n : Z) : string := decimalFrom (S (Z.to_nat n)) n EmptyString.

(** An upstream that is always one page ahead: the response to page [p]
    says that there are [p + 1] items, one per page. *)
Definition growingTotal (page : Z) : string + PageResponse Z :=
  inr {| data := [];
         xPage := Some (decimal page);
         xTotal := Some (decimal (page + 1));
         xPerPage := Some "1"%string |}.

(** An upstream whose headers declare three pages in numbers above 2^53:
    the total is three times the page size. *)
Definition roundedPages (page : Z) : string + PageResponse Z :=
  inr {| data := [page];
         xPage := Some "1"%string;
         xTotal := Some "3458764513820541228"%string;
         xPerPage := Some "1152921504606847076"%string |}.

(** An upstream that always declares 2^54 items, one per page. *)
Definition distantTotal (page : Z) : string + PageResponse Z :=
  inr {| data := [];
         xPage := Some "1"%string;
         xTotal := Some "18014398509481984"%string;
         xPerPage := Some "1"%string |}.

End Pagination.

(** ** Cached resource queries and text search *)

Module Directory.

(** [Array.prototype.sort(compare)]: a stable sort by insertion; [compare]
    is read by its sign, as the built-in does. *)
Fixpoint insertSorted (compare : string -> string -> Z) (x : string) (l : list string)
    : list string :=
  match l with
  | [] => [x]
  | y :: l' => if compare x y <=? 0 then x :: y :: l' else y :: insertSorted compare x l'
  end.

Fixpoint sort (compare : string -> string -> Z) (l : list string) : list string :=
  match l with
  | [] => []
  | x :: l' => insertSorted compare x (sort compare l')
  end.

(** [a] may stand before [b] in a list sorted by [compare]. *)
Definition before (compare : string -> string -> Z) (a b : string) : Prop :=
  compare a b <= 0.

(** [compare] puts the strings of [l] in an order: of two of them one may
    stand before the other, as [compare] has it the order is transitive, and
    two that may each stand before the other are the same string. Nothing is
    asked of [compare] on other strings. *)
Definition ordersTags (compare : string -> string -> Z) (l : list string) : Prop :=
  (forall a b : string, a ∈ l -> b ∈ l -> before compare a b \/ before compare b a)
  /\ (forall a b c : string,
         a ∈ l -> b ∈ l -> c ∈ l ->
         before compare a b -> before compare b c -> before compare a c)
  /\ (forall a b : string,
         a ∈ l -> b ∈ l -> before compare a b -> before compare b a -> a = b).

(** [before], between two strings of [l]. *)
Definition beforeAmong (compare : string -> string -> Z) (l : list string)
    (a b : string) : Prop :=
  a ∈ l /\ b ∈ l /\ before compare a b.

(** [tags.map(tag => tag.trim()).filter(Boolean)] *)
Definition trimmedTags (tags : list string) : list string :=
  List.filter Js.truthy (List.map Js.trim tags).

(** [normalizedTags] of [getCachedUsers]; [localeCompare] is the runtime's
    collation, a parameter of the model. *)
Definition normalizedTags (localeCompare : string -> string -> Z)
    (tags : option (list string)) : option (list string) :=
  (fun l => sort localeCompare (trimmedTags l)) <$> tags.

(** [normalizedTags && normalizedTags.length > 0] *)
Definition hasTags (normalized : option (list string)) : bool :=
  match normalized with
  | Some (_ :: _) => true
  | _ => false
  end.

(** [cacheKey] of [getCachedUsers]. *)
Definition cacheKey (localeCompare : string -> string -> Z)
    (includeArchived : bool) (tags : option (list string)) : string :=
  let normalized := normalizedTags localeCompare tags in
  Js.join ":"
    [ "users"%string;
      (if includeArchived then "1" else "0")%string;
      (if hasTags normalized then Js.join "|" (default [] normalized) else "-"%string) ].

(** [params] of [getCachedUsers], the query of the request the fetcher sends. *)
Definition queryParams (localeCompare : string -> string -> Z)
    (includeArchived : bool) (tags : option (list string)) : gmap string string :=
  let normalized := normalizedTags localeCompare tags in
  let params : gmap string string :=
    if includeArchived then <["include_archived" := "true"%string]> ∅ else ∅ in
  if hasTags normalized
  then <["tags" := Js.join "," (default [] normalized)]> params
  else params.

(** Code-unit order, one collation [localeCompare] can be. *)
Definition codeUnitCompare (a b : string) : Z :=
  match String.compare a b with
  | Lt => -1
  | Eq => 0
  | Gt => 1
  end.

Record Project : Type := {
  projectName : string;
  projectDescription : option string
}.

(** The predicate of [searchProjects]'s [filter]. *)
Definition projectMatches (lowerQuery : string) (project : Project) : bool :=
  Js.includes (Js.toLowerCase (projectName project)) lowerQuery
  || match projectDescription project with
     | Some d => Js.truthy d && Js.includes (Js.toLowerCase d) lowerQuery
     | None => false
     end.

(** [searchProjects(query)], from the value [getCachedProjects()] resolved to. *)
Definition searchProjects (allProjects : list Project) (query : string) : list Project :=
  let lowerQuery := Js.toLowerCase query in
  List.filter (projectMatches lowerQuery) allProjects.

Record Named : Type := { name : option string }.

Record User : Type := {
  firstname : option string;
  lastname : option string;
  email : option string;
  info : option string;
  tags : option (list string);
  unit : option Named;
  role : option Named;
  mobile_phone : option string;
  work_phone : option string
}.

(** [if (field) searchTargets.push(field)] *)
Definition pushIfSet (field : option string) (targets : list string) : list string :=
  match field with
  | Some s => if Js.truthy s then targets ++ [s] else targets
  | None => targets
  end.

(** [searchTargets] as the filter callback of [searchUsers] builds it. *)
Definition searchTargets (user : User) : list string :=
  let t := pushIfSet (firstname user) [] in
  let t := pushIfSet (lastname user) t in
  let fullName :=
    Js.trim (default EmptyString (firstname user) +:+ " " +:+ default EmptyString (lastname user)) in
  let t := if (0 <? String.length fullName)%nat then t ++ [fullName] else t in
  let t := pushIfSet (email user) t in
  let t := pushIfSet (info user) t in
  let t := match tags user with
           | Some (tag :: more) => t ++ [Js.join " " (tag :: more)]
           | _ => t
           end in
  let t := pushIfSet (unit user ≫= name) t in
  let t := pushIfSet (role user ≫= name) t in
  let t := pushIfSet (mobile_phone user) t in
  pushIfSet (work_phone user) t.

Definition userMatches (normalizedQuery : string) (user : User) : bool :=
  existsb (fun target => Js.includes (Js.toLowerCase target) normalizedQuery) (searchTargets user).

(** [searchUsers(query, options)], from the value [getCachedUsers(...)]
    resolved to. *)
Definition searchUsers (allUsers : list User) (query : string) : list User :=
  let normalizedQuery := Js.toLowerCase (Js.trim query) in
  if (String.length normalizedQuery =? 0)%nat then allUsers
  else List.filter (userMatches normalizedQuery) allUsers.

(** A query that is empty or only white space. *)
Definition blank (query : string) : bool :=
  match Js.trim query with EmptyString => true | _ => false end.

End Directory.

(** ** [MocoApiService.getUserHolidays] *)

Module Holidays.

Section WithClassifier.

(** What [makeRequest]'s [try] block can catch, and the classification of
    [utils/errorHandler.js], which turns it into the message of the error
    [makeRequest] throws. *)
Context {RawError : Type} (handleMocoApiError : RawError -> string).
Context {UserHoliday : Type}.

(** What happens inside the [try] block of [makeRequest]. *)
Inductive Attempt : Type :=
| Responded (value : list UserHoliday)
| Failed (raw : RawError).

(** The result of an [async] method: the error's message when it throws. *)
Definition makeRequest (attempt : Attempt) : string + list UserHoliday :=
  match attempt with
  | Responded value => inr value
  | Failed raw => inl (handleMocoApiError raw)
  end.

Definition getUserHolidays (attempt : Attempt) : string + list UserHoliday :=
  match makeRequest attempt with
  | inr value => inr value
  | inl message =>
      if Js.includes message "Resource not found" then inr [] else inl message
  end.

End WithClassifier.

(** A classification of HTTP statuses of the kind the specification
    describes for the missing [utils/errorHandler.js]: a 404 reads
    "Resource not found". It only serves as an instance. *)
Definition classifyStatus (status : Z) : string :=
  if status =? 404 then "Resource not found. Please check the request."%string
  else "Server error. Please try again later."%string.

End Holidays.

(** ** [utils/cache.ts]: the store *)

Module MemoryCacheStore.

Section WithValues.

Context {T : Type}.

Record MemoryCacheEntry : Type := {
  value : T;
  expiresAt : option Z
}.

(** [get(key)] at the time [now]: the store it leaves and what it returns. *)
Definition get (store : gmap string MemoryCacheEntry) (now : Z) (key : string)
    : gmap string MemoryCacheEntry * option T :=
  match store !! key with
  | None => (store, None)
  | Some entry =>
      match expiresAt entry with
      | Some t => if t <=? now then (base.delete key store, None) else (store, Some (value entry))
      | None => (store, Some (value entry))
      end
  end.

(** [set(key, value, ttlSeconds?)] at the time [now]. *)
Definition set (store : gmap string MemoryCacheEntry) (now : Z) (key : string)
    (v : T) (ttlSeconds : option Z) : gmap string MemoryCacheEntry :=
  match ttlSeconds with
  | Some ttl =>
      if ttl <=? 0 then base.delete key store
      else <[key := {| value := v; expiresAt := Some (now + ttl * 1000) |}]> store
  | None => <[key := {| value := v; expiresAt := None |}]> store
  end.

Definition delete (store : gmap string MemoryCacheEntry) (key : string)
    : gmap string MemoryCacheEntry :=
  base.delete key store.

Definition clear (store : gmap string MemoryCacheEntry) : gmap string MemoryCacheEntry := ∅.

End WithValues.

Arguments MemoryCacheEntry T : clear implicits.

End MemoryCacheStore.

(** ** [utils/cache.ts]: the facade and its promises *)

Module Cache.

Import MemoryCacheStore.

Section WithValues.

(** [T]: the cached values. [F]: the fetcher closures callers pass. *)
Context {T F : Type}.

(** How a fetcher's result settles: a value, or the message of what it
    threw or rejected with. *)
Inductive Outcome : Type :=
| Fulfilled (v : T)
| Rejected (reason : string).

(** The life of the promise
    [Promise.resolve().then(fetcher).then(store).finally(unregister)]. *)
Inductive Phase : Type :=
| Queued                   (* created; the reaction that calls the fetcher has not run *)
| Running                  (* the fetcher was called, its result is awaited *)
| Completing (o : Outcome) (* the fetcher settled and [.then(store)] has reacted *)
| Settled (o : Outcome).   (* [.finally] ran: the promise is settled with [o] *)

Record Pending : Type := {
  pendingKey : string;
  pendingTtl : Z;
  pendingFetcher : F;
  phase : Phase
}.

(** What a call of [getOrSet] hands to its caller. *)
Inductive Handle : Type :=
| Direct           (* ttl <= 0: the result of the caller's own call of the fetcher *)
| Immediate (v : T) (* the cached value *)
| Shared (id : nat). (* the promise [id] of the pending-fetch table *)

(** The cache, the promises it created (a promise is its index), the clock,
    and two logs: every call of a fetcher, and what every call of [getOrSet]
    returned. *)
Record State : Type := {
  store : gmap string (MemoryCacheEntry T);
  pendingFetches : gmap string nat;
  promises : list Pending;
  now : Z;
  invocations : list (string * F);
  returned : list (string * Handle)
}.

Definition initial : State :=
  {| store := ∅; pendingFetches := ∅; promises := []; now := 0;
     invocations := []; returned := [] |}.

(** [Cache.clear()] *)
Definition clear (s : State) : State :=
  {| store := MemoryCacheStore.clear (store s);
     pendingFetches := ∅;
     promises := promises s;
     now := now s;
     invocations := invocations s;
     returned := returned s |}.

(** [Cache.getOrSet(key, ttlSeconds, fetcher)] up to its [return]: all of it
    runs without suspension. With [ttlSeconds <= 0] the fetcher is called
    here; otherwise the new promise only queues the reaction that calls it. *)
Definition getOrSet (key : string) (ttlSeconds : Z) (fetcher : F) (s : State)
    : State * Handle :=
  if ttlSeconds <=? 0 then
    ({| store := store s;
        pendingFetches := pendingFetches s;
        promises := promises s;
        now := now s;
        invocations := invocations s ++ [(key, fetcher)];
        returned := returned s ++ [(key, Direct)] |}, Direct)
  else
    let '(store', cached) := MemoryCacheStore.get (store s) (now s) key in
    match cached with
    | Some v =>
        ({| store := store';
            pendingFetches := pendingFetches s;
            promises := promises s;
            now := now s;
            invocations := invocations s;
            returned := returned s ++ [(key, Immediate v)] |}, Immediate v)
    | None =>
        match pendingFetches s !! key with
        | Some existingPending =>
            ({| store := store';
                pendingFetches := pendingFetches s;
                promises := promises s;
                now := now s;
                invocations := invocations s;
                returned := returned s ++ [(key, Shared existingPending)] |},
             Shared existingPending)
        | None =>
            let pending := length (promises s) in
            ({| store := store';
                pendingFetches := <[key := pending]> (pendingFetches s);
                promises := promises s ++
                  [{| pendingKey := key; pendingTtl := ttlSeconds;
                      pendingFetcher := fetcher; phase := Queued |}];
                now := now s;
                invocations := invocations s;
                returned := returned s ++ [(key, Shared pending)] |},
             Shared pending)
        end
    end.

Definition withPhase (p : Pending) (ph : Phase) : Pending :=
  {| pendingKey := pendingKey p; pendingTtl := pendingTtl p;
     pendingFetcher := pendingFetcher p; phase := ph |}.

(** The reaction [.then(fetcher)] of promise [id]: the fetcher is called. *)
Definition runFetcher (id : nat) (s : State) : State :=
  match promises s !! id with
  | Some p =>
      match phase p with
      | Queued =>
          {| store := store s;
             pendingFetches := pendingFetches s;
             promises := <[id := withPhase p Running]> (promises s);
             now := now s;
             invocations := invocations s ++ [(pendingKey p, pendingFetcher p)];
             returned := returned s |}
      | _ => s
      end
  | None => s
  end.

(** The fetcher of promise [id] settles with [o]. The reaction
    [.then(result => { this.set(key, result, ttlSeconds); return result })]
    runs on fulfilment only. *)
Definition fetcherSettles (id : nat) (o : Outcome) (s : State) : State :=
  match promises s !! id with
  | Some p =>
      match phase p with
      | Running =>
          {| store :=
               match o with
               | Fulfilled result =>
                   MemoryCacheStore.set (store s) (now s) (pendingKey p) result
                     (Some (pendingTtl p))
               | Rejected _ => store s
               end;
             pendingFetches := pendingFetches s;
             promises := <[id := withPhase p (Completing o)]> (promises s);
             now := now s;
             invocations := invocations s;
             returned := returned s |}
      | _ => s
      end
  | None => s
  end.

(** The reaction [.finally(() => { this.pendingFetches.delete(key) })] of
    promise [id], after which the promise is settled. *)
Definition runFinally (id : nat) (s : State) : State :=
  match promises s !! id with
  | Some p =>
      match phase p with
      | Completing o =>
          {| store := store s;
             pendingFetches := base.delete (pendingKey p) (pendingFetches s);
             promises := <[id := withPhase p (Settled o)]> (promises s);
             now := now s;
             invocations := invocations s;
             returned := returned s |}
      | _ => s
      end
  | None => s
  end.

(** The clock advances. *)
Definition tick (ms : Z) (s : State) : State :=
  {| store := store s;
     pendingFetches := pendingFetches s;
     promises := promises s;
     now := now s + ms;
     invocations := invocations s;
     returned := returned s |}.

(** What the event loop can run next. *)
Inductive Event : Type :=
| CallGetOrSet (key : string) (ttlSeconds : Z) (fetcher : F)
| CallClear
| RunFetcher (id : nat)
| FetcherSettles (id : nat) (o : Outcome)
| RunFinally (id : nat)
| Tick (ms : Z).

Definition step (s : State) (e : Event) : State :=
  match e with
  | CallGetOrSet key ttlSeconds fetcher => fst (getOrSet key ttlSeconds fetcher s)
  | CallClear => clear s
  | RunFetcher id => runFetcher id s
  | FetcherSettles id o => fetcherSettles id o s
  | RunFinally id => runFinally id s
  | Tick ms => tick ms s
  end.

Definition run (s : State) (events : list Event) : State :=
  fold_left step events s.

(** What the holder of a handle has received so far. A [Direct] handle is
    the caller's own fetch, which the cache does not see. *)
Definition received (s : State) (h : Handle) : option Outcome :=
  match h with
  | Direct => None
  | Immediate v => Some (Fulfilled v)
  | Shared id =>
      match promises s !! id with
      | Some p => match phase p with Settled o => Some o | _ => None end
      | None => None
      end
  end.

(** The entries of a log that are about [key], oldest first. *)
Definition forKey {A : Type} (key : string) (log : list (string * A)) : list A :=
  snd <$> List.filter (fun entry => String.eqb (fst entry) key) log.

(** The fetchers called for [key], oldest first. *)
Definition invokedFor (key : string) (s : State) : list F :=
  forKey key (invocations s).

(** The handles returned by the calls of [getOrSet] for [key], oldest first. *)
Definition returnedFor (key : string) (s : State) : list Handle :=
  forKey key (returned s).

(** A promise is in flight until its [.finally] reaction has run. *)
Definition inFlight (p : Pending) : bool :=
  match phase p with
  | Settled _ => false
  | _ => true
  end.

(** No promise for [key] is in flight. *)
Definition idle (key : string) (s : State) : bool :=
  forallb (fun p => negb (String.eqb (pendingKey p) key && inFlight p)) (promises s).

(** An event that can happen "before the fetch [id] for [key] settles" when
    nobody clears the cache and every call for [key] asks for caching:
    anything but [clear()], a call for [key] with [ttl <= 0], and the two
    reactions that settle the promise [id]. *)
Definition concurrentWith (key : string) (id : nat) (e : Event) : bool :=
  match e with
  | CallGetOrSet key' ttlSeconds _ => negb (String.eqb key' key) || (0 <? ttlSeconds)
  | CallClear => false
  | RunFetcher _ => true
  | FetcherSettles id' _ => negb (id' =? id)%nat
  | RunFinally id' => negb (id' =? id)%nat
  | Tick _ => true
  end.

(** The calls of [getOrSet] for [key] among the events. *)
Definition callsFor (key : string) (events : list Event) : nat :=
  length (List.filter
            (fun e => match e with
                      | CallGetOrSet key' _ _ => String.eqb key' key
                      | _ => false
                      end) events).

(** An event that leaves [key] alone in a cache whose promises were [ps]
    when it was cleared: not a call for [key], and not the fulfilment of a
    fetch for [key] that was in flight then. *)
Definition leavesAlone (key : string) (ps : list Pending) (e : Event) : bool :=
  match e with
  | CallGetOrSet key' _ _ => negb (String.eqb key' key)
  | CallClear => true
  | FetcherSettles id (Fulfilled _) =>
      match ps !! id with
      | Some p => negb (String.eqb (pendingKey p) key)
      | None => true
      end
  | _ => true
  end.

(** The world while the fetch [id], started for [key] with [fetcher] from
    the state [base], is in flight and [calls] calls for [key] have been
    made since [base]. *)
Record Flying (key : string) (ttl : Z) (fetcher : F) (id : nat)
    (base : State) (calls : nat) (s : State) : Prop := {
  flying_ttl : 0 < ttl;
  flying_store : store s !! key = None;
  flying_pending : pendingFetches s !! key = Some id;
  flying_promise :
    exists ph : Phase,
      promises s !! id =
        Some {| pendingKey := key; pendingTtl := ttl;
                pendingFetcher := fetcher; phase := ph |}
      /\ ((ph = Queued /\ invokedFor key s = invokedFor key base)
          \/ (ph = Running /\ invokedFor key s = invokedFor key base ++ [fetcher]));
  flying_alone :
    forall (id' : nat) (p : Pending),
      promises s !! id' = Some p -> pendingKey p = key -> inFlight p = true -> id' = id;
  flying_returned :
    returnedFor key s = returnedFor key base ++ replicate calls (Shared id)
}.

(** Every promise in flight is the one the pending-fetch table holds for
    its key. *)
Definition Registered (s : State) : Prop :=
  forall (id : nat) (p : Pending),
    promises s !! id = Some p -> inFlight p = true ->
    pendingFetches s !! pendingKey p = Some id.

(** The events are not calls of [clear()]. *)
Definition withoutClear (events : list Event) : bool :=
  forallb (fun e => match e with CallClear => false | _ => true end) events.

(** Nothing is stored and nothing is pending for [key], and the promises
    for [key] are among [ps]: the cache as [clear()] leaves it, for as long
    as [key] is left alone. *)
Record Untouched (key : string) (ps : list Pending) (s : State) : Prop := {
  untouched_store : store s !! key = None;
  untouched_pending : pendingFetches s !! key = None;
  untouched_promises :
    forall (id : nat) (p : Pending),
      promises s !! id = Some p -> pendingKey p = key ->
      exists p0 : Pending, ps !! id = Some p0 /\ pendingKey p0 = key
}.

End WithValues.

Arguments Outcome T : clear implicits.
Arguments Handle T : clear implicits.
Arguments Phase T : clear implicits.
Arguments Pending T F : clear implicits.
Arguments State T F : clear implicits.
Arguments Event T F : clear implicits.

End Cache.

(** ** The cached queries of [MocoApiService] *)

Module Service.

(** A fetcher closure [() => this.fetchAllPages(endpoint, params)] is known
    by its endpoint and its query parameters. *)
Definition Fetcher : Type := string * gmap string string.

(** [getCachedProjects()] up to the promise it returns. *)
Definition getCachedProjects {T : Type} (cacheTtlSeconds : Z) (s : Cache.State T Fetcher)
    : Cache.State T Fetcher * Cache.Handle T :=
  Cache.getOrSet "projects:assigned" cacheTtlSeconds ("/projects/assigned"%string, ∅) s.

(** [getCachedUsers(includeArchived, tags)] up to the promise it returns. *)
Definition getCachedUsers {T : Type} (localeCompare : string -> string -> Z)
    (cacheTtlSeconds : Z) (includeArchived : bool) (tags : option (list string))
    (s : Cache.State T Fetcher) : Cache.State T Fetcher * Cache.Handle T :=
  Cache.getOrSet (Directory.cacheKey localeCompare includeArchived tags) cacheTtlSeconds
    ("/users"%string, Directory.queryParams localeCompare includeArchived tags) s.

End Service.

(** ** More string built-ins *)

Module JsText.

(** [s.startsWith(p)] *)
Definition startsWith (s p : string) : bool := String.prefix p s.

(** [s.endsWith(p)] *)
Definition endsWith (s p : string) : bool :=
  (String.length p <=? String.length s)%nat
  && String.eqb
       (String.substring (String.length s - String.length p) (String.length p) s) p.

(** [s.split(sep)] for a separator of one code unit. *)
Fixpoint split (sep : ascii) (s : string) : list string :=
  match s with
  | EmptyString => [EmptyString]
  | String c s' =>
      if Ascii.eqb c sep then EmptyString :: split sep s'
      else match split sep s' with
           | piece :: more => String c piece :: more
           | [] => [String c EmptyString]
           end
  end.

(** [String(n)] for an integer [n]. *)
Definition numberToString (n : Z) : string :=
  if n <? 0 then "-" +:+ Pagination.decimal (- n) else Pagination.decimal n.

(** The code unit 34, the double quote. *)
Definition doubleQuote : string :=
  String (Ascii.Ascii false true false false false true false false) EmptyString.

(** [!value] for a [string | undefined]. *)
Definition unset (value : option string) : bool :=
  match value with
  | Some s => negb (Js.truthy s)
  | None => true
  end.

End JsText.

(** ** [config/environment.ts] *)

Module Environment.

(** [process.env]: a variable that is not set reads [undefined]. *)
Abbreviation Env := (gmap string string).

Record MocoConfig : Type := {
  apiKey : string;
  subdomain : string;
  baseUrl : string;
  cacheTtlSeconds : JsNum.jsnum
}.

Definition DEFAULT_HTTP_PORT : Z := 8080.
Definition DEFAULT_HTTP_HOST : string := "0.0.0.0".
Definition DEFAULT_HTTP_BASE_PATH : string := "/sse".
Definition DEFAULT_HTTP_SESSION_STATEFUL : bool := false.
Definition DEFAULT_NGROK_ENABLED : bool := false.
Definition DEFAULT_CACHE_TTL_SECONDS : Z := 300.

(** [Number.isNaN(parsed) || parsed < 0] *)
Definition nanOrNegative (parsed : JsNum.jsnum) : bool :=
  match parsed with
  | JsNum.NaN => true
  | JsNum.NegInf => true
  | JsNum.Int z => z <? 0
  | JsNum.NegZero | JsNum.PosInf => false
  end.

(** [getMocoConfig()]: the message of the error it throws, or the
    configuration. *)
Definition getMocoConfig (env : Env) : string + MocoConfig :=
  let apiKey := env !! "MOCO_API_KEY" in
  let subdomain := env !! "MOCO_SUBDOMAIN" in
  let cacheTtlEnv := env !! "MOCO_API_CACHE_TIME" in
  if JsText.unset apiKey then
    inl "MOCO_API_KEY environment variable is required"%string
  else if JsText.unset subdomain then
    inl "MOCO_SUBDOMAIN environment variable is required"%string
  else
    let apiKey := default EmptyString apiKey in
    let subdomain := default EmptyString subdomain in
    if Js.includes subdomain "." || Js.includes subdomain "http" then
      inl ("MOCO_SUBDOMAIN should only contain the subdomain name (e.g., "
           +:+ JsText.doubleQuote +:+ "yourcompany" +:+ JsText.doubleQuote +:+ ", not "
           +:+ JsText.doubleQuote +:+ "yourcompany.mocoapp.com" +:+ JsText.doubleQuote +:+ ")")
    else
      let finish (cacheTtlSeconds : JsNum.jsnum) : string + MocoConfig :=
        inr {| apiKey := apiKey;
               subdomain := subdomain;
               baseUrl := "https://" +:+ subdomain +:+ ".mocoapp.com/api/v1";
               cacheTtlSeconds := cacheTtlSeconds |} in
      match cacheTtlEnv with
      | None => finish (JsNum.Int DEFAULT_CACHE_TTL_SECONDS)
      | Some value =>
          let parsed := JsNum.parseInt value in
          if nanOrNegative parsed then
            inl "MOCO_API_CACHE_TIME must be a non-negative integer representing seconds."%string
          else finish parsed
      end.

(** [parseCsv(value)] *)
Definition parseCsv (value : option string) : option (list string) :=
  if JsText.unset value then None
  else
    let entries :=
      List.filter Js.truthy (List.map Js.trim (JsText.split "," (default EmptyString value))) in
    match entries with
    | [] => None
    | _ :: _ => Some entries
    end.

(** [normalizeHttpBasePath(pathValue)] *)
Definition normalizeHttpBasePath (pathValue : option string) : string :=
  if JsText.unset pathValue then DEFAULT_HTTP_BASE_PATH
  else
    let trimmed := Js.trim (default EmptyString pathValue) in
    if negb (Js.truthy trimmed) then DEFAULT_HTTP_BASE_PATH
    else
      let withLeadingSlash :=
        if JsText.startsWith trimmed "/" then trimmed else "/" +:+ trimmed in
      if (String.length withLeadingSlash =? 1)%nat then "/"%string
      else if JsText.endsWith withLeadingSlash "/"
           then Js.slice withLeadingSlash 0 (Some (-1))
           else withLeadingSlash.

Record HttpServerConfig : Type := {
  port : JsNum.jsnum;
  host : string;
  basePath : string;
  sessionStateful : bool;
  ngrokEnabled : bool;
  allowedHosts : option (list string);
  allowedOrigins : option (list string)
}.

(** [Number.isNaN(parsedPort) || parsedPort <= 0] *)
Definition nanOrNotPositive (parsed : JsNum.jsnum) : bool :=
  match parsed with
  | JsNum.NaN | JsNum.NegInf | JsNum.NegZero => true
  | JsNum.Int z => z <=? 0
  | JsNum.PosInf => false
  end.

(** [getHttpServerConfig()] *)
Definition getHttpServerConfig (env : Env) : HttpServerConfig :=
  let rawPort :=
    match env !! "MCP_HTTP_PORT" with
    | Some v => Some v
    | None => env !! "PORT"
    end in
  let parsedPort :=
    if JsText.unset rawPort then JsNum.Int DEFAULT_HTTP_PORT
    else JsNum.parseInt (default EmptyString rawPort) in
  let port := if nanOrNotPositive parsedPort then JsNum.Int DEFAULT_HTTP_PORT else parsedPort in
  let host :=
    match Js.trim <$> env !! "MCP_HTTP_HOST" with
    | Some h => if Js.truthy h then h else DEFAULT_HTTP_HOST
    | None => DEFAULT_HTTP_HOST
    end in
  let basePath := normalizeHttpBasePath (env !! "MCP_HTTP_PATH") in
  let sessionStatefulEnv := env !! "MCP_HTTP_SESSION_STATEFUL" in
  let sessionStateful :=
    if JsText.unset sessionStatefulEnv then DEFAULT_HTTP_SESSION_STATEFUL
    else negb (String.eqb (Js.toLowerCase (default EmptyString sessionStatefulEnv)) "false") in
  let ngrokEnabledEnv := env !! "NGROK_ENABLED" in
  let ngrokEnabled :=
    if JsText.unset ngrokEnabledEnv then DEFAULT_NGROK_ENABLED
    else existsb (String.eqb (Js.toLowerCase (default EmptyString ngrokEnabledEnv)))
           ["1"; "true"; "yes"; "on"]%string in
  {| port := port;
     host := host;
     basePath := basePath;
     sessionStateful := sessionStateful;
     ngrokEnabled := ngrokEnabled;
     allowedHosts := parseCsv (env !! "MCP_HTTP_ALLOWED_HOSTS");
     allowedOrigins := parseCsv (env !! "MCP_HTTP_ALLOWED_ORIGINS") |}.

Inductive LogLevel : Type := LevelDebug | LevelInfo | LevelWarn | LevelError.

Definition DEFAULT_LOG_LEVEL : LogLevel := LevelInfo.

(** [normalizeLogLevel(level)] *)
Definition normalizeLogLevel (level : option string) : LogLevel :=
  if JsText.unset level then DEFAULT_LOG_LEVEL
  else
    let normalized := Js.toLowerCase (default EmptyString level) in
    if String.eqb normalized "debug" then LevelDebug
    else if String.eqb normalized "info" then LevelInfo
    else if String.eqb normalized "warn" then LevelWarn
    else if String.eqb normalized "error" then LevelError
    else DEFAULT_LOG_LEVEL.

Definition getLogLevel (env : Env) : LogLevel := normalizeLogLevel (env !! "LOG_LEVEL").

End Environment.

(** ** [utils/logger.ts] *)

Module Logger.

Import Environment.

Definition levelPriority (level : LogLevel) : Z :=
  match level with
  | LevelDebug => 10
  | LevelInfo => 20
  | LevelWarn => 30
  | LevelError => 40
  end.

Definition severityLabels (level : LogLevel) : string :=
  match level with
  | LevelDebug => "DEBUG"
  | LevelInfo => "INFO"
  | LevelWarn => "WARNING"
  | LevelError => "ERROR"
  end.

(** [shouldLog(level)], which is [logger.isLevelEnabled(level)] *)
Definition shouldLog (env : Env) (level : LogLevel) : bool :=
  levelPriority (getLogLevel env) <=? levelPriority level.

End Logger.

(** ** [http.ts]: routing by base path, and the capture of a request body *)

Module Http.

(** [basePath] of [startHttpServer(options)]:
    [normalizeHttpBasePath(options.path ?? envConfig.basePath)]. *)
Definition servedBasePath (optionsPath : option string) (env : Environment.Env) : string :=
  Environment.normalizeHttpBasePath
    (Some (default (Environment.basePath (Environment.getHttpServerConfig env)) optionsPath)).

(** [matchesBasePath] of the request handler. *)
Definition matchesBasePath (basePath pathname : string) : bool :=
  if String.eqb basePath "/" then true
  else String.eqb pathname basePath || JsText.startsWith pathname (basePath +:+ "/").

(** What the handler does with a request: answer 404, or hand it to the
    transport with this [req.url]. *)
Inductive Routed : Type :=
| NotFound
| Forwarded (url : string).

(** The routing of a request whose [req.url] is [rawUrl] and whose parsed
    URL has the path [pathname] and the query [search]. *)
Definition route (basePath rawUrl pathname search : string) : Routed :=
  if negb (matchesBasePath basePath pathname) then NotFound
  else if negb (String.eqb basePath "/") then
    let sliced := Js.slice pathname (Z.of_nat (String.length basePath)) None in
    let remainder := if Js.truthy sliced then sliced else "/"%string in
    let normalizedRemainder :=
      if JsText.startsWith remainder "/" then remainder else "/" +:+ remainder in
    Forwarded (normalizedRemainder +:+ search)
  else Forwarded rawUrl.

(** The events of the request stream that [captureRequestBody] listens to. *)
Inductive StreamEvent : Type :=
| OnData (chunk : string)
| OnEnd
| OnClose
| OnError (message : string).

(** The callback [captureRequestBody] invokes. *)
Inductive Callback : Type :=
| Complete (body : option string)
| Fail (message : string).

(** The closure state of [captureRequestBody]: the chunks, the [finished]
    flag, whether the four listeners are still attached, and the callbacks
    invoked so far. *)
Record Capture : Type := {
  chunks : list string;
  finished : bool;
  listening : bool;
  invoked : list Callback
}.

(** After [captureRequestBody(req, onComplete, onError)] has returned. *)
Definition listeningCapture : Capture :=
  {| chunks := []; finished := false; listening := true; invoked := [] |}.

(** [Buffer.concat(chunks).toString("utf8")] when there are chunks. *)
Definition bodyOf (chunks : list string) : option string :=
  match chunks with
  | [] => None
  | _ :: _ => Some (String.concat EmptyString chunks)
  end.

(** [complete(body)] and [fail(message)]: both return at once when
    [finished] is set, and otherwise set it, detach the listeners and invoke
    the callback. *)
Definition settle (c : Capture) (callback : Callback) : Capture :=
  if finished c then c
  else {| chunks := chunks c; finished := true; listening := false;
          invoked := invoked c ++ [callback] |}.

(** The stream emits an event: the listener for it runs if it is attached. *)
Definition emit (c : Capture) (e : StreamEvent) : Capture :=
  if negb (listening c) then c
  else match e with
       | OnData chunk =>
           {| chunks := chunks c ++ [chunk]; finished := finished c;
              listening := listening c; invoked := invoked c |}
       | OnEnd | OnClose => settle c (Complete (bodyOf (chunks c)))
       | OnError message => settle c (Fail message)
       end.

Definition emitAll (c : Capture) (events : list StreamEvent) : Capture :=
  fold_left emit events c.

End Http.

(** ** [utils/cache.ts]: the other methods of the facade *)

Module CacheFacade.

Section WithValues.

Context {T F : Type}.

(** [Cache.get(key)] *)
Definition get (key : string) (s : Cache.State T F) : Cache.State T F * option T :=
  let '(store', found) := MemoryCacheStore.get (Cache.store s) (Cache.now s) key in
  ({| Cache.store := store';
      Cache.pendingFetches := Cache.pendingFetches s;
      Cache.promises := Cache.promises s;
      Cache.now := Cache.now s;
      Cache.invocations := Cache.invocations s;
      Cache.returned := Cache.returned s |}, found).

(** [Cache.set(key, value, ttlSeconds?)] *)
Definition set (key : string) (value : T) (ttlSeconds : option Z) (s : Cache.State T F)
    : Cache.State T F :=
  {| Cache.store := MemoryCacheStore.set (Cache.store s) (Cache.now s) key value ttlSeconds;
     Cache.pendingFetches := Cache.pendingFetches s;
     Cache.promises := Cache.promises s;
     Cache.now := Cache.now s;
     Cache.invocations := Cache.invocations s;
     Cache.returned := Cache.returned s |}.

(** [Cache.delete(key)] *)
Definition delete (key : string) (s : Cache.State T F) : Cache.State T F :=
  {| Cache.store := MemoryCacheStore.delete (Cache.store s) key;
     Cache.pendingFetches := Cache.pendingFetches s;
     Cache.promises := Cache.promises s;
     Cache.now := Cache.now s;
     Cache.invocations := Cache.invocations s;
     Cache.returned := Cache.returned s |}.

(** [Cache.setStore(store)]: [this.store = store; this.clear()], so the
    store handed in is cleared too. *)
Definition setStore (newStore : gmap string (MemoryCacheStore.MemoryCacheEntry T))
    (s : Cache.State T F) : Cache.State T F :=
  Cache.clear
    {| Cache.store := newStore;
       Cache.pendingFetches := Cache.pendingFetches s;
       Cache.promises := Cache.promises s;
       Cache.now := Cache.now s;
       Cache.invocations := Cache.invocations s;
       Cache.returned := Cache.returned s |}.

End WithValues.

End CacheFacade.

(** ** [MocoApiService.getProjectTasks] *)

Module Tasks.

(** A task as a project of [/projects/assigned] lists it. *)
Record ProjectTask : Type := {
  taskId : Z;
  taskName : string;
  taskActive : bool;
  taskBillable : bool
}.

Record AssignedProject : Type := {
  projectId : Z;
  projectName : string;
  projectTasks : list ProjectTask;
  projectCreatedAt : string;
  projectUpdatedAt : string
}.

(** The [Task] that [getProjectTasks] returns. *)
Record Task : Type := {
  id : Z;
  name : string;
  active : bool;
  billable : bool;
  ofProjectId : Z;
  ofProjectName : string;
  created_at : string;
  updated_at : string
}.

(** [getProjectTasks(projectId)], from the value [getCachedProjects()]
    resolved to: the message of the error it throws, or the tasks. *)
Definition getProjectTasks (assignedProjects : list AssignedProject) (wanted : Z)
    : string + list Task :=
  match List.find (fun p => projectId p =? wanted) assignedProjects with
  | None =>
      inl ("Project " +:+ JsText.numberToString wanted
           +:+ " is not assigned to the current user or does not exist.")
  | Some project =>
      inr (List.map
             (fun task =>
                {| id := taskId task;
                   name := taskName task;
                   active := taskActive task;
                   billable := taskBillable task;
                   ofProjectId := projectId project;
                   ofProjectName := projectName project;
                   created_at := projectCreatedAt project;
                   updated_at := projectUpdatedAt project |})
             (projectTasks project))
  end.

End Tasks.

(** ** [getTakenHolidays], [getTakenSickDays], [getPublicHolidays] *)

Module Schedules.

(** The fields of a schedule's [assignment] that the filters read; a field
    that is not there, or is not a string, is [None]. *)
Record Assignment : Type := {
  assignmentType : option string;
  assignmentCode : option string;
  assignmentName : option string
}.

Record Schedule : Type := {
  scheduleDate : string;
  assignment : option Assignment
}.

(** [field === literal] *)
Definition equals (field : option string) (literal : string) : bool :=
  match field with
  | Some s => String.eqb s literal
  | None => false
  end.

(** [schedule.assignment && schedule.assignment.type === 'Absence'] *)
Definition isAbsence (schedule : Schedule) : bool :=
  match assignment schedule with
  | Some a => equals (assignmentType a) "Absence"
  | None => false
  end.

(** What [makeRequest('/schedules', ...)] did: resolved to the schedules,
    or threw. *)
Inductive Fetch (E : Type) : Type :=
| Answered (allSchedules : list Schedule)
| Errored (error : E).
Arguments Answered {E} _.
Arguments Errored {E} _.

(** [getTakenHolidays(year)], from what the request for the year did. *)
Definition getTakenHolidays {E : Type} (attempt : Fetch E) : list Schedule :=
  match attempt with
  | Answered allSchedules =>
      let absences := List.filter isAbsence allSchedules in
      List.filter
        (fun schedule =>
           equals (assignment schedule ≫= assignmentCode) "4"
           && equals (assignment schedule ≫= assignmentName) "Urlaub")
        absences
  | Errored _ => []
  end.

(** [getTakenSickDays(year)] *)
Definition getTakenSickDays {E : Type} (attempt : Fetch E) : list Schedule :=
  match attempt with
  | Answered allSchedules =>
      List.filter
        (fun schedule =>
           match assignment schedule with
           | Some a =>
               equals (assignmentType a) "Absence" && equals (assignmentCode a) "3"
               && equals (assignmentName a) "Krankheit"
           | None => false
           end)
        allSchedules
  | Errored _ => []
  end.

(** [getPublicHolidays(year)] *)
Definition getPublicHolidays {E : Type} (attempt : Fetch E) : list Schedule :=
  match attempt with
  | Answered allSchedules =>
      List.filter
        (fun schedule =>
           match assignment schedule with
           | Some a => equals (assignmentType a) "Absence" && equals (assignmentCode a) "2"
           | None => false
           end)
        allSchedules
  | Errored _ => []
  end.

End Schedules.

(** * Facts about the string built-ins *)

Module JsFacts.

Lemma length_append (a b : string) :
  String.length (a +:+ b) = (String.length a + String.length b)%nat.
Proof. induction a as [|c a IH]; simpl; [reflexivity | now rewrite IH]. Qed.

Lemma append_cons (x : ascii) (a b : string) : String x a +:+ b = String x (a +:+ b).
Proof. reflexivity. Qed.

Lemma append_assoc (a b c : string) : (a +:+ b) +:+ c = a +:+ (b +:+ c).
Proof.
  induction a as [|x a IH]; [reflexivity|].
  rewrite !append_cons. f_equal. exact IH.
Qed.

Lemma append_empty_r (a : string) : a +:+ "" = a.
Proof.
  induction a as [|x a IH]; [reflexivity|].
  rewrite append_cons. f_equal. exact IH.
Qed.

Lemma append_cancel_l (a x y : string) : a +:+ x = a +:+ y -> x = y.
Proof.
  induction a as [|c a IH]; intros H; [exact H|].
  rewrite !append_cons in H. injection H as H. auto.
Qed.

Lemma append_cancel_r (b x y : string) : x +:+ b = y +:+ b -> x = y.
Proof.
  revert y. induction x as [|c x IH]; intros [|d y] H.
  - reflexivity.
  - apply (f_equal String.length) in H. rewrite !length_append in H. simpl in H. lia.
  - apply (f_equal String.length) in H. rewrite !length_append in H. simpl in H. lia.
  - rewrite !append_cons in H. injection H as -> H. f_equal. now apply IH.
Qed.

Lemma substring_all (s : string) : String.substring 0 (String.length s) s = s.
Proof. induction s as [|c s IH]; simpl; [reflexivity | now rewrite IH]. Qed.

Lemma substring_append_l (a b : string) :
  String.substring 0 (String.length a) (a +:+ b) = a.
Proof.
  induction a as [|c a IH].
  - destruct b; reflexivity.
  - rewrite append_cons. simpl. now rewrite IH.
Qed.

Lemma substring_append_r (a b : string) (n : nat) :
  String.substring (String.length a) n (a +:+ b) = String.substring 0 n b.
Proof.
  induction a as [|c a IH]; [reflexivity|].
  rewrite append_cons. simpl. exact IH.
Qed.

Lemma substring_split (s : string) (n : nat) :
  (n <= String.length s)%nat ->
  s = String.substring 0 n s +:+ String.substring n (String.length s - n) s.
Proof.
  revert n. induction s as [|c s IH]; intros [|n] H; simpl in *.
  - reflexivity.
  - lia.
  - now rewrite substring_all.
  - rewrite append_cons. f_equal. apply IH. lia.
Qed.

Lemma length_substring (s : string) (n m : nat) :
  (n + m <= String.length s)%nat -> String.length (String.substring n m s) = m.
Proof.
  revert n m. induction s as [|c s IH]; intros [|n] [|m] H; simpl in *;
    try reflexivity; try lia.
  - f_equal. apply (IH 0%nat m). lia.
  - apply (IH n 0%nat). lia.
  - apply (IH n (S m)). lia.
Qed.

Lemma slice_to (a b : string) :
  Js.slice (a +:+ b) 0 (Some (Z.of_nat (String.length a))) = a.
Proof.
  unfold Js.slice, Js.sliceIndex. rewrite length_append. simpl.
  destruct (Z.ltb_spec (Z.of_nat (String.length a)) 0) as [E|E]; [lia|].
  rewrite Nat2Z.id, Nat.min_l by lia.
  rewrite Nat.sub_0_r. apply substring_append_l.
Qed.

Lemma slice_from (a b : string) :
  Js.slice (a +:+ b) (Z.of_nat (String.length a)) None = b.
Proof.
  unfold Js.slice, Js.sliceIndex. rewrite length_append.
  destruct (Z.ltb_spec (Z.of_nat (String.length a)) 0) as [E|E]; [lia|].
  rewrite Nat2Z.id, Nat.min_l by lia.
  replace (String.length a + String.length b - String.length a)%nat
    with (String.length b) by lia.
  rewrite substring_append_r. apply substring_all.
Qed.

Lemma slice_first4 (a b : string) :
  String.length a = 4%nat -> Js.slice (a +:+ b) 0 (Some 4) = a.
Proof. intros H. rewrite <- (slice_to a b) at 2. now rewrite H. Qed.

Lemma slice_last4 (a b : string) :
  String.length b = 4%nat -> Js.slice (a +:+ b) (-4) None = b.
Proof.
  intros H. rewrite <- (slice_from a b) at 2.
  unfold Js.slice, Js.sliceIndex. rewrite length_append, H.
  change (-4 <? 0) with true. cbv iota.
  destruct (Z.ltb_spec (Z.of_nat (String.length a)) 0) as [E|E]; [lia|].
  f_equal; lia.
Qed.

Lemma repeat_length (n : nat) : String.length (Js.repeat "*" n) = n.
Proof.
  induction n as [|n IH]; [reflexivity|].
  change (Js.repeat "*" (S n)) with ("*" +:+ Js.repeat "*" n).
  rewrite length_append, IH. reflexivity.
Qed.

End JsFacts.

(** * Redaction of the API key in logged request headers *)

Module RedactionFacts.

Import JsFacts.

(** The two pieces [sanitizeRequestHeaders] cuts the header value into, when
    the marker found is [marker] and stands right after [pre]. *)
Lemma sanitize_cut (headers : gmap string string) (pre marker secret : string) :
  headers !! "Authorization" = Some (pre +:+ marker +:+ secret) ->
  String.length marker = 6%nat ->
  Js.indexOf (Js.toLowerCase (pre +:+ marker +:+ secret)) "token=" = Some (String.length pre) ->
  Redaction.sanitizeRequestHeaders headers =
    if (String.length secret <=? 8)%nat then
      <["Authorization" :=
          (pre +:+ marker) +:+ Js.repeat "*" (Nat.max (String.length secret) 4)]> headers
    else
      <["Authorization" :=
          (pre +:+ marker) +:+ Js.slice secret 0 (Some 4) +:+ "..."
          +:+ Js.slice secret (-4) None]> headers.
Proof.
  intros Hget Hlen Hidx. unfold Redaction.sanitizeRequestHeaders.
  rewrite Hget, Hidx.
  assert (Htruthy : Js.truthy (pre +:+ marker +:+ secret) = true).
  { destruct (pre +:+ marker +:+ secret) eqn:E; [|reflexivity].
    apply (f_equal String.length) in E. rewrite !length_append in E. simpl in E. lia. }
  rewrite Htruthy. cbv [negb].
  change (String.length "token=") with 6%nat.
  rewrite <- Hlen, <- length_append, <- append_assoc.
  rewrite slice_to, slice_from. reflexivity.
Qed.

Lemma repeat_star_self (s : string) (n : nat) :
  s = Js.repeat "*" n -> String.length s = n.
Proof. intros ->. apply repeat_length. Qed.

End RedactionFacts.

(** C8, as amended. [sanitizeRequestHeaders] leaves headers without an
    [Authorization] entry, or with an empty one, as they are; replaces an
    [Authorization] value that is not empty and has no [token=] marker by
    [[REDACTED]]; and otherwise keeps the value
    up to and including the first marker and masks the secret after it: a
    secret of more than 8 characters by its first 4 characters, an ellipsis
    and its last 4 characters, a shorter one by asterisks only, at least 4 of
    them. The masked text differs from the secret except when the secret
    already has the shape of its mask: 4 to 8 asterisks, or 11 characters of
    which the middle three are dots. *)
Theorem sanitizeRequestHeaders_redacts :
  (forall headers : gmap string string,
      headers !! "Authorization" = None \/ headers !! "Authorization" = Some EmptyString ->
      Redaction.sanitizeRequestHeaders headers = headers)
  /\ (forall (headers : gmap string string) (auth : string),
         headers !! "Authorization" = Some auth ->
         auth <> EmptyString ->
         Js.indexOf (Js.toLowerCase auth) "token=" = None ->
         Redaction.sanitizeRequestHeaders headers
         = <["Authorization" := "[REDACTED]"%string]> headers)
  /\ (forall (headers : gmap string string) (pre marker secret : string),
         headers !! "Authorization" = Some (pre +:+ marker +:+ secret) ->
         String.length marker = 6%nat ->
         Js.indexOf (Js.toLowerCase (pre +:+ marker +:+ secret)) "token="
         = Some (String.length pre) ->
         exists masked : string,
           Redaction.sanitizeRequestHeaders headers
           = <["Authorization" := (pre +:+ marker) +:+ masked]> headers
           /\ ((8 < String.length secret)%nat ->
               exists a mid b : string,
                 secret = a +:+ mid +:+ b /\ String.length a = 4%nat
                 /\ String.length b = 4%nat /\ masked = a +:+ "..." +:+ b)
           /\ ((String.length secret <= 8)%nat ->
               masked = Js.repeat "*" (Nat.max (String.length secret) 4))
           /\ (masked = secret <->
               ((4 <= String.length secret <= 8)%nat
                /\ secret = Js.repeat "*" (String.length secret))
               \/ (String.length secret = 11%nat
                   /\ String.substring 4 3 secret = "..."%string))).
Proof.
  split; [|split].
  - intros headers [H|H]; unfold Redaction.sanitizeRequestHeaders; now rewrite H.
  - intros headers auth H Ht Hi. unfold Redaction.sanitizeRequestHeaders.
    rewrite H, Hi. destruct auth; [contradiction | reflexivity].
  - intros headers pre marker secret Hget Hlen Hidx.
    rewrite (RedactionFacts.sanitize_cut headers pre marker secret Hget Hlen Hidx).
    destruct (Nat.leb_spec (String.length secret) 8) as [Hs|Hs].
    + eexists. split; [reflexivity|]. split; [lia|]. split; [reflexivity|].
      split.
      * intros E. left.
        assert (Hl := RedactionFacts.repeat_star_self _ _ (eq_sym E)).
        split; [lia|]. rewrite <- E at 1. f_equal. lia.
      * intros [[Hr E]|[Hr _]]; [|lia]. rewrite E at 2. f_equal. lia.
    + pose proof (JsFacts.substring_split secret 4 ltac:(lia)) as Hsplit.
      set (a := String.substring 0 4 secret) in *.
      set (rest := String.substring 4 (String.length secret - 4) secret) in *.
      assert (Ha : String.length a = 4%nat) by (apply JsFacts.length_substring; lia).
      assert (Hrest : String.length rest = (String.length secret - 4)%nat)
        by (apply JsFacts.length_substring; lia).
      pose proof (JsFacts.substring_split rest (String.length rest - 4) ltac:(lia)) as Hsplit2.
      set (mid := String.substring 0 (String.length rest - 4) rest) in *.
      set (b := String.substring (String.length rest - 4)
                  (String.length rest - (String.length rest - 4)) rest) in *.
      assert (Hmid : String.length mid = (String.length rest - 4)%nat)
        by (apply JsFacts.length_substring; lia).
      assert (Hb : String.length b = 4%nat)
        by (unfold b; rewrite JsFacts.length_substring; lia).
      assert (Hsecret : secret = a +:+ mid +:+ b) by (rewrite <- Hsplit2; exact Hsplit).
      assert (Hfirst : Js.slice secret 0 (Some 4) = a).
      { rewrite Hsecret at 1. now apply JsFacts.slice_first4. }
      assert (Hlast : Js.slice secret (-4) None = b).
      { rewrite Hsecret at 1. rewrite <- JsFacts.append_assoc.
        now apply JsFacts.slice_last4. }
      rewrite Hfirst, Hlast.
      exists (a +:+ "..." +:+ b). split; [reflexivity|].
      split; [intros _; exists a, mid, b; auto|]. split; [lia|].
      assert (Hsub : String.substring 4 3 secret = String.substring 0 3 (mid +:+ b)).
      { rewrite Hsecret at 1. rewrite <- Ha. apply JsFacts.substring_append_r. }
      split.
      * intros E. right. rewrite Hsecret in E.
        apply JsFacts.append_cancel_l, JsFacts.append_cancel_r in E.
        assert (Hm3 : String.length mid = 3%nat) by (rewrite <- E; reflexivity).
        split; [lia|]. rewrite Hsub, <- Hm3, JsFacts.substring_append_l.
        now symmetry.
      * intros [[Hr _]|[Hr E]]; [lia|].
        assert (Hm3 : String.length mid = 3%nat) by lia.
        rewrite Hsub in E. rewrite <- Hm3 in E.
        rewrite JsFacts.substring_append_l in E.
        transitivity (a +:+ mid +:+ b); [now rewrite E | now symmetry].
Qed.

Lemma sanitizeRequestHeaders_redacts_witness :
  let headers := Redaction.defaultHeaders "abcdefghijklmnop" in
  exists masked : string,
    Redaction.sanitizeRequestHeaders headers
    = <["Authorization" := ("Token " +:+ "token=") +:+ masked]> headers
    /\ ((8 < 16)%nat ->
        exists a mid b : string,
          "abcdefghijklmnop"%string = a +:+ mid +:+ b /\ String.length a = 4%nat
          /\ String.length b = 4%nat /\ masked = a +:+ "..." +:+ b)
    /\ ((16 <= 8)%nat -> masked = Js.repeat "*" (Nat.max 16 4))
    /\ (masked = "abcdefghijklmnop"%string <->
        ((4 <= 16 <= 8)%nat /\ "abcdefghijklmnop"%string = Js.repeat "*" 16)
        \/ (16%nat = 11%nat /\ String.substring 4 3 "abcdefghijklmnop" = "..."%string)).
Proof.
  exact (proj2 (proj2 sanitizeRequestHeaders_redacts)
           (Redaction.defaultHeaders "abcdefghijklmnop")
           "Token "%string "token="%string "abcdefghijklmnop"%string
           eq_refl eq_refl eq_refl).
Defined.

(** C8, as the claim states it, fails for a secret that already has the
    shape of its mask: the header is logged as it was sent. And an empty
    [Authorization] value, in which no marker is found, is left as it is
    and not replaced by [[REDACTED]]. *)
Lemma sanitizeRequestHeaders_masklike_secret :
  Redaction.defaultHeaders "abcd...efgh" !! "Authorization"
  = Some "Token token=abcd...efgh"%string
  /\ Redaction.sanitizeRequestHeaders (Redaction.defaultHeaders "abcd...efgh") !! "Authorization"
     = Some "Token token=abcd...efgh"%string
  /\ Redaction.sanitizeRequestHeaders (Redaction.defaultHeaders "*****") !! "Authorization"
     = Some "Token token=*****"%string
  /\ Js.indexOf (Js.toLowerCase EmptyString) "token=" = None
  /\ Redaction.sanitizeRequestHeaders (<["Authorization" := EmptyString]> ∅) !! "Authorization"
     = Some EmptyString.
Proof. repeat split; vm_compute; reflexivity. Qed.

(** * [getUserHolidays]: a "not found" failure becomes the empty list *)

(** C9. Whatever the classification of errors is: when the request fails and
    the message it is classified as contains "Resource not found",
    [getUserHolidays] returns the empty array; any other failure it throws
    again, unchanged; and a successful response it returns as it is. *)
Theorem getUserHolidays_not_found_is_empty
    {RawError UserHoliday : Type} (handleMocoApiError : RawError -> string) :
  (forall raw : RawError,
      Js.includes (handleMocoApiError raw) "Resource not found" = true ->
      Holidays.getUserHolidays (UserHoliday := UserHoliday) handleMocoApiError (Holidays.Failed raw)
      = inr [])
  /\ (forall raw : RawError,
         Js.includes (handleMocoApiError raw) "Resource not found" = false ->
         Holidays.getUserHolidays (UserHoliday := UserHoliday) handleMocoApiError (Holidays.Failed raw)
         = Holidays.makeRequest handleMocoApiError (Holidays.Failed raw)
         /\ Holidays.makeRequest (UserHoliday := UserHoliday) handleMocoApiError (Holidays.Failed raw)
            = inl (handleMocoApiError raw))
  /\ (forall value : list UserHoliday,
         Holidays.getUserHolidays handleMocoApiError (Holidays.Responded value) = inr value).
Proof.
  unfold Holidays.getUserHolidays, Holidays.makeRequest.
  split; [|split].
  - intros raw H. now rewrite H.
  - intros raw H. now rewrite H.
  - reflexivity.
Qed.

(** An HTTP status classified as the specification describes it, the year
    2024 asked for: a 404 gives the empty list, a 500 is thrown. *)
Lemma getUserHolidays_not_found_is_empty_witness :
  Holidays.getUserHolidays (UserHoliday := Z) Holidays.classifyStatus (Holidays.Failed 404)
  = inr []
  /\ Holidays.getUserHolidays (UserHoliday := Z) Holidays.classifyStatus (Holidays.Failed 500)
     = inl "Server error. Please try again later."%string.
Proof.
  pose proof (getUserHolidays_not_found_is_empty (UserHoliday := Z) Holidays.classifyStatus)
    as [H404 [Hother _]].
  split.
  - apply H404. reflexivity.
  - destruct (Hother 500 eq_refl) as [-> ->]. reflexivity.
Defined.

(** * Text search and the cache key of the user directory *)

Module DirectoryFacts.

Lemma includes_empty (s : string) : Js.includes s "" = true.
Proof. destruct s; reflexivity. Qed.

Lemma filter_all {A : Type} (f : A -> bool) (l : list A) :
  (forall x, f x = true) -> List.filter f l = l.
Proof.
  intros H. induction l as [|x l IH]; simpl; [reflexivity|].
  now rewrite H, IH.
Qed.

(** The empty query matches every project. *)
Lemma searchProjects_empty_query (allProjects : list Directory.Project) :
  Directory.searchProjects allProjects "" = allProjects.
Proof.
  unfold Directory.searchProjects. apply filter_all. intros p.
  unfold Directory.projectMatches. simpl Js.toLowerCase at 2.
  now rewrite includes_empty.
Qed.

(** A blank query short-circuits [searchUsers]. *)
Lemma searchUsers_blank_query (allUsers : list Directory.User) (query : string) :
  Directory.blank query = true -> Directory.searchUsers allUsers query = allUsers.
Proof.
  unfold Directory.blank, Directory.searchUsers. intros H.
  destruct (Js.trim query); [reflexivity | discriminate].
Qed.

Section Sorting.

Context (compare : string -> string -> Z).

Lemma insertSorted_Permutation (x : string) (l : list string) :
  Directory.insertSorted compare x l ≡ₚ x :: l.
Proof.
  induction l as [|y l IH]; simpl; [reflexivity|].
  destruct (compare x y <=? 0); [reflexivity|].
  rewrite IH. apply perm_swap.
Qed.

Lemma sort_Permutation (l : list string) : Directory.sort compare l ≡ₚ l.
Proof.
  induction l as [|x l IH]; simpl; [reflexivity|].
  now rewrite insertSorted_Permutation, IH.
Qed.

(** The tags that are sorted, and what is asked of [compare]: only how it
    orders these. *)
Context (tags : list string).

Hypothesis compare_orders : Directory.ordersTags compare tags.

Local Abbreviation among := (Directory.beforeAmong compare tags).

Lemma insertSorted_HdRel (a x : string) (l : list string) :
  among a x -> HdRel among a l -> HdRel among a (Directory.insertSorted compare x l).
Proof.
  intros Hax Hal. destruct l as [|y l]; simpl.
  - now constructor.
  - destruct (compare x y <=? 0); constructor; [exact Hax|].
    now inversion Hal.
Qed.

Lemma insertSorted_Sorted (x : string) (l : list string) :
  x ∈ tags -> Forall (fun y => y ∈ tags) l ->
  Sorted among l -> Sorted among (Directory.insertSorted compare x l).
Proof.
  intros Hx. induction l as [|y l IH]; simpl; intros Hin Hs.
  - repeat constructor.
  - inversion Hs as [|? ? Hl Hy]; subst.
    inversion Hin as [|? ? Hyin Hlin]; subst.
    destruct (Z.leb_spec (compare x y) 0) as [Hxy|Hxy].
    + constructor; [exact Hs|]. constructor. now repeat split.
    + constructor; [now apply IH|].
      apply insertSorted_HdRel; [|exact Hy].
      split; [exact Hyin|]. split; [exact Hx|].
      destruct (proj1 compare_orders x y Hx Hyin) as [H|H];
        [unfold Directory.before in H; lia | exact H].
Qed.

Lemma sort_Sorted (l : list string) :
  Forall (fun y => y ∈ tags) l -> Sorted among (Directory.sort compare l).
Proof.
  induction l as [|x l IH]; simpl; intros Hin; [constructor|].
  inversion Hin as [|? ? Hx Hl]; subst.
  apply insertSorted_Sorted; [exact Hx | | now apply IH].
  now rewrite sort_Permutation.
Qed.

(** Sorting forgets the order of its input. *)
Lemma sort_of_Permutation (l : list string) :
  tags ≡ₚ l -> Directory.sort compare tags = Directory.sort compare l.
Proof.
  intros Hp.
  assert (Htr : Transitive among).
  { intros a b c (Ha & Hb & Hab) (_ & Hc & Hbc). split; [exact Ha|]. split; [exact Hc|].
    exact (proj1 (proj2 compare_orders) a b c Ha Hb Hc Hab Hbc). }
  assert (Has : AntiSymm eq among).
  { intros a b (Ha & Hb & Hab) (_ & _ & Hba).
    exact (proj2 (proj2 compare_orders) a b Ha Hb Hab Hba). }
  apply (Sorted_unique among).
  - apply sort_Sorted. apply Forall_forall. auto.
  - apply sort_Sorted. apply Forall_forall. intros y Hy. now rewrite Hp.
  - now rewrite !sort_Permutation.
Qed.

End Sorting.

Lemma trimmedTags_blank (tags : list string) :
  forallb Directory.blank tags = true -> Directory.trimmedTags tags = [].
Proof.
  unfold Directory.trimmedTags. induction tags as [|t tags IH]; simpl; [reflexivity|].
  intros H. apply andb_prop in H as [Ht Hrest].
  unfold Directory.blank in Ht. destruct (Js.trim t); [|discriminate].
  simpl. now apply IH.
Qed.

(** Code-unit order is a total order. *)
Lemma codeUnitCompare_before (a b : string) :
  Directory.before Directory.codeUnitCompare a b <-> String.le a b.
Proof.
  unfold Directory.before, Directory.codeUnitCompare, String.le, String.leb.
  destruct (String.compare a b); simpl; split; intros H; try lia; try exact I;
    try contradiction.
Qed.

Lemma codeUnitCompare_total (a b : string) :
  Directory.before Directory.codeUnitCompare a b \/ Directory.before Directory.codeUnitCompare b a.
Proof. rewrite !codeUnitCompare_before. apply (total String.le). Qed.

Lemma codeUnitCompare_trans (a b c : string) :
  Directory.before Directory.codeUnitCompare a b -> Directory.before Directory.codeUnitCompare b c ->
  Directory.before Directory.codeUnitCompare a c.
Proof. rewrite !codeUnitCompare_before. apply (transitivity (R := String.le)). Qed.

Lemma codeUnitCompare_antisym (a b : string) :
  Directory.before Directory.codeUnitCompare a b -> Directory.before Directory.codeUnitCompare b a -> a = b.
Proof. rewrite !codeUnitCompare_before. apply (anti_symm String.le). Qed.

Lemma codeUnitCompare_orders (l : list string) :
  Directory.ordersTags Directory.codeUnitCompare l.
Proof.
  split; [|split].
  - intros a b _ _. apply codeUnitCompare_total.
  - intros a b c _ _ _. apply codeUnitCompare_trans.
  - intros a b _ _. apply codeUnitCompare_antisym.
Qed.

End DirectoryFacts.

(** C7 at a query of three spaces. The query is blank; [searchUsers]
    returns every user, as the claim says; [searchProjects] does not trim the
    query and returns only the projects whose name or description contains
    the three spaces, here none, where the claim says every project. The
    empty query does give every project. *)
Theorem searchProjects_whitespace_query :
  let alpha := {| Directory.projectName := "Alpha";
                  Directory.projectDescription := Some "First project"%string |} in
  let ada := {| Directory.firstname := Some "Ada"%string;
                Directory.lastname := Some "Lovelace"%string;
                Directory.email := None; Directory.info := None;
                Directory.tags := None; Directory.unit := None;
                Directory.role := None; Directory.mobile_phone := None;
                Directory.work_phone := None |} in
  Directory.blank "   " = true
  /\ Directory.searchUsers [ada] "   " = [ada]
  /\ Directory.searchProjects [alpha] "" = [alpha]
  /\ Directory.searchProjects [alpha] "   " = [].
Proof. vm_compute. repeat split; reflexivity. Qed.

(** * Numbers *)

Module NumberFacts.

Lemma nearestEven_bounds (num den : Z) :
  0 < den ->
  num / den <= JsNum.nearestEven num den <= num / den + 1.
Proof.
  intros Hden. unfold JsNum.nearestEven.
  destruct (2 * (num mod den) <? den); [lia|].
  destruct (den <? 2 * (num mod den)); [lia|].
  destruct (Z.even (num / den)); lia.
Qed.

Lemma nearestEven_exact (num den : Z) :
  0 < den -> num mod den = 0 -> JsNum.nearestEven num den = num / den.
Proof.
  intros Hden Hr. unfold JsNum.nearestEven. rewrite Hr.
  destruct (Z.ltb_spec (2 * 0) den); [reflexivity | lia].
Qed.

Lemma nearestEven_up (num den : Z) :
  den < 2 * (num mod den) -> JsNum.nearestEven num den = num / den + 1.
Proof.
  intros H. unfold JsNum.nearestEven.
  destruct (Z.ltb_spec (2 * (num mod den)) den); [lia|].
  destruct (Z.ltb_spec den (2 * (num mod den))); [reflexivity | lia].
Qed.

Lemma pow2_53 : 2 ^ 53 = JsNum.MAX_SAFE_INTEGER + 1.
Proof. reflexivity. Qed.

(** Up to [MAX_SAFE_INTEGER] every integer is a double. *)
Lemma nearestDouble_safe (n : Z) :
  0 <= n <= JsNum.MAX_SAFE_INTEGER -> JsNum.nearestDouble n = Some n.
Proof.
  intros [Hn Hmax]. unfold JsNum.nearestDouble.
  assert (Hlog : Z.log2 n - 52 <= 0).
  { destruct (Z.eq_dec n 0) as [->|Hne]; [simpl; lia|].
    assert (Z.log2 n < 53); [|lia].
    apply Z.log2_lt_pow2; [lia|]. rewrite pow2_53. lia. }
  destruct (Z.leb_spec (Z.log2 n - 52) 0); [|lia].
  assert (Hbig : n < 2 ^ 1024).
  { apply Z.le_lt_trans with JsNum.MAX_SAFE_INTEGER; [exact Hmax|]. reflexivity. }
  destruct (Z.ltb_spec n (2 ^ 1024)); [reflexivity | lia].
Qed.

(** The double nearest to a positive integer is positive. *)
Lemma nearestDouble_positive (n v : Z) :
  0 < n -> JsNum.nearestDouble n = Some v -> 0 < v.
Proof.
  intros Hn. unfold JsNum.nearestDouble.
  set (e := Z.log2 n - 52).
  destruct (Z.leb_spec e 0) as [He|He].
  - destruct (n <? 2 ^ 1024); [|discriminate]. intros [= <-]. exact Hn.
  - assert (Hpow : 0 < 2 ^ e) by (apply Z.pow_pos_nonneg; lia).
    assert (Hle : 2 ^ e <= n).
    { apply Z.le_trans with (2 ^ Z.log2 n).
      - apply Z.pow_le_mono_r; lia.
      - apply Z.log2_spec. exact Hn. }
    assert (Hq : 1 <= n / 2 ^ e) by (apply Z.div_le_lower_bound; lia).
    pose proof (nearestEven_bounds n (2 ^ e) Hpow) as Hb.
    destruct (_ <? 2 ^ 1024); [|discriminate]. intros [= <-]. nia.
Qed.

(** From [2 ^ 1024] on the nearest double is [Infinity]. *)
Lemma nearestDouble_infinite (n : Z) :
  2 ^ 1024 <= n -> JsNum.nearestDouble n = None.
Proof.
  intros Hn. unfold JsNum.nearestDouble.
  assert (Hpos : 0 < n) by (apply Z.lt_le_trans with (2 ^ 1024); [reflexivity | exact Hn]).
  assert (Hlog : 1024 <= Z.log2 n) by (apply Z.log2_le_pow2; [exact Hpos | exact Hn]).
  set (e := Z.log2 n - 52).
  destruct (Z.leb_spec e 0) as [He|He]; [lia|].
  assert (Hpow : 0 < 2 ^ e) by (apply Z.pow_pos_nonneg; lia).
  assert (Hsplit : 2 ^ Z.log2 n = 2 ^ 52 * 2 ^ e).
  { rewrite <- Z.pow_add_r by lia. f_equal. lia. }
  assert (Hq : 2 ^ 52 <= n / 2 ^ e).
  { apply Z.div_le_lower_bound; [exact Hpow|].
    rewrite Z.mul_comm, <- Hsplit. apply Z.log2_spec. exact Hpos. }
  pose proof (nearestEven_bounds n (2 ^ e) Hpow) as Hb.
  assert (Hv : 2 ^ 1024 <= JsNum.nearestEven n (2 ^ e) * 2 ^ e).
  { apply Z.le_trans with (2 ^ Z.log2 n); [apply Z.pow_le_mono_r; lia|].
    rewrite Hsplit. apply Z.mul_le_mono_nonneg_r; lia. }
  destruct (Z.ltb_spec (JsNum.nearestEven n (2 ^ e) * 2 ^ e) (2 ^ 1024));
    [lia | reflexivity].
Qed.

(** The ceiling of a quotient, from the quotient and the remainder. *)
Lemma ceiling_cases (x y : Z) :
  0 < y ->
  Pagination.ceiling x y = if x mod y =? 0 then x / y else x / y + 1.
Proof.
  intros Hy. unfold Pagination.ceiling.
  pose proof (Z.div_mod x y ltac:(lia)) as Hdm.
  pose proof (Z.mod_pos_bound x y Hy) as Hb.
  destruct (Z.eqb_spec (x mod y) 0) as [E|E].
  - assert (H : - (x / y) = (- x) / y); [|lia].
    apply (Z.div_unique (- x) y (- (x / y)) 0); lia.
  - assert (H : - (x / y + 1) = (- x) / y); [|lia].
    apply (Z.div_unique (- x) y (- (x / y + 1)) (y - x mod y)); lia.
Qed.

Lemma ceiling_le (t pp : Z) :
  0 <= t -> 0 < pp -> 0 <= Pagination.ceiling t pp <= t.
Proof.
  intros Ht Hpp. rewrite ceiling_cases by exact Hpp.
  pose proof (Z.div_mod t pp ltac:(lia)) as Hdm.
  pose proof (Z.mod_pos_bound t pp Hpp) as Hb.
  assert (Hq : 0 <= t / pp) by (apply Z.div_pos; lia).
  destruct (Z.eqb_spec (t mod pp) 0); nia.
Qed.

(** Up to [MAX_SAFE_INTEGER] the ceiling of the rounded quotient is the
    ceiling of the quotient. *)
Lemma ceilQuotient_exact (x y : Z) :
  0 < x <= JsNum.MAX_SAFE_INTEGER -> 0 < y <= JsNum.MAX_SAFE_INTEGER ->
  JsNum.ceilQuotient x y = Some (Pagination.ceiling x y).
Proof.
  intros [Hx Hxmax] [Hy Hymax]. unfold JsNum.ceilQuotient.
  rewrite ceiling_cases by exact Hy.
  pose proof (Z.div_mod x y ltac:(lia)) as Hdm.
  pose proof (Z.mod_pos_bound x y Hy) as Hb.
  destruct (Z.ltb_spec x y) as [Hlt|Hge].
  { rewrite Z.div_small, Z.mod_small by lia.
    destruct (Z.eqb_spec x 0); [lia | reflexivity]. }
  set (Q := x / y) in *. set (R := x mod y) in *.
  assert (HQ1 : 1 <= Q) by (apply Z.div_le_lower_bound; lia).
  assert (HQx : Q <= x) by (apply Z.div_le_upper_bound; nia).
  unfold JsNum.quotient. fold Q.
  set (k := Z.log2 Q).
  assert (Hk0 : 0 <= k) by apply Z.log2_nonneg.
  assert (Hk : k < 53).
  { apply Z.log2_lt_pow2; [lia|]. rewrite pow2_53. lia. }
  destruct (Z.log2_spec Q ltac:(lia)) as [Hlow _]. fold k in Hlow.
  assert (Hpk : 0 < 2 ^ k) by (apply Z.pow_pos_nonneg; lia).
  destruct (Z.leb_spec 0 (k - 52)) as [He|He].
  - cbv beta iota. destruct (Z.leb_spec 0 (k - 52)); [|lia].
    assert (k = 52) as Ek by lia. rewrite Ek in *.
    assert (H53 : 2 ^ 53 = 2 * 2 ^ 52) by reflexivity.
    assert (y = 1) as -> by (rewrite pow2_53 in H53; nia).
    change (52 - 52) with 0. change (2 ^ 0) with 1.
    rewrite Z.mul_1_r, Z.mul_1_l.
    assert (Hne : JsNum.nearestEven x 1 = x).
    { rewrite nearestEven_exact by (try lia; apply Z.mod_1_r). apply Z.div_1_r. }
    rewrite Hne, nearestDouble_safe by lia.
    unfold Q, R. rewrite Z.div_1_r, Z.mod_1_r. reflexivity.
  - cbv beta iota. destruct (Z.leb_spec 0 (k - 52)); [lia|].
    set (s := 2 ^ (- (k - 52))).
    assert (Hs : 0 < s) by (apply Z.pow_pos_nonneg; lia).
    assert (Hks : 2 ^ k * (2 * s) = JsNum.MAX_SAFE_INTEGER + 1).
    { rewrite <- pow2_53. unfold s.
      replace 53 with (k + (1 + - (k - 52))) by lia.
      rewrite Z.pow_add_r, (Z.pow_add_r 2 1) by lia. reflexivity. }
    assert (Hys : y < 2 * s) by nia.
    set (m := JsNum.nearestEven (x * s) y).
    pose proof (nearestEven_bounds (x * s) y Hy) as Hm. fold m in Hm.
    pose proof (Z.div_mod (x * s) y ltac:(lia)) as Hdm'.
    pose proof (Z.mod_pos_bound (x * s) y Hy) as Hb'.
    f_equal.
    destruct (Z.eqb_spec R 0) as [ER|ER].
    + assert (Hxs : x * s = Q * s * y) by (rewrite Hdm, ER; ring).
      assert (Em : m = Q * s).
      { unfold m. rewrite nearestEven_exact; [|exact Hy|].
        - rewrite Hxs. apply Z.div_mul. lia.
        - rewrite Hxs. apply Z.mod_mul. lia. }
      rewrite Em. replace (- (Q * s)) with (- Q * s) by ring.
      rewrite Z.div_mul by lia. lia.
    + assert (Hupper : (x * s) / y < (Q + 1) * s).
      { apply Z.div_lt_upper_bound; [exact Hy|]. nia. }
      assert (Hlower : Q * s <= (x * s) / y).
      { apply Z.div_le_lower_bound; [exact Hy|]. nia. }
      assert (Hmlow : Q * s + 1 <= m).
      { destruct (Z.eq_dec ((x * s) / y) (Q * s)) as [E|E]; [|lia].
        assert (Er : (x * s) mod y = R * s) by nia.
        unfold m. rewrite nearestEven_up; [lia|]. rewrite Er. nia. }
      assert (Hdiv : - (Q + 1) = (- m) / s); [|lia].
      apply (Z.div_unique (- m) s (- (Q + 1)) ((Q + 1) * s - m)); lia.
Qed.

(** Up to [MAX_SAFE_INTEGER], [Math.ceil(totalItems / itemsPerPage)] is the
    ceiling of the quotient. *)
Lemma ceilDiv_exact (t pp : Z) :
  0 <= t <= JsNum.MAX_SAFE_INTEGER -> 0 < pp <= JsNum.MAX_SAFE_INTEGER ->
  JsNum.ceilDiv (JsNum.Int t) (JsNum.Int pp) = JsNum.Int (Pagination.ceiling t pp).
Proof.
  intros Ht Hpp. unfold JsNum.ceilDiv. cbn [JsNum.finite JsNum.isNegative].
  destruct (Z.ltb_spec t 0); [lia|]. destruct (Z.ltb_spec pp 0); [lia|].
  destruct (Z.eqb_spec pp 0); [lia|]. cbn [xorb].
  destruct (Z.eqb_spec t 0) as [->|Hne].
  - unfold Pagination.ceiling. rewrite Z.div_0_l by lia. reflexivity.
  - rewrite !Z.abs_eq by lia. rewrite ceilQuotient_exact by lia.
    pose proof (ceiling_cases t pp ltac:(lia)) as Hc.
    assert (Hq : 0 <= t / pp) by (apply Z.div_pos; lia).
    pose proof (Z.div_mod t pp ltac:(lia)) as Hdm.
    pose proof (Z.mod_pos_bound t pp ltac:(lia)) as Hb.
    cbn [JsNum.number].
    destruct (Z.eqb_spec (Pagination.ceiling t pp) 0) as [E|E]; [|reflexivity].
    exfalso. destruct (Z.eqb_spec (t mod pp) 0); nia.
Qed.

(** The Numbers [parseInt] gives. *)
Lemma parseInt_range (s : string) :
  JsNum.parseInt s = JsNum.NaN \/ JsNum.parseInt s = JsNum.NegZero
  \/ JsNum.parseInt s = JsNum.PosInf \/ JsNum.parseInt s = JsNum.NegInf
  \/ exists z : Z, JsNum.parseInt s = JsNum.Int z.
Proof.
  unfold JsNum.parseInt.
  destruct (match Js.trimStart s with
            | String "-"%char r => (true, r)
            | String "+"%char r => (false, r)
            | _ => (false, Js.trimStart s)
            end) as [negative body].
  destruct (JsNum.startsWithDigit body); [|now left].
  destruct (JsNum.nearestDouble (JsNum.parseDigits 0 body)) as [v|];
    cbn [JsNum.number].
  - destruct (v =? 0).
    + destruct negative; cbn; eauto 6.
    + eauto 6.
  - destruct negative; cbn; eauto 6.
Qed.

End NumberFacts.

Example nearestDouble_examples :
  JsNum.nearestDouble 9007199254740993 = Some 9007199254740992
  /\ JsNum.nearestDouble 9007199254740995 = Some 9007199254740996
  /\ JsNum.nearestDouble 3458764513820541228 = Some 3458764513820541440
  /\ JsNum.nearestDouble 1152921504606847076 = Some 1152921504606846976
  /\ JsNum.nearestDouble (2 ^ 1024 - 2 ^ 970 - 1) = Some (2 ^ 1024 - 2 ^ 971)
  /\ JsNum.nearestDouble (2 ^ 1024 - 2 ^ 970) = None.
Proof. repeat split; vm_compute; reflexivity. Qed.

(** The rounding of [parseInt] and of the quotient agree with the binary64
    operations of the Standard Library's [SpecFloat]. *)
Example ceilDiv_agrees_with_binary64 :
  Forall
    (fun n : Z =>
       Binary64.ceil (Binary64.ofInteger n) = JsNum.number false (JsNum.nearestDouble n))
    [0; 1; 2 ^ 53 - 1; 2 ^ 53; 2 ^ 53 + 1; 2 ^ 53 + 3; 2 ^ 54 + 2; 2 ^ 54 + 6;
     3458764513820541228; 1152921504606847076; 10 ^ 22; 10 ^ 23; 10 ^ 308;
     2 ^ 1024 - 2 ^ 970 - 1; 2 ^ 1024 - 2 ^ 970; 10 ^ 309]
  /\ Forall
       (fun '(x, y) =>
          Binary64.ceil (Binary64.divide (Binary64.ofInteger x) (Binary64.ofInteger y))
          = JsNum.ceilDiv (JsNum.Int x) (JsNum.Int y))
       [(6, 2); (7, 2); (1, 3); (0, 5); (5, 0); (0, 0); (-7, 2); (-1, 3); (7, -2);
        (2 ^ 53 - 1, 2); (2 ^ 53 - 1, 2 ^ 53 - 2); (2 ^ 53 - 1, 3); (2 ^ 53 - 2, 2 ^ 53 - 1);
        (2 ^ 53, 3); (3 * 2 ^ 60, 2 ^ 60); (3458764513820541440, 1152921504606846976);
        (2 ^ 1023, 1); (2 ^ 1023, 3); (1, 2 ^ 1023); (2 ^ 100 + 2 ^ 48, 2 ^ 47)].
Proof. split; repeat constructor. Qed.

(** * Pagination *)

Module PaginationFacts.

Import Pagination.

(** [ceiling] is the ceiling of the quotient. *)
Lemma ceiling_spec (t pp : Z) :
  0 < pp -> pp * (ceiling t pp - 1) < t <= pp * ceiling t pp.
Proof.
  intros Hpp. unfold ceiling.
  pose proof (Z.div_mod (- t) pp ltac:(lia)) as Hdm.
  pose proof (Z.mod_pos_bound (- t) pp Hpp) as Hb.
  nia.
Qed.

(** Below 2^53 the counter is the number of the request. *)
Lemma counterAt_below (p c : Z) :
  c <= JsNum.MAX_SAFE_INTEGER -> (counterAt p <? c) = (p <? c).
Proof.
  intros Hc. unfold counterAt. rewrite NumberFacts.pow2_53.
  destruct (Z.ltb_spec p c), (Z.ltb_spec (Z.min p (JsNum.MAX_SAFE_INTEGER + 1)) c);
    try reflexivity; lia.
Qed.

(** With the three headers set and read as integers up to
    [MAX_SAFE_INTEGER], the loop goes on exactly while the page is below the
    ceiling of the quotient. *)
Lemma hasMorePages_declared {T} (r : PageResponse T) (p t pp : Z) :
  declared r = Some (t, pp) ->
  0 <= t <= JsNum.MAX_SAFE_INTEGER -> 0 < pp <= JsNum.MAX_SAFE_INTEGER ->
  hasMorePages p r = (p <? ceiling t pp).
Proof.
  unfold declared, hasMorePages, totalPages. intros H Ht Hpp.
  destruct (headerSet (xPage r) && headerSet (xTotal r) && headerSet (xPerPage r));
    [|discriminate].
  destruct (JsNum.parseInt (default EmptyString (xTotal r))) as [| | | |t'];
    try discriminate.
  destruct (JsNum.parseInt (default EmptyString (xPerPage r))) as [| | | |pp'];
    try discriminate.
  injection H as -> ->. rewrite NumberFacts.ceilDiv_exact by assumption.
  cbn [JsNum.lessThan]. apply counterAt_below.
  pose proof (NumberFacts.ceiling_le t pp ltac:(lia) ltac:(lia)). lia.
Qed.

Lemma hasMorePages_declaresPages {T} (r : PageResponse T) (p n : Z) :
  declaresPages r n -> hasMorePages p r = (p <? n).
Proof.
  intros (t & pp & D & Hpp & Ht & <-). now apply hasMorePages_declared.
Qed.

(** A header that is not there ends the loop. *)
Lemma hasMorePages_absent {T} (r : PageResponse T) (p : Z) :
  xPage r = None \/ xTotal r = None \/ xPerPage r = None ->
  hasMorePages p r = false.
Proof.
  unfold hasMorePages. intros [H|[H|H]]; rewrite H; simpl;
    rewrite ?andb_false_r; reflexivity.
Qed.

(** A run that returns asked for consecutive pages and returns their items
    in that order. *)
Lemma fetchLoop_Done {T} (request : Z -> string + PageResponse T) (fuel : nat) :
  forall (items : list T) (page : Z) (reqs : list Z) (items' : list T) (reqs' : list Z),
    fetchLoop fuel request items page reqs = Done items' reqs' ->
    exists n : nat,
      reqs' = reqs ++ pagesFrom page (S n)
      /\ items' = items ++ concat (itemsOf request <$> pagesFrom page (S n)).
Proof.
  induction fuel as [|fuel IH]; intros items page reqs items' reqs' H; simpl in H;
    [discriminate|].
  destruct (request page) as [msg|r] eqn:Hreq; [discriminate|].
  destruct (hasMorePages page r).
  - destruct (IH _ _ _ _ _ H) as [n [Hr Hi]]. exists (S n). split.
    + rewrite Hr, <- app_assoc. reflexivity.
    + rewrite Hi, <- app_assoc. f_equal.
      change (pagesFrom page (S (S n))) with (page :: pagesFrom (page + 1) (S n)).
      rewrite fmap_cons.
      assert (Hitems : itemsOf request page = data r)
        by (unfold itemsOf; now rewrite Hreq).
      now rewrite Hitems.
  - injection H as <- <-. exists 0%nat. split; [reflexivity|].
    simpl. unfold itemsOf. rewrite Hreq. now rewrite app_nil_r.
Qed.

(** More fuel does not change a run that ended by itself. *)
Lemma fetchLoop_more_fuel {T} (request : Z -> string + PageResponse T) (fuel : nat) :
  forall (fuel' : nat) (items : list T) (page : Z) (reqs : list Z),
    finished (fetchLoop fuel request items page reqs) = true ->
    (fuel <= fuel')%nat ->
    fetchLoop fuel' request items page reqs = fetchLoop fuel request items page reqs.
Proof.
  induction fuel as [|fuel IH]; intros fuel' items page reqs Hf Hle; simpl in Hf;
    [discriminate|].
  destruct fuel' as [|fuel']; [lia|]. simpl.
  destruct (request page) as [msg|r]; [reflexivity|].
  destruct (hasMorePages page r); [|reflexivity].
  apply IH; [exact Hf | lia].
Qed.

(** If no page from [limit] on asks for more, the loop started at [page]
    ends within [limit - page + 1] requests, and within one when [page] is
    already past the limit. *)
Lemma fetchLoop_bounded {T} (request : Z -> string + PageResponse T) (limit : Z) :
  (forall (p : Z) (r : PageResponse T),
      request p = inr r -> hasMorePages p r = true -> p < limit) ->
  forall (fuel : nat) (items : list T) (page : Z) (reqs : list Z),
    (Z.to_nat (Z.max 1 (limit - page + 1)) <= fuel)%nat ->
    finished (fetchLoop fuel request items page reqs) = true
    /\ (length (requestsOf (fetchLoop fuel request items page reqs))
        <= length reqs + Z.to_nat (Z.max 1 (limit - page + 1)))%nat.
Proof.
  intros Hlim. induction fuel as [|fuel IH]; intros items page reqs Hfuel; [lia|].
  simpl. destruct (request page) as [msg|r] eqn:Hreq.
  - simpl. rewrite length_app. simpl. split; [reflexivity | lia].
  - destruct (hasMorePages page r) eqn:Hmore.
    + pose proof (Hlim page r Hreq Hmore) as Hlt.
      destruct (IH (items ++ data r) (page + 1) (reqs ++ [page]) ltac:(lia)) as [Hfin Hlen].
      split; [exact Hfin|]. rewrite length_app in Hlen. simpl in Hlen. lia.
    + simpl. rewrite length_app. simpl. split; [reflexivity | lia].
Qed.

(** While the pages ask for more, the loop asks on. *)
Lemma fetchLoop_prefix {T} (request : Z -> string + PageResponse T) (n : nat) :
  forall (fuel : nat) (items : list T) (page : Z) (reqs : list Z),
    (forall i : nat, (i < n)%nat ->
       exists r : PageResponse T,
         request (page + Z.of_nat i) = inr r
         /\ hasMorePages (page + Z.of_nat i) r = true) ->
    fetchLoop (n + fuel) request items page reqs
    = fetchLoop fuel request (items ++ concat (itemsOf request <$> pagesFrom page n))
        (page + Z.of_nat n) (reqs ++ pagesFrom page n).
Proof.
  induction n as [|n IH]; intros fuel items page reqs H.
  - simpl. now rewrite Z.add_0_r, !app_nil_r.
  - destruct (H 0%nat ltac:(lia)) as [r [Hreq Hmore]].
    rewrite Z.add_0_r in Hreq, Hmore.
    cbn [Nat.add fetchLoop]. rewrite Hreq, Hmore.
    rewrite IH.
    + cbn [pagesFrom]. rewrite fmap_cons. cbn [concat].
      assert (Hitems : itemsOf request page = data r)
        by (unfold itemsOf; now rewrite Hreq).
      rewrite Hitems, <- !app_assoc. f_equal. lia.
    + intros i Hi. destruct (H (S i) ltac:(lia)) as [r' [Hr' Hm']].
      exists r'. replace (page + 1 + Z.of_nat i) with (page + Z.of_nat (S i)) by lia.
      auto.
Qed.

Lemma pagesFrom_snoc (n : nat) :
  forall page : Z, pagesFrom page n ++ [page + Z.of_nat n] = pagesFrom page (S n).
Proof.
  induction n as [|n IH]; intros page.
  - simpl. now rewrite Z.add_0_r.
  - cbn [pagesFrom app]. f_equal.
    replace (page + Z.of_nat (S n)) with (page + 1 + Z.of_nat n) by lia.
    rewrite IH. reflexivity.
Qed.

(** The loop returns after the first response that does not ask for more,
    with the items of the pages up to that one. *)
Lemma fetchLoop_returns {T} (request : Z -> string + PageResponse T) (n : nat) :
  forall (fuel : nat) (page : Z),
    (forall i : nat, (i < n)%nat ->
       exists r : PageResponse T,
         request (page + Z.of_nat i) = inr r
         /\ hasMorePages (page + Z.of_nat i) r = true) ->
    (exists r : PageResponse T,
        request (page + Z.of_nat n) = inr r
        /\ hasMorePages (page + Z.of_nat n) r = false) ->
    (n < fuel)%nat ->
    fetchLoop fuel request [] page []
    = Done (concat (itemsOf request <$> pagesFrom page (S n))) (pagesFrom page (S n)).
Proof.
  intros fuel page Hmore (r & Hreq & Hstop) Hfuel.
  replace fuel with (n + S (fuel - S n))%nat by lia.
  rewrite fetchLoop_prefix by exact Hmore.
  cbn [fetchLoop]. rewrite Hreq, Hstop, !app_nil_l.
  rewrite <- pagesFrom_snoc, fmap_app, concat_app. cbn [fmap list_fmap concat].
  unfold itemsOf at 3. rewrite Hreq, app_nil_r. reflexivity.
Qed.

(** While the responses declare [last] pages, the loop started at [page]
    asks for the pages up to [last], and returns after the last of them. *)
Lemma fetchLoop_declared {T} (request : Z -> string + PageResponse T) (last : Z) :
  (forall p : Z, 1 <= p <= last -> exists r, request p = inr r /\ declaresPages r last) ->
  forall (n fuel : nat) (items : list T) (page : Z) (reqs : list Z),
    1 <= page -> page + Z.of_nat n = last ->
    (S n <= fuel)%nat ->
    fetchLoop fuel request items page reqs
    = Done (items ++ concat (itemsOf request <$> pagesFrom page (S n)))
        (reqs ++ pagesFrom page (S n)).
Proof.
  intros Hall. induction n as [|n IH]; intros fuel items page reqs Hpage Hlast Hfuel;
    (destruct fuel as [|fuel]; [lia|]);
    destruct (Hall page ltac:(lia)) as (r & Hreq & D);
    assert (Hitems : itemsOf request page = data r)
      by (unfold itemsOf; now rewrite Hreq);
    cbn [fetchLoop]; rewrite Hreq, (hasMorePages_declaresPages r page last D).
  - destruct (Z.ltb_spec page last); [lia|].
    cbn [pagesFrom fmap list_fmap concat]. change (list_fmap _ _ (itemsOf request)) with
      (fmap (M := list) (itemsOf request)).
    rewrite Hitems, app_nil_r. reflexivity.
  - destruct (Z.ltb_spec page last); [|lia].
    rewrite (IH fuel _ (page + 1) _ ltac:(lia) ltac:(lia) ltac:(lia)).
    change (pagesFrom page (S (S n))) with (page :: pagesFrom (page + 1) (S n)).
    rewrite fmap_cons. cbn [concat]. rewrite Hitems, <- !app_assoc. reflexivity.
Qed.

Lemma digit_cases (d : Z) :
  0 <= d < 10 ->
  d = 0 \/ d = 1 \/ d = 2 \/ d = 3 \/ d = 4 \/ d = 5 \/ d = 6 \/ d = 7 \/ d = 8 \/ d = 9.
Proof. lia. Qed.

Lemma digitOf_digitChar (d : Z) : 0 <= d < 10 -> JsNum.digitOf (digitChar d) = Some d.
Proof.
  intros H. destruct (digit_cases d H) as [->|[->|[->|[->|[->|[->|[->|[->|[->| ->]]]]]]]]];
    reflexivity.
Qed.

Lemma isWhiteSpace_digitChar (d : Z) : Js.isWhiteSpace (digitChar d) = false.
Proof.
  destruct (Z_lt_le_dec d 0) as [Hn|Hp]; [destruct d; try lia; reflexivity|].
  destruct (Z_lt_le_dec d 10) as [Hd|Hd].
  - destruct (digit_cases d ltac:(lia)) as [->|[->|[->|[->|[->|[->|[->|[->|[->| ->]]]]]]]]];
      reflexivity.
  - destruct d as [|q|q]; try lia.
    do 4 (destruct q as [q|q|]; try reflexivity).
Qed.

Lemma sign_digitChar (d : Z) :
  digitChar d <> "-"%char /\ digitChar d <> "+"%char.
Proof.
  destruct (Z_lt_le_dec d 0) as [Hn|Hp]; [destruct d; try lia; split; discriminate|].
  destruct (Z_lt_le_dec d 10) as [Hd|Hd].
  - destruct (digit_cases d ltac:(lia)) as [->|[->|[->|[->|[->|[->|[->|[->|[->| ->]]]]]]]]];
      split; discriminate.
  - destruct d as [|q|q]; try lia.
    do 4 (destruct q as [q|q|]; try (split; discriminate)).
Qed.

(** Reading back the digits that [decimalFrom] put in front of [acc]. *)
Lemma parseDigits_decimalFrom (fuel : nat) :
  forall (n a : Z) (acc : string),
    0 <= n < 10 ^ Z.of_nat fuel ->
    exists k : Z,
      0 <= k
      /\ JsNum.parseDigits a (decimalFrom fuel n acc) = JsNum.parseDigits (a * 10 ^ k + n) acc.
Proof.
  induction fuel as [|fuel IH]; intros n a acc Hn.
  - exists 0. split; [lia|]. simpl in *. f_equal. lia.
  - cbn [decimalFrom]. rewrite Nat2Z.inj_succ, Z.pow_succ_r in Hn by lia.
    pose proof (Z.mod_pos_bound n 10 ltac:(lia)) as Hmod.
    pose proof (Z.div_mod n 10 ltac:(lia)) as Hdm.
    destruct (Z.ltb_spec n 10) as [Hlt|Hge].
    + exists 1. split; [lia|]. cbn [JsNum.parseDigits].
      rewrite digitOf_digitChar by lia. f_equal.
      rewrite Z.mod_small by lia. lia.
    + destruct (IH (n / 10) a (String (digitChar (n mod 10)) acc)) as [k [Hk E]].
      { split; [apply Z.div_pos; lia|]. apply Z.div_lt_upper_bound; lia. }
      exists (k + 1). split; [lia|]. rewrite E. cbn [JsNum.parseDigits].
      rewrite digitOf_digitChar by lia. f_equal.
      rewrite Z.pow_add_r by lia. lia.
Qed.

(** A numeral starts with a digit. *)
Lemma decimalFrom_head (fuel : nat) :
  forall (n : Z) (acc : string),
    exists (d : Z) (rest : string), decimalFrom (S fuel) n acc = String (digitChar d) rest.
Proof.
  induction fuel as [|fuel IH]; intros n acc.
  - cbn [decimalFrom]. destruct (n <? 10); eauto.
  - change (decimalFrom (S (S fuel)) n acc)
      with (if n <? 10 then String (digitChar (n mod 10)) acc
            else decimalFrom (S fuel) (n / 10) (String (digitChar (n mod 10)) acc)).
    destruct (n <? 10); eauto.
Qed.

(** The digits of a numeral are those of its number. *)
Lemma parseDigits_decimal (n : Z) : 0 <= n -> JsNum.parseDigits 0 (decimal n) = n.
Proof.
  intros Hn. unfold decimal.
  destruct (parseDigits_decimalFrom (S (Z.to_nat n)) n 0 EmptyString) as [k [Hk E]].
  { split; [lia|]. rewrite Nat2Z.inj_succ, Z2Nat.id by lia.
    apply Z.lt_le_trans with (10 ^ n);
      [apply Z.pow_gt_lin_r; lia | apply Z.pow_le_mono_r; lia]. }
  rewrite E. simpl JsNum.parseDigits. lia.
Qed.

(** [parseInt] reads a numeral as the double nearest to its number. *)
Lemma parseInt_decimal_rounded (n : Z) :
  0 <= n ->
  JsNum.parseInt (decimal n) = JsNum.number false (JsNum.nearestDouble n).
Proof.
  intros Hn. pose proof (parseDigits_decimal n Hn) as E. unfold decimal in *.
  destruct (decimalFrom_head (Z.to_nat n) n EmptyString) as [d [rest Hhead]].
  unfold JsNum.parseInt. rewrite Hhead in *.
  cbn [Js.trimStart]. rewrite isWhiteSpace_digitChar.
  destruct (sign_digitChar d) as [Hminus Hplus].
  assert (Hbody :
    match String (digitChar d) rest with
    | String "-"%char r => (true, r)
    | String "+"%char r => (false, r)
    | _ => (false, String (digitChar d) rest)
    end = (false, String (digitChar d) rest)).
  { destruct (digitChar d) as [[] [] [] [] [] [] [] []]; try reflexivity; congruence. }
  rewrite Hbody.
  assert (Hstart : JsNum.startsWithDigit (String (digitChar d) rest) = true).
  { unfold JsNum.startsWithDigit.
    destruct (Z_lt_le_dec d 0) as [Hd|Hd]; [destruct d; try lia; reflexivity|].
    destruct (Z_lt_le_dec d 10) as [Hd'|Hd'].
    - now rewrite digitOf_digitChar by lia.
    - destruct d as [|q|q]; try lia.
      do 4 (destruct q as [q|q|]; try reflexivity). }
  rewrite Hstart, E. reflexivity.
Qed.

(** Up to [MAX_SAFE_INTEGER], [parseInt] reads a numeral as its number. *)
Lemma parseInt_decimal (n : Z) :
  0 <= n <= JsNum.MAX_SAFE_INTEGER -> JsNum.parseInt (decimal n) = JsNum.Int n.
Proof.
  intros Hn. rewrite parseInt_decimal_rounded, NumberFacts.nearestDouble_safe by lia.
  cbn [JsNum.number]. destruct (Z.eqb_spec n 0) as [->|]; reflexivity.
Qed.

(** From [2 ^ 1024] on, [parseInt] reads a numeral as [Infinity]. *)
Lemma parseInt_decimal_infinite (n : Z) :
  2 ^ 1024 <= n -> JsNum.parseInt (decimal n) = JsNum.PosInf.
Proof.
  intros Hn.
  assert (H0 : 0 <= n) by (apply Z.le_trans with (2 ^ 1024); [discriminate | exact Hn]).
  rewrite parseInt_decimal_rounded, NumberFacts.nearestDouble_infinite by assumption.
  reflexivity.
Qed.

Lemma truthy_decimal (n : Z) : Js.truthy (decimal n) = true.
Proof.
  unfold decimal.
  destruct (decimalFrom_head (Z.to_nat n) n EmptyString) as [d [rest ->]]. reflexivity.
Qed.

(** Every response of [distantTotal] asks for more. *)
Lemma distantTotal_more (page : Z) :
  exists r : PageResponse Z, distantTotal page = inr r /\ hasMorePages page r = true.
Proof.
  eexists. split; [reflexivity|]. unfold hasMorePages.
  cbn [xPage xTotal xPerPage headerSet]. change (Js.truthy "1") with true.
  change (Js.truthy "18014398509481984") with true. cbn [andb].
  assert (E : totalPages {| data := @nil Z; xPage := Some "1"%string;
                            xTotal := Some "18014398509481984"%string;
                            xPerPage := Some "1"%string |}
              = JsNum.Int (2 ^ 54)) by (vm_compute; reflexivity).
  rewrite E. cbn [JsNum.lessThan]. unfold counterAt. apply Z.ltb_lt.
  apply Z.le_lt_trans with (2 ^ 53); [apply Z.le_min_r | reflexivity].
Qed.

Lemma distantTotal_never_ends (fuel : nat) :
  forall (items : list Z) (page : Z) (reqs : list Z),
    finished (fetchLoop fuel distantTotal items page reqs) = false.
Proof.
  induction fuel as [|fuel IH]; intros items page reqs; [reflexivity|].
  destruct (distantTotal_more page) as [r [Hr Hmore]].
  cbn [fetchLoop]. rewrite Hr, Hmore. apply IH.
Qed.

End PaginationFacts.

Example decimal_of_120 : Pagination.decimal 120 = "120"%string.
Proof. reflexivity. Qed.

Example parseInt_examples :
  JsNum.parseInt " 42px" = JsNum.Int 42 /\ JsNum.parseInt "-7" = JsNum.Int (-7)
  /\ JsNum.parseInt "abc" = JsNum.NaN /\ JsNum.parseInt "-0" = JsNum.NegZero
  /\ JsNum.ceilDiv (JsNum.Int 5) (JsNum.Int 2) = JsNum.Int 3
  /\ JsNum.ceilDiv (JsNum.Int 5) (JsNum.Int 0) = JsNum.PosInf.
Proof. repeat split; reflexivity. Qed.

Example parseInt_rounds :
  JsNum.parseInt "9007199254740993" = JsNum.Int 9007199254740992
  /\ JsNum.parseInt "3458764513820541228" = JsNum.Int 3458764513820541440
  /\ JsNum.parseInt "1152921504606847076" = JsNum.Int 1152921504606846976
  /\ JsNum.ceilDiv (JsNum.Int 3458764513820541440) (JsNum.Int 1152921504606846976)
     = JsNum.Int 4.
Proof. repeat split; vm_compute; reflexivity. Qed.

(** C4. [fetchAllPages] asks for the pages 1, 2, ... in turn and returns
    their items in the order of the requests. With the three headers set and
    read as [totalItems] and [itemsPerPage], neither above
    [Number.MAX_SAFE_INTEGER], it goes on exactly while the current page is
    below the ceiling of [totalItems / itemsPerPage]; it returns after the
    first response that does not ask for more, with the items of the pages
    up to that one; so when the responses to
    the requests 1, ..., n each declare n pages, exactly the requests 1, ..., n
    are made and the result is the items of page 1, then of page 2, and so on
    up to page n; for three pages: the requests 1, 2, 3 and the items of page
    1, of page 2, of page 3. A response that lacks one of the headers ends the
    loop; when it is the first response, that request is the only one and its
    items are the result. *)
Theorem fetchAllPages_complete_in_order
    {T : Type} (request : Z -> string + Pagination.PageResponse T) :
  (forall (fuel : nat) (items : list T) (reqs : list Z),
      Pagination.fetchAllPages fuel request = Pagination.Done items reqs ->
      exists n : nat,
        reqs = Pagination.pagesFrom 1 (S n)
        /\ items = concat (Pagination.itemsOf request <$> reqs))
  /\ (forall (r : Pagination.PageResponse T) (currentPage totalItems itemsPerPage : Z),
         Pagination.declared r = Some (totalItems, itemsPerPage) ->
         0 < itemsPerPage <= JsNum.MAX_SAFE_INTEGER ->
         0 <= totalItems <= JsNum.MAX_SAFE_INTEGER ->
         Pagination.hasMorePages currentPage r
         = (currentPage <? Pagination.ceiling totalItems itemsPerPage)
         /\ itemsPerPage * (Pagination.ceiling totalItems itemsPerPage - 1) < totalItems
            <= itemsPerPage * Pagination.ceiling totalItems itemsPerPage)
  /\ (forall n fuel : nat,
         (forall i : nat, (i < n)%nat ->
            exists r : Pagination.PageResponse T,
              request (1 + Z.of_nat i) = inr r
              /\ Pagination.hasMorePages (1 + Z.of_nat i) r = true) ->
         (exists r : Pagination.PageResponse T,
             request (1 + Z.of_nat n) = inr r
             /\ Pagination.hasMorePages (1 + Z.of_nat n) r = false) ->
         (n < fuel)%nat ->
         Pagination.fetchAllPages fuel request
         = Pagination.Done
             (concat (Pagination.itemsOf request <$> Pagination.pagesFrom 1 (S n)))
             (Pagination.pagesFrom 1 (S n)))
  /\ (forall n fuel : nat,
         (0 < n)%nat ->
         (forall page : Z, 1 <= page <= Z.of_nat n ->
            exists r : Pagination.PageResponse T,
              request page = inr r /\ Pagination.declaresPages r (Z.of_nat n)) ->
         (n <= fuel)%nat ->
         Pagination.fetchAllPages fuel request
         = Pagination.Done
             (concat (Pagination.itemsOf request <$> Pagination.pagesFrom 1 n))
             (Pagination.pagesFrom 1 n))
  /\ (forall (r1 r2 r3 : Pagination.PageResponse T) (fuel : nat),
         request 1 = inr r1 -> request 2 = inr r2 -> request 3 = inr r3 ->
         Pagination.declaresPages r1 3 -> Pagination.declaresPages r2 3 ->
         Pagination.declaresPages r3 3 ->
         (3 <= fuel)%nat ->
         Pagination.fetchAllPages fuel request
         = Pagination.Done (Pagination.data r1 ++ Pagination.data r2 ++ Pagination.data r3)
             [1; 2; 3])
  /\ (forall (r : Pagination.PageResponse T) (currentPage : Z),
         Pagination.xPage r = None \/ Pagination.xTotal r = None
         \/ Pagination.xPerPage r = None ->
         Pagination.hasMorePages currentPage r = false)
  /\ (forall (r : Pagination.PageResponse T) (fuel : nat),
         request 1 = inr r ->
         Pagination.xPage r = None \/ Pagination.xTotal r = None
         \/ Pagination.xPerPage r = None ->
         (1 <= fuel)%nat ->
         Pagination.fetchAllPages fuel request = Pagination.Done (Pagination.data r) [1]).
Proof.
  split; [|split; [|split; [|split; [|split; [|split]]]]].
  - intros fuel items reqs H. unfold Pagination.fetchAllPages in H.
    destruct (PaginationFacts.fetchLoop_Done request fuel _ _ _ _ _ H) as [n [Hr Hi]].
    exists n. rewrite app_nil_l in Hr, Hi. now subst.
  - intros r p t pp Hd Hpp Ht. split.
    + now apply PaginationFacts.hasMorePages_declared.
    + apply PaginationFacts.ceiling_spec. lia.
  - intros n fuel Hmore Hstop Hfuel.
    now apply PaginationFacts.fetchLoop_returns.
  - intros n fuel Hn Hall Hfuel. destruct n as [|n]; [lia|].
    unfold Pagination.fetchAllPages.
    rewrite (PaginationFacts.fetchLoop_declared request (Z.of_nat (S n)) Hall n fuel [] 1 [])
      by lia.
    rewrite !app_nil_l. reflexivity.
  - intros r1 r2 r3 fuel H1 H2 H3 D1 D2 D3 Hfuel.
    destruct fuel as [|[|[|fuel]]]; try lia.
    unfold Pagination.fetchAllPages. cbn [Pagination.fetchLoop].
    rewrite H1, (PaginationFacts.hasMorePages_declaresPages r1 1 3 D1).
    change (1 <? 3) with true. cbv iota. change (1 + 1) with 2.
    rewrite H2, (PaginationFacts.hasMorePages_declaresPages r2 2 3 D2).
    change (2 <? 3) with true. cbv iota. change (2 + 1) with 3.
    rewrite H3, (PaginationFacts.hasMorePages_declaresPages r3 3 3 D3).
    change (3 <? 3) with false. cbv iota.
    rewrite !app_nil_l, <- app_assoc. reflexivity.
  - intros r p Habs. now apply PaginationFacts.hasMorePages_absent.
  - intros r fuel H1 Habs Hfuel. destruct fuel as [|fuel]; [lia|].
    unfold Pagination.fetchAllPages. cbn [Pagination.fetchLoop].
    rewrite H1, (PaginationFacts.hasMorePages_absent r 1 Habs). reflexivity.
Qed.

Lemma fetchAllPages_complete_in_order_witness :
  Pagination.fetchAllPages 3 Pagination.threePages
  = Pagination.Done [11; 12; 21; 22; 31; 32] [1; 2; 3].
Proof.
  assert (D : forall p, 1 <= p <= 3 ->
            exists r, Pagination.threePages p = inr r /\ Pagination.declaresPages r 3).
  { intros p Hp. eexists. split; [reflexivity|].
    exists 6, 2. assert (p = 1 \/ p = 2 \/ p = 3) as [->|[->| ->]] by lia;
      repeat split; try reflexivity; try lia; discriminate. }
  rewrite (proj1 (proj2 (proj2 (proj2 (fetchAllPages_complete_in_order Pagination.threePages))))
             3%nat 3%nat ltac:(lia) D (le_n 3)).
  reflexivity.
Defined.

(** C4, as the claim states it, fails when the header numbers are above
    2^53: the total is three times the page size, so the upstream has three
    pages, but [parseInt] rounds both numbers to doubles whose rounded quotient
    is above 3, [totalPages] is 4 and a fourth request is made. *)
Lemma fetchAllPages_rounded_headers_four_requests :
  JsNum.parseDigits 0 "3458764513820541228" = 3 * JsNum.parseDigits 0 "1152921504606847076"
  /\ Pagination.ceiling (JsNum.parseDigits 0 "3458764513820541228")
       (JsNum.parseDigits 0 "1152921504606847076") = 3
  /\ (forall page : Z,
         exists r : Pagination.PageResponse Z,
           Pagination.roundedPages page = inr r
           /\ Pagination.xTotal r = Some "3458764513820541228"%string
           /\ Pagination.xPerPage r = Some "1152921504606847076"%string
           /\ Pagination.totalPages r = JsNum.Int 4)
  /\ Pagination.fetchAllPages 10 Pagination.roundedPages
     = Pagination.Done [1; 2; 3; 4] [1; 2; 3; 4].
Proof.
  split; [vm_compute; reflexivity|]. split; [vm_compute; reflexivity|]. split.
  - intros page. eexists. split; [reflexivity|]. split; [reflexivity|].
    split; [reflexivity|]. vm_compute. reflexivity.
  - vm_compute. reflexivity.
Qed.

(** C10, as amended. When every response that carries the three headers
    declares a positive page size and a non-negative total, neither above
    [Number.MAX_SAFE_INTEGER], and at most [limit] pages, [fetchAllPages]
    ends, by returning or by throwing, after at most [max 1 limit] requests:
    that many units of fuel are enough, and more change nothing. When the
    first response lacks a header there is exactly one request. *)
Theorem fetchAllPages_bounded_requests
    {T : Type} (request : Z -> string + Pagination.PageResponse T) (limit : Z)
    (bounded : forall (p : Z) (r : Pagination.PageResponse T),
        request p = inr r ->
        Pagination.headerSet (Pagination.xPage r)
        && Pagination.headerSet (Pagination.xTotal r)
        && Pagination.headerSet (Pagination.xPerPage r) = true ->
        exists n : Z, Pagination.declaresPages r n /\ n <= limit) :
  forall fuel : nat,
    (Z.to_nat (Z.max 1 limit) <= fuel)%nat ->
    Pagination.finished (Pagination.fetchAllPages fuel request) = true
    /\ (length (Pagination.requestsOf (Pagination.fetchAllPages fuel request))
        <= Z.to_nat (Z.max 1 limit))%nat
    /\ Pagination.fetchAllPages fuel request
       = Pagination.fetchAllPages (Z.to_nat (Z.max 1 limit)) request
    /\ (forall r : Pagination.PageResponse T,
           request 1 = inr r ->
           Pagination.xPage r = None \/ Pagination.xTotal r = None
           \/ Pagination.xPerPage r = None ->
           Pagination.requestsOf (Pagination.fetchAllPages fuel request) = [1]).
Proof.
  intros fuel Hfuel.
  assert (Hlim : forall (p : Z) (r : Pagination.PageResponse T),
             request p = inr r -> Pagination.hasMorePages p r = true -> p < limit).
  { intros p r Hr Hmore.
    assert (Hset : Pagination.headerSet (Pagination.xPage r)
                   && Pagination.headerSet (Pagination.xTotal r)
                   && Pagination.headerSet (Pagination.xPerPage r) = true).
    { unfold Pagination.hasMorePages in Hmore.
      destruct (Pagination.headerSet (Pagination.xPage r)
                && Pagination.headerSet (Pagination.xTotal r)
                && Pagination.headerSet (Pagination.xPerPage r));
        [reflexivity | discriminate]. }
    destruct (bounded p r Hr Hset) as (n & D & Hn).
    rewrite (PaginationFacts.hasMorePages_declaresPages r p n D) in Hmore.
    apply Z.ltb_lt in Hmore. lia. }
  assert (Hb : forall f : nat, (Z.to_nat (Z.max 1 limit) <= f)%nat ->
             Pagination.finished (Pagination.fetchAllPages f request) = true
             /\ (length (Pagination.requestsOf (Pagination.fetchAllPages f request))
                 <= Z.to_nat (Z.max 1 limit))%nat).
  { intros f Hf. unfold Pagination.fetchAllPages.
    destruct (PaginationFacts.fetchLoop_bounded request limit Hlim f [] 1 [])
      as [Hfin Hlen].
    - replace (limit - 1 + 1) with limit by lia. exact Hf.
    - split; [exact Hfin|]. simpl in Hlen.
      replace (limit - 1 + 1) with limit in Hlen by lia. exact Hlen. }
  destruct (Hb fuel Hfuel) as [Hfin Hlen].
  split; [exact Hfin|]. split; [exact Hlen|]. split.
  - apply PaginationFacts.fetchLoop_more_fuel; [|exact Hfuel].
    apply (Hb _ (le_n _)).
  - intros r H1 Habs. destruct fuel as [|fuel]; [lia|].
    unfold Pagination.fetchAllPages. cbn [Pagination.fetchLoop].
    rewrite H1, (PaginationFacts.hasMorePages_absent r 1 Habs). reflexivity.
Qed.

Lemma fetchAllPages_bounded_requests_witness :
  Pagination.finished (Pagination.fetchAllPages 5 Pagination.threePages) = true
  /\ (length (Pagination.requestsOf (Pagination.fetchAllPages 5 Pagination.threePages))
      <= 3)%nat.
Proof.
  assert (bounded : forall (p : Z) (r : Pagination.PageResponse Z),
             Pagination.threePages p = inr r ->
             Pagination.headerSet (Pagination.xPage r)
             && Pagination.headerSet (Pagination.xTotal r)
             && Pagination.headerSet (Pagination.xPerPage r) = true ->
             exists n : Z, Pagination.declaresPages r n /\ n <= 3).
  { intros p r Hr _. injection Hr as <-. exists 3. split; [|lia].
    exists 6, 2. unfold Pagination.declared. cbn.
    destruct (p =? 1); [|destruct (p =? 2)];
      repeat split; try reflexivity; try lia; discriminate. }
  destruct (fetchAllPages_bounded_requests Pagination.threePages 3 bounded 5%nat)
    as (Hfin & Hlen & _); [simpl; lia|].
  split; [exact Hfin | exact Hlen].
Defined.

(** C10, as the claim states it, fails in two ways. An upstream whose every
    response carries the three headers with the page size 1 and the total
    2^54, a finite non-negative integer, is asked without end: the counter
    [currentPage] stays at 2^53, below the 2^54 pages. And the bound cannot
    be read off one response: the first response of an upstream that is
    always one page ahead declares 2 pages, its page size is 1 and its
    totals are non-negative, and after 40 requests the loop goes on. *)
Lemma fetchAllPages_unbounded_requests :
  (forall page : Z,
      exists r : Pagination.PageResponse Z,
        Pagination.distantTotal page = inr r
        /\ Pagination.declared r = Some (2 ^ 54, 1))
  /\ Pagination.ceiling (2 ^ 54) 1 = 2 ^ 54
  /\ (forall fuel : nat,
         Pagination.finished (Pagination.fetchAllPages fuel Pagination.distantTotal) = false)
  /\ (exists r : Pagination.PageResponse Z,
         Pagination.growingTotal 1 = inr r /\ Pagination.declaresPages r 2)
  /\ (forall page : Z, 1 <= page <= 40 ->
         exists r : Pagination.PageResponse Z,
           Pagination.growingTotal page = inr r
           /\ Pagination.declaresPages r (page + 1))
  /\ Pagination.fetchAllPages 40 Pagination.growingTotal
     = Pagination.OutOfFuel [] (Pagination.pagesFrom 1 40).
Proof.
  split; [|split; [|split; [|split; [|split]]]].
  - intros page. eexists. split; [reflexivity|]. vm_compute. reflexivity.
  - vm_compute. reflexivity.
  - intros fuel. apply PaginationFacts.distantTotal_never_ends.
  - eexists. split; [reflexivity|]. exists 2, 1.
    repeat split; try reflexivity; try lia; discriminate.
  - intros page Hp. eexists. split; [reflexivity|]. exists (page + 1), 1.
    assert (Hsafe : 0 <= page + 1 <= JsNum.MAX_SAFE_INTEGER).
    { split; [lia|]. apply Z.le_trans with 41; [lia | discriminate]. }
    split; [|split; [|split]].
    + unfold Pagination.declared.
      cbn [Pagination.growingTotal Pagination.xPage Pagination.xTotal Pagination.xPerPage
           Pagination.headerSet default]. unfold id.
      rewrite !PaginationFacts.truthy_decimal. change (Js.truthy "1") with true.
      cbn [andb]. rewrite PaginationFacts.parseInt_decimal by exact Hsafe.
      change (JsNum.parseInt "1") with (JsNum.Int 1). reflexivity.
    + split; [lia | discriminate].
    + exact Hsafe.
    + unfold Pagination.ceiling. rewrite Z.div_1_r. lia.
  - vm_compute. reflexivity.
Qed.
(** * The cache: single flight, expiry, failures, [clear] *)

Module CacheFacts.

Import MemoryCacheStore Cache.

Section WithValues.

Context {T F : Type}.

Implicit Types (s base : State T F) (key : string) (store : gmap string (MemoryCacheEntry T)).

(** ** The store *)

Lemma get_miss store (now : Z) key :
  snd (MemoryCacheStore.get store now key) = None ->
  fst (MemoryCacheStore.get store now key) !! key = None.
Proof.
  unfold MemoryCacheStore.get. destruct (store !! key) as [entry|] eqn:E; simpl; [|auto].
  destruct (expiresAt entry) as [t|]; [|discriminate].
  destruct (t <=? now); simpl; [|discriminate]. intros _. apply lookup_delete_eq.
Qed.

Lemma get_absent store (now : Z) key k :
  store !! key = None -> fst (MemoryCacheStore.get store now k) !! key = None.
Proof.
  intros H. unfold MemoryCacheStore.get. destruct (store !! k) as [entry|]; simpl; [|auto].
  destruct (expiresAt entry) as [t|]; [|auto].
  destruct (t <=? now); simpl; [|auto]. apply lookup_delete_None. auto.
Qed.

Lemma get_absent_returns store (now : Z) key :
  store !! key = None -> snd (MemoryCacheStore.get store now key) = None.
Proof. intros H. unfold MemoryCacheStore.get. now rewrite H. Qed.

Lemma get_live store (now : Z) key (v : T) (t : Z) :
  store !! key = Some {| value := v; expiresAt := Some t |} -> now < t ->
  MemoryCacheStore.get store now key = (store, Some v).
Proof.
  intros H Hlt. unfold MemoryCacheStore.get. rewrite H. simpl.
  destruct (Z.leb_spec t now); [lia | reflexivity].
Qed.

Lemma get_expired store (now : Z) key (v : T) (t : Z) :
  store !! key = Some {| value := v; expiresAt := Some t |} -> t <= now ->
  MemoryCacheStore.get store now key = (base.delete key store, None).
Proof.
  intros H Hle. unfold MemoryCacheStore.get. rewrite H. simpl.
  destruct (Z.leb_spec t now); [reflexivity | lia].
Qed.

Lemma set_other store (now : Z) key k (v : T) (ttl : option Z) :
  k <> key -> MemoryCacheStore.set store now k v ttl !! key = store !! key.
Proof.
  intros Hne. unfold MemoryCacheStore.set. destruct ttl as [ttl|].
  - destruct (ttl <=? 0); [now apply lookup_delete_ne | now apply lookup_insert_ne].
  - now apply lookup_insert_ne.
Qed.

Lemma set_positive store (now : Z) key (v : T) (ttl : Z) :
  0 < ttl ->
  MemoryCacheStore.set store now key v (Some ttl)
  = <[key := {| value := v; expiresAt := Some (now + ttl * 1000) |}]> store.
Proof.
  intros H. unfold MemoryCacheStore.set. destruct (Z.leb_spec ttl 0); [lia | reflexivity].
Qed.

(** ** The logs *)

Lemma forKey_app {A : Type} key (l1 l2 : list (string * A)) :
  forKey key (l1 ++ l2) = forKey key l1 ++ forKey key l2.
Proof. unfold forKey. now rewrite List.filter_app, fmap_app. Qed.

Lemma forKey_same {A : Type} key (x : A) : forKey key [(key, x)] = [x].
Proof. unfold forKey. simpl. now rewrite String.eqb_refl. Qed.

Lemma forKey_other {A : Type} key k (x : A) : k <> key -> forKey key [(k, x)] = [].
Proof.
  intros H. unfold forKey. simpl.
  destruct (String.eqb_spec k key); [contradiction | reflexivity].
Qed.

Lemma idle_spec key s :
  idle key s = true ->
  forall (id : nat) (p : Pending T F),
    promises s !! id = Some p -> pendingKey p = key -> inFlight p = false.
Proof.
  unfold idle. intros H id p Hp Hk.
  rewrite forallb_forall in H.
  assert (Hin : In p (promises s)).
  { apply list_elem_of_In. eapply list_elem_of_lookup_2. exact Hp. }
  specialize (H p Hin). rewrite Hk, String.eqb_refl in H. simpl in H.
  now destruct (inFlight p).
Qed.

(** ** A fetch in flight *)

Lemma flying_start s key (ttl : Z) (f : F) :
  0 < ttl ->
  snd (MemoryCacheStore.get (store s) (now s) key) = None ->
  pendingFetches s !! key = None ->
  idle key s = true ->
  snd (getOrSet key ttl f s) = Shared (length (promises s))
  /\ invocations (fst (getOrSet key ttl f s)) = invocations s
  /\ Flying key ttl f (length (promises s)) s 1 (fst (getOrSet key ttl f s)).
Proof.
  intros Httl Hmiss Hpend Hidle.
  pose proof (get_miss _ _ _ Hmiss) as Hstore.
  unfold getOrSet. destruct (Z.leb_spec ttl 0) as [|_]; [lia|].
  destruct (MemoryCacheStore.get (store s) (now s) key) as [store' cached].
  simpl in Hmiss, Hstore. subst cached. rewrite Hpend. simpl.
  split; [reflexivity|]. split; [reflexivity|].
  constructor; simpl.
  - exact Httl.
  - exact Hstore.
  - apply lookup_insert_eq.
  - exists Queued. split; [now apply list_lookup_middle|]. left. split; reflexivity.
  - intros id' p Hp Hk Hfly. apply lookup_app_Some in Hp as [Hp|[Hge Hp]].
    + rewrite (idle_spec key s Hidle id' p Hp Hk) in Hfly. discriminate.
    + apply lookup_lt_Some in Hp as Hlt. simpl in Hlt. lia.
  - unfold returnedFor. simpl. now rewrite forKey_app, forKey_same.
Qed.

(** Moving a promise for another key along keeps the fetch as it is. *)
Lemma flying_other_promise key (ttl : Z) (f : F) (id : nat) base (calls : nat) s
    (id' : nat) (p : Pending T F) (ph : Phase T)
    (store' : gmap string (MemoryCacheEntry T)) (pending' : gmap string nat) :
  Flying key ttl f id base calls s ->
  promises s !! id' = Some p ->
  pendingKey p <> key ->
  store' !! key = None ->
  pending' !! key = Some id ->
  Flying key ttl f id base calls
    {| store := store'; pendingFetches := pending';
       promises := <[id' := withPhase p ph]> (promises s);
       now := now s; invocations := invocations s; returned := returned s |}.
Proof.
  intros [Httl Hstore Hpend (ph0 & Hprom & Hinv) Halone Hret] Hp Hne Hs' Hp'.
  assert (Hid : id' <> id).
  { intros ->. rewrite Hprom in Hp. injection Hp as <-. now apply Hne. }
  constructor; simpl; try assumption.
  - exists ph0. split; [|exact Hinv]. now rewrite list_lookup_insert_ne.
  - intros id'' p'' Hp'' Hk Hfly.
    destruct (decide (id' = id'')) as [->|Hother].
    + apply list_lookup_insert_Some in Hp'' as [[_ [<- _]]|[Hc _]]; [|contradiction].
      simpl in Hk. contradiction.
    + rewrite list_lookup_insert_ne in Hp'' by exact Hother. eauto.
Qed.

Lemma flying_step key (ttl : Z) (f : F) (id : nat) base (calls : nat) s (e : Event T F) :
  Flying key ttl f id base calls s ->
  concurrentWith key id e = true ->
  Flying key ttl f id base (calls + callsFor key [e]) (step s e).
Proof.
  intros Hfly He.
  pose proof Hfly as [Httl Hstore Hpend (ph0 & Hprom & Hinv) Halone Hret].
  destruct e as [k t g| |id'|id' o|id'|ms]; simpl in He; unfold callsFor; simpl.
  - (* a call of getOrSet *)
    unfold getOrSet. destruct (Z.leb_spec t 0) as [Ht|Ht].
    + assert (Hk : k <> key).
      { destruct (String.eqb_spec k key); [|assumption].
        simpl in He. apply Z.ltb_lt in He. lia. }
      destruct (String.eqb_spec k key); [contradiction|]. simpl. rewrite Nat.add_0_r.
      constructor; simpl; try assumption.
      * exists ph0. split; [exact Hprom|]. unfold invokedFor in *. simpl.
        now rewrite forKey_app, forKey_other, app_nil_r.
      * unfold returnedFor in *. simpl. now rewrite forKey_app, forKey_other, app_nil_r.
    + pose proof (get_absent (store s) (now s) key k Hstore) as Hstore'.
      pose proof (get_absent_returns (store s) (now s) key Hstore) as Hnone.
      destruct (String.eqb_spec k key) as [->|Hk]; simpl.
      * destruct (MemoryCacheStore.get (store s) (now s) key) as [store' cached].
        simpl in Hstore', Hnone. subst cached. rewrite Hpend. simpl.
        constructor; simpl; try assumption.
        -- exists ph0. split; assumption.
        -- unfold returnedFor in *. simpl.
           rewrite forKey_app, forKey_same, Hret, <- app_assoc. f_equal.
           replace (calls + 1)%nat with (S calls) by lia.
           now rewrite replicate_S_end.
      * rewrite Nat.add_0_r.
        destruct (MemoryCacheStore.get (store s) (now s) k) as [store' cached].
        simpl in Hstore'.
        assert (Hret' : forall h : Handle T,
                   forKey key (returned s ++ [(k, h)])
                   = returnedFor key base ++ replicate calls (Shared id)).
        { intros h. rewrite forKey_app, forKey_other, app_nil_r by exact Hk. exact Hret. }
        destruct cached as [v|]; [|destruct (pendingFetches s !! k) as [existing|] eqn:Hex];
          simpl.
        -- constructor; simpl; try assumption; try apply Hret'; eauto.
        -- constructor; simpl; try assumption; try apply Hret'; eauto.
        -- constructor; simpl; try assumption.
           ++ now rewrite lookup_insert_ne.
           ++ exists ph0. split; [|exact Hinv].
              rewrite lookup_app_l; [exact Hprom|]. now apply lookup_lt_Some in Hprom.
           ++ intros id'' p'' Hp'' Hk'' Hfl.
              apply lookup_app_Some in Hp'' as [Hp''|[_ Hp'']]; [eauto|].
              destruct (id'' - length (promises s))%nat; [|discriminate].
              injection Hp'' as <-. simpl in Hk''. contradiction.
           ++ apply Hret'.
  - discriminate.
  - (* the fetcher is called *)
    rewrite Nat.add_0_r. unfold runFetcher.
    destruct (promises s !! id') as [p|] eqn:Hp; [|exact Hfly].
    destruct (phase p) eqn:Hph; try exact Hfly.
    destruct (decide (id' = id)) as [->|Hid].
    + rewrite Hprom in Hp. injection Hp as <-. simpl in Hph. subst ph0.
      destruct Hinv as [[_ Hinv]|[Hc _]]; [|discriminate].
      constructor; simpl; try assumption.
      * exists Running. split; [apply list_lookup_insert_eq; now apply lookup_lt_Some in Hprom|].
        right. split; [reflexivity|]. unfold invokedFor in *. simpl.
        now rewrite forKey_app, forKey_same, Hinv.
      * intros id'' p'' Hp'' Hk'' Hfl.
        destruct (decide (id = id'')) as [<-|Hother]; [reflexivity|].
        rewrite list_lookup_insert_ne in Hp'' by exact Hother. eauto.
    + assert (Hk : pendingKey p <> key).
      { intros Hk. apply Hid. apply (Halone id' p Hp Hk). unfold inFlight. now rewrite Hph. }
      pose proof (flying_other_promise key ttl f id base calls s id' p Running
                    (store s) (pendingFetches s) Hfly Hp Hk Hstore Hpend)
        as [_ Hs' Hp' (ph1 & Hprom' & Hinv') Halone' Hret'].
      simpl in *.
      constructor; simpl; try assumption.
      exists ph1. split; [exact Hprom'|]. unfold invokedFor in *. simpl in *.
      now rewrite forKey_app, forKey_other, app_nil_r.
  - (* another fetcher settles *)
    rewrite Nat.add_0_r. unfold fetcherSettles.
    apply negb_true_iff, Nat.eqb_neq in He.
    destruct (promises s !! id') as [p|] eqn:Hp; [|exact Hfly].
    destruct (phase p) eqn:Hph; try exact Hfly.
    assert (Hk : pendingKey p <> key).
    { intros Hk. apply He. apply (Halone id' p Hp Hk). unfold inFlight. now rewrite Hph. }
    apply flying_other_promise; try assumption.
    destruct o as [v|reason]; [|exact Hstore]. now rewrite set_other.
  - (* another promise settles *)
    rewrite Nat.add_0_r. unfold runFinally.
    apply negb_true_iff, Nat.eqb_neq in He.
    destruct (promises s !! id') as [p|] eqn:Hp; [|exact Hfly].
    destruct (phase p) eqn:Hph; try exact Hfly.
    assert (Hk : pendingKey p <> key).
    { intros Hk. apply He. apply (Halone id' p Hp Hk). unfold inFlight. now rewrite Hph. }
    apply flying_other_promise; try assumption.
    now rewrite lookup_delete_ne.
  - (* the clock *)
    rewrite Nat.add_0_r. constructor; simpl; try assumption. eauto.
Qed.

Lemma callsFor_cons key (e : Event T F) (events : list (Event T F)) :
  callsFor key (e :: events) = (callsFor key [e] + callsFor key events)%nat.
Proof.
  unfold callsFor. simpl.
  destruct e as [k t g| | | | |]; simpl; try reflexivity.
  destruct (String.eqb k key); reflexivity.
Qed.

Lemma flying_run key (ttl : Z) (f : F) (id : nat) base (events : list (Event T F)) :
  forall (calls : nat) s,
    Flying key ttl f id base calls s ->
    forallb (concurrentWith key id) events = true ->
    Flying key ttl f id base (calls + callsFor key events) (run s events).
Proof.
  induction events as [|e events IH]; intros calls s Hfly Hall.
  - unfold callsFor. simpl. now rewrite Nat.add_0_r.
  - simpl in Hall. apply andb_prop in Hall as [He Hall].
    rewrite callsFor_cons, Nat.add_assoc. simpl.
    apply IH; [|exact Hall]. now apply flying_step.
Qed.

(** A caller that arrives while the fetch is in flight gets its promise. *)
Lemma flying_join key (ttl : Z) (f : F) (id : nat) base (calls : nat) s (ttl' : Z) (f' : F) :
  Flying key ttl f id base calls s ->
  0 < ttl' ->
  snd (getOrSet key ttl' f' s) = Shared id
  /\ invocations (fst (getOrSet key ttl' f' s)) = invocations s
  /\ promises (fst (getOrSet key ttl' f' s)) = promises s.
Proof.
  intros [_ Hstore Hpend _ _ _] Httl. unfold getOrSet.
  destruct (Z.leb_spec ttl' 0) as [|_]; [lia|].
  pose proof (get_absent_returns (store s) (now s) key Hstore) as Hnone.
  destruct (MemoryCacheStore.get (store s) (now s) key) as [store' cached].
  simpl in Hnone. subst cached. rewrite Hpend. simpl. auto.
Qed.

Lemma runFetcher_queued s (id : nat) (p : Pending T F) :
  promises s !! id = Some p -> phase p = Queued ->
  runFetcher id s =
    {| store := store s; pendingFetches := pendingFetches s;
       promises := <[id := withPhase p Running]> (promises s);
       now := now s;
       invocations := invocations s ++ [(pendingKey p, pendingFetcher p)];
       returned := returned s |}.
Proof. intros Hp Hph. unfold runFetcher. now rewrite Hp, Hph. Qed.

Lemma fetcherSettles_running s (id : nat) (p : Pending T F) (o : Outcome T) :
  promises s !! id = Some p -> phase p = Running ->
  fetcherSettles id o s =
    {| store := match o with
                | Fulfilled result =>
                    MemoryCacheStore.set (store s) (now s) (pendingKey p) result
                      (Some (pendingTtl p))
                | Rejected _ => store s
                end;
       pendingFetches := pendingFetches s;
       promises := <[id := withPhase p (Completing o)]> (promises s);
       now := now s; invocations := invocations s; returned := returned s |}.
Proof. intros Hp Hph. unfold fetcherSettles. now rewrite Hp, Hph. Qed.

Lemma runFinally_completing s (id : nat) (p : Pending T F) (o : Outcome T) :
  promises s !! id = Some p -> phase p = Completing o ->
  runFinally id s =
    {| store := store s;
       pendingFetches := base.delete (pendingKey p) (pendingFetches s);
       promises := <[id := withPhase p (Settled o)]> (promises s);
       now := now s; invocations := invocations s; returned := returned s |}.
Proof. intros Hp Hph. unfold runFinally. now rewrite Hp, Hph. Qed.

(** The reaction that calls the fetcher, whether it runs now or ran before. *)
Lemma flying_running key (ttl : Z) (f : F) (id : nat) base (calls : nat) s :
  Flying key ttl f id base calls s ->
  Flying key ttl f id base calls (runFetcher id s)
  /\ promises (runFetcher id s) !! id =
       Some {| pendingKey := key; pendingTtl := ttl; pendingFetcher := f; phase := Running |}
  /\ invokedFor key (runFetcher id s) = invokedFor key base ++ [f]
  /\ store (runFetcher id s) = store s
  /\ pendingFetches (runFetcher id s) = pendingFetches s
  /\ now (runFetcher id s) = now s
  /\ returned (runFetcher id s) = returned s
  /\ length (promises (runFetcher id s)) = length (promises s).
Proof.
  intros Hfly.
  pose proof (flying_step key ttl f id base calls s (RunFetcher id) Hfly eq_refl) as Hstep.
  unfold callsFor in Hstep. simpl in Hstep. rewrite Nat.add_0_r in Hstep.
  split; [exact Hstep|].
  destruct Hfly as [_ _ _ (ph & Hprom & [[-> Hinv]|[-> Hinv]]) _ _].
  - rewrite (runFetcher_queued s id _ Hprom eq_refl). simpl.
    split; [apply list_lookup_insert_eq; now apply lookup_lt_Some in Hprom|].
    split; [unfold invokedFor in *; simpl; now rewrite forKey_app, forKey_same, Hinv|].
    repeat split; try reflexivity. apply length_insert.
  - assert (E : runFetcher id s = s) by (unfold runFetcher; now rewrite Hprom).
    rewrite E. auto 10.
Qed.

(** The fetch runs to its end: the fetcher has been called once for it, the
    holders of the promise receive its outcome, the record is gone, and a
    value is stored exactly when the fetcher fulfilled. *)
Lemma flying_finish key (ttl : Z) (f : F) (id : nat) base (calls : nat) s (o : Outcome T) :
  Flying key ttl f id base calls s ->
  let s' := run s [RunFetcher id; FetcherSettles id o; RunFinally id] in
  invokedFor key s' = invokedFor key base ++ [f]
  /\ received s' (Shared id) = Some o
  /\ pendingFetches s' !! key = None
  /\ store s' !! key =
       match o with
       | Fulfilled v => Some {| value := v; expiresAt := Some (now s + ttl * 1000) |}
       | Rejected _ => None
       end
  /\ store (run s [RunFetcher id; FetcherSettles id o])
     = match o with
       | Fulfilled v => MemoryCacheStore.set (store s) (now s) key v (Some ttl)
       | Rejected _ => store s
       end
  /\ pendingFetches (run s [RunFetcher id; FetcherSettles id o]) !! key = Some id
  /\ returnedFor key s' = returnedFor key base ++ replicate calls (Shared id)
  /\ idle key s' = true
  /\ length (promises s') = length (promises s)
  /\ now s' = now s.
Proof.
  intros Hfly. unfold run. simpl.
  destruct (flying_running key ttl f id base calls s Hfly)
    as (Hfly1 & Hprom1 & Hinv1 & Hstore1 & Hpend1 & Hnow1 & Hret1 & Hlen1).
  set (s1 := runFetcher id s) in *.
  destruct Hfly1 as [Httl Hs1 Hp1 _ Halone1 Hretf1].
  assert (Hlt : (id < length (promises s1))%nat) by now apply lookup_lt_Some in Hprom1.
  rewrite (fetcherSettles_running s1 id _ o Hprom1 eq_refl).
  set (s2 := {| store := _; promises := <[id := _]> (promises s1) |}).
  assert (Hprom2 : promises s2 !! id =
            Some {| pendingKey := key; pendingTtl := ttl; pendingFetcher := f;
                    phase := Completing o |})
    by (apply list_lookup_insert_eq; exact Hlt).
  rewrite (runFinally_completing s2 id _ o Hprom2 eq_refl). simpl.
  repeat split.
  - exact Hinv1.
  - rewrite list_lookup_insert_eq; [reflexivity|]. now rewrite length_insert.
  - apply lookup_delete_eq.
  - destruct o as [v|reason]; [|exact Hs1].
    destruct (Z.leb_spec ttl 0) as [|_]; [lia|].
    rewrite lookup_insert_eq, Hnow1. reflexivity.
  - destruct o as [v|reason]; [|exact Hstore1].
    unfold MemoryCacheStore.set. now rewrite Hstore1, Hnow1.
  - exact Hp1.
  - exact Hretf1.
  - unfold idle. simpl. apply forallb_forall. intros p Hin.
    apply list_elem_of_In, list_elem_of_lookup_1 in Hin as [i Hi].
    destruct (decide (i = id)) as [->|Hne].
    + rewrite list_lookup_insert_eq in Hi by now rewrite length_insert.
      injection Hi as <-. unfold inFlight. simpl. now rewrite andb_false_r.
    + rewrite !list_lookup_insert_ne in Hi by congruence.
      destruct (String.eqb_spec (pendingKey p) key) as [Hk|Hk]; [|reflexivity].
      destruct (inFlight p) eqn:Hf; [|reflexivity].
      exfalso. apply Hne. now apply (Halone1 i p).
  - now rewrite !length_insert.
  - exact Hnow1.
Qed.

(** ** After [clear] *)

Lemma untouched_clear key s : Untouched key (promises s) (clear s).
Proof.
  constructor; simpl.
  - apply lookup_empty.
  - apply lookup_empty.
  - intros id p Hp Hk. eauto.
Qed.

Lemma untouched_step key (ps : list (Pending T F)) s (e : Event T F) :
  Untouched key ps s -> leavesAlone key ps e = true -> Untouched key ps (step s e).
Proof.
  intros [Hstore Hpend Hold] He.
  destruct e as [k t g| |id|id o|id|ms]; simpl in He; simpl.
  - apply negb_true_iff in He. destruct (String.eqb_spec k key) as [|Hk]; [discriminate|].
    unfold getOrSet. destruct (t <=? 0); [constructor; assumption|].
    pose proof (get_absent (store s) (now s) key k Hstore) as Hstore'.
    destruct (MemoryCacheStore.get (store s) (now s) k) as [store' cached].
    simpl in Hstore'.
    destruct cached as [v|]; [|destruct (pendingFetches s !! k) as [existing|]]; simpl;
      constructor; simpl; try assumption.
    + now rewrite lookup_insert_ne.
    + intros id p Hp Hkp. apply lookup_app_Some in Hp as [Hp|[_ Hp]]; [eauto|].
      destruct (id - length (promises s))%nat; [|discriminate].
      injection Hp as <-. simpl in Hkp. contradiction.
  - constructor; simpl; try apply lookup_empty. exact Hold.
  - unfold runFetcher. destruct (promises s !! id) as [p|] eqn:Hp; [|now constructor].
    destruct (phase p); try now constructor.
    constructor; simpl; try assumption.
    intros id' p' Hp' Hk. destruct (decide (id = id')) as [<-|Hne].
    + apply list_lookup_insert_Some in Hp' as [[_ [<- _]]|[Hc _]]; [|contradiction].
      simpl in Hk. eauto.
    + rewrite list_lookup_insert_ne in Hp' by exact Hne. eauto.
  - unfold fetcherSettles. destruct (promises s !! id) as [p|] eqn:Hp; [|now constructor].
    destruct (phase p); try now constructor.
    constructor; cbn [store pendingFetches promises]; try assumption.
    + destruct o as [v|reason]; [|exact Hstore].
      rewrite set_other; [exact Hstore|]. intros Hk.
      destruct (Hold id p Hp Hk) as (p0 & Hp0 & Hk0). rewrite Hp0 in He.
      apply negb_true_iff in He. rewrite Hk0, String.eqb_refl in He. discriminate.
    + intros id' p' Hp' Hk. destruct (decide (id = id')) as [<-|Hne].
      * apply list_lookup_insert_Some in Hp' as [[_ [<- _]]|[Hc _]]; [|contradiction].
        simpl in Hk. eauto.
      * rewrite list_lookup_insert_ne in Hp' by exact Hne. eauto.
  - unfold runFinally. destruct (promises s !! id) as [p|] eqn:Hp; [|now constructor].
    destruct (phase p); try now constructor.
    constructor; simpl; try assumption.
    + apply lookup_delete_None. auto.
    + intros id' p' Hp' Hk. destruct (decide (id = id')) as [<-|Hne].
      * apply list_lookup_insert_Some in Hp' as [[_ [<- _]]|[Hc _]]; [|contradiction].
        simpl in Hk. eauto.
      * rewrite list_lookup_insert_ne in Hp' by exact Hne. eauto.
  - now constructor.
Qed.

Lemma untouched_run key (ps : list (Pending T F)) (events : list (Event T F)) :
  forall s,
    Untouched key ps s -> forallb (leavesAlone key ps) events = true ->
    Untouched key ps (run s events).
Proof.
  induction events as [|e events IH]; intros s Hs Hall; [exact Hs|].
  simpl in Hall. apply andb_prop in Hall as [He Hall]. simpl.
  apply IH; [|exact Hall]. now apply untouched_step.
Qed.

(** With nothing stored and nothing pending for [key], a call starts a
    fetch: a new promise, queued, whose reaction calls the fetcher. *)
Lemma getOrSet_starts s key (ttl : Z) (f : F) :
  0 < ttl ->
  store s !! key = None ->
  pendingFetches s !! key = None ->
  let id := length (promises s) in
  let s' := fst (getOrSet key ttl f s) in
  snd (getOrSet key ttl f s) = Shared id
  /\ promises s' !! id =
       Some {| pendingKey := key; pendingTtl := ttl; pendingFetcher := f; phase := Queued |}
  /\ pendingFetches s' !! key = Some id
  /\ invocations s' = invocations s
  /\ invokedFor key (runFetcher id s') = invokedFor key s ++ [f].
Proof.
  intros Httl Hstore Hpend. cbv zeta. unfold getOrSet.
  destruct (Z.leb_spec ttl 0) as [|_]; [lia|].
  pose proof (get_absent_returns (store s) (now s) key Hstore) as Hnone.
  destruct (MemoryCacheStore.get (store s) (now s) key) as [store' cached].
  simpl in Hnone. subst cached. rewrite Hpend. simpl.
  assert (Hnew : (promises s ++
            [{| pendingKey := key; pendingTtl := ttl; pendingFetcher := f; phase := Queued |}])
            !! length (promises s) =
          Some {| pendingKey := key; pendingTtl := ttl; pendingFetcher := f; phase := Queued |})
    by now apply list_lookup_middle.
  repeat split; try reflexivity.
  - exact Hnew.
  - apply lookup_insert_eq.
  - unfold runFetcher. simpl. rewrite Hnew. simpl. unfold invokedFor. simpl.
    now rewrite forKey_app, forKey_same.
Qed.

(** ** One fetch from start to end, then the clock *)

Lemma getOrSet_miss s key (ttl : Z) (f : F) :
  0 < ttl ->
  snd (MemoryCacheStore.get (store s) (now s) key) = None ->
  pendingFetches s !! key = None ->
  getOrSet key ttl f s =
    ({| store := fst (MemoryCacheStore.get (store s) (now s) key);
        pendingFetches := <[key := length (promises s)]> (pendingFetches s);
        promises := promises s ++
          [{| pendingKey := key; pendingTtl := ttl; pendingFetcher := f; phase := Queued |}];
        now := now s;
        invocations := invocations s;
        returned := returned s ++ [(key, Shared (length (promises s)))] |},
     Shared (length (promises s))).
Proof.
  intros Httl Hmiss Hpend. unfold getOrSet.
  destruct (Z.leb_spec ttl 0) as [|_]; [lia|].
  destruct (MemoryCacheStore.get (store s) (now s) key) as [store' cached].
  simpl in Hmiss. subst cached. now rewrite Hpend.
Qed.

Lemma fetched s key (ttl : Z) (f : F) (v : T) (d : Z) :
  0 < ttl ->
  snd (MemoryCacheStore.get (store s) (now s) key) = None ->
  pendingFetches s !! key = None ->
  let id := length (promises s) in
  let s' :=
    run s [CallGetOrSet key ttl f; RunFetcher id; Tick d;
           FetcherSettles id (Fulfilled v); RunFinally id] in
  store s' !! key = Some {| value := v; expiresAt := Some (now s + d + ttl * 1000) |}
  /\ pendingFetches s' !! key = None
  /\ length (promises s') = S id
  /\ invocations s' = invocations s ++ [(key, f)]
  /\ now s' = now s + d
  /\ received s' (Shared id) = Some (Fulfilled v).
Proof.
  intros Httl Hmiss Hpend id s'. subst s'. unfold run. simpl.
  rewrite (getOrSet_miss s key ttl f Httl Hmiss Hpend). simpl.
  set (new := {| pendingKey := key; pendingTtl := ttl; pendingFetcher := f; phase := Queued |}).
  set (s1 := {| store := _; promises := promises s ++ [new] |}).
  assert (H1 : promises s1 !! id = Some new) by now apply list_lookup_middle.
  assert (Hlt : (id < length (promises s ++ [new]))%nat)
    by (rewrite length_app; simpl; unfold id; lia).
  rewrite (runFetcher_queued s1 id new H1 eq_refl).
  set (s2 := tick d _).
  assert (H2 : promises s2 !! id = Some (withPhase new Running))
    by (apply list_lookup_insert_eq; exact Hlt).
  rewrite (fetcherSettles_running s2 id _ (Fulfilled v) H2 eq_refl).
  set (s3 := {| store := MemoryCacheStore.set _ _ _ _ _; returned := returned s2 |}).
  assert (H3 : promises s3 !! id = Some (withPhase (withPhase new Running) (Completing (Fulfilled v))))
    by (apply list_lookup_insert_eq; simpl; now rewrite length_insert).
  rewrite (runFinally_completing s3 id _ (Fulfilled v) H3 eq_refl). simpl.
  repeat split.
  - destruct (Z.leb_spec ttl 0) as [|_]; [lia|]. apply lookup_insert_eq.
  - apply lookup_delete_eq.
  - rewrite !length_insert, length_app. simpl. unfold id. lia.
  - rewrite list_lookup_insert_eq; [reflexivity|]. now rewrite !length_insert.
Qed.

(** A call made while the fetch just started is in flight joins it. *)
Lemma joins s key (ttl : Z) (f : F) (ttl' : Z) (f' : F) :
  0 < ttl ->
  snd (MemoryCacheStore.get (store s) (now s) key) = None ->
  pendingFetches s !! key = None ->
  0 < ttl' ->
  snd (getOrSet key ttl' f' (fst (getOrSet key ttl f s))) = Shared (length (promises s)).
Proof.
  intros Httl Hmiss Hpend Httl'.
  rewrite (getOrSet_miss s key ttl f Httl Hmiss Hpend). cbn [fst].
  unfold getOrSet. destruct (Z.leb_spec ttl' 0) as [|_]; [lia|].
  cbn [store now pendingFetches].
  pose proof (get_absent_returns _ (now s) key (get_miss _ _ _ Hmiss)) as Hnone.
  destruct (MemoryCacheStore.get (fst (MemoryCacheStore.get (store s) (now s) key))
              (now s) key) as [store' cached].
  simpl in Hnone. subst cached. now rewrite lookup_insert_eq.
Qed.

(** A call made before the fetched value expires is served from the
    store. *)
Lemma served s key (ttl : Z) (f : F) (v : T) (d1 d2 ttl' : Z) (f' : F) :
  0 < ttl ->
  snd (MemoryCacheStore.get (store s) (now s) key) = None ->
  pendingFetches s !! key = None ->
  0 < ttl' -> d2 < ttl * 1000 ->
  let id := length (promises s) in
  let stored :=
    run s [CallGetOrSet key ttl f; RunFetcher id; Tick d1;
           FetcherSettles id (Fulfilled v); RunFinally id] in
  snd (getOrSet key ttl' f' (tick d2 stored)) = Immediate v
  /\ invocations (fst (getOrSet key ttl' f' (tick d2 stored))) = invocations s ++ [(key, f)].
Proof.
  intros Httl Hmiss Hpend Httl' Hd id stored.
  pose proof (fetched s key ttl f v d1 Httl Hmiss Hpend) as Hfetched.
  cbv zeta in Hfetched. fold id in Hfetched. fold stored in Hfetched.
  destruct Hfetched as (Hstore & _ & _ & Hinv & Hnow & _).
  unfold getOrSet. destruct (Z.leb_spec ttl' 0) as [|_]; [lia|].
  rewrite (get_live (store (tick d2 stored)) (now (tick d2 stored)) key v
             (now s + d1 + ttl * 1000)); [|exact Hstore | simpl; lia].
  simpl. auto.
Qed.

(** ** A cache that was never cleared *)

Lemma registered_initial : Registered (initial (T := T) (F := F)).
Proof. intros id p Hp. discriminate. Qed.

Lemma registered_update s (id : nat) (p : Pending T F) (ph : Phase T)
    (pending' : gmap string nat) :
  Registered s ->
  promises s !! id = Some p ->
  (forall (id' : nat) (p' : Pending T F),
      promises s !! id' = Some p' -> inFlight p' = true -> id' <> id ->
      pending' !! pendingKey p' = Some id') ->
  (inFlight (withPhase p ph) = true -> pending' !! pendingKey p = Some id) ->
  forall (id' : nat) (p' : Pending T F),
    <[id := withPhase p ph]> (promises s) !! id' = Some p' -> inFlight p' = true ->
    pending' !! pendingKey p' = Some id'.
Proof.
  intros Hreg Hp Hothers Hself id' p' Hp' Hfl.
  destruct (decide (id = id')) as [<-|Hne].
  - apply list_lookup_insert_Some in Hp' as [[_ [<- _]]|[Hc _]]; [|contradiction].
    now apply Hself.
  - rewrite list_lookup_insert_ne in Hp' by exact Hne. apply Hothers; auto.
Qed.

Lemma registered_step s (e : Event T F) :
  Registered s -> e <> CallClear -> Registered (step s e).
Proof.
  intros Hreg He. destruct e as [k t g| |id|id o|id|ms]; simpl.
  - unfold getOrSet. destruct (t <=? 0); [exact Hreg|].
    destruct (MemoryCacheStore.get (store s) (now s) k) as [store' cached].
    destruct cached as [v|]; [exact Hreg|].
    destruct (pendingFetches s !! k) as [existing|] eqn:Hex; [exact Hreg|].
    intros id p Hp Hfl. simpl in *.
    apply lookup_app_Some in Hp as [Hp|[Hge Hp]].
    + pose proof (Hreg id p Hp Hfl) as Hr.
      rewrite lookup_insert_ne; [exact Hr|]. intros Hk. rewrite <- Hk in Hr. congruence.
    + destruct (id - length (promises s))%nat eqn:E; [|discriminate].
      injection Hp as <-. simpl. rewrite lookup_insert_eq. f_equal. lia.
  - contradiction.
  - unfold runFetcher. destruct (promises s !! id) as [p|] eqn:Hp; [|exact Hreg].
    destruct (phase p) eqn:Hph; try exact Hreg.
    unfold Registered. simpl. apply registered_update; auto.
    intros _. apply Hreg; [exact Hp|]. unfold inFlight. now rewrite Hph.
  - unfold fetcherSettles. destruct (promises s !! id) as [p|] eqn:Hp; [|exact Hreg].
    destruct (phase p) eqn:Hph; try exact Hreg.
    unfold Registered. cbn [promises pendingFetches]. apply registered_update; auto.
    intros _. apply Hreg; [exact Hp|]. unfold inFlight. now rewrite Hph.
  - unfold runFinally. destruct (promises s !! id) as [p|] eqn:Hp; [|exact Hreg].
    destruct (phase p) eqn:Hph; try exact Hreg.
    unfold Registered. simpl. apply registered_update; auto.
    + intros id' p' Hp' Hfl Hne.
      pose proof (Hreg id' p' Hp' Hfl) as Hr.
      rewrite lookup_delete_ne; [exact Hr|]. intros Hk.
      assert (Hown : pendingFetches s !! pendingKey p = Some id).
      { apply Hreg; [exact Hp|]. unfold inFlight. now rewrite Hph. }
      rewrite Hk in Hown. congruence.
    + discriminate.
  - exact Hreg.
Qed.

Lemma registered_run (events : list (Event T F)) :
  forall s, Registered s -> withoutClear events = true -> Registered (run s events).
Proof.
  induction events as [|e events IH]; intros s Hreg Hall; [exact Hreg|].
  unfold withoutClear in Hall. simpl in Hall. apply andb_prop in Hall as [He Hall].
  simpl. apply IH; [|exact Hall]. apply registered_step; [exact Hreg|].
  intros ->. discriminate.
Qed.

(** In a cache that was never cleared, no record for [key] means no fetch
    for [key] in flight. *)
Lemma never_cleared_idle (history : list (Event T F)) key :
  withoutClear history = true ->
  pendingFetches (run initial history) !! key = None ->
  idle key (run initial history) = true.
Proof.
  intros Hall Hpend.
  pose proof (registered_run history initial registered_initial Hall) as Hreg.
  unfold idle. apply forallb_forall. intros p Hin.
  apply list_elem_of_In, list_elem_of_lookup_1 in Hin as [i Hi].
  destruct (String.eqb_spec (pendingKey p) key) as [Hk|Hk]; [|reflexivity].
  destruct (inFlight p) eqn:Hf; [|reflexivity].
  pose proof (Hreg i p Hi Hf) as Hr. rewrite Hk in Hr. congruence.
Qed.

End WithValues.

End CacheFacts.

(** C1, as amended. Take a cache with nothing cached and nothing in flight
    for [key] (in a cache that was never cleared, every state without a
    record for [key] has no fetch for it in flight:
    [CacheFacts.never_cleared_idle]), and a first call
    [getOrSet(key, ttl, f)] with [ttl > 0]; let any events follow that can
    happen before that fetch settles, [clear()] apart: calls of [getOrSet]
    (for [key] with a positive ttl, for other keys with any), fetchers being
    called, other fetches settling, the clock advancing. Then: the first
    call registers its promise in the pending-fetch table in the same step,
    before the fetcher is called; the table keeps that one record for [key],
    and no other promise for [key] is in flight; every call for [key], the
    first and the later ones, was handed that same promise, and so is the
    next one, without a call of its fetcher; the fetcher was called at most
    once; and when the fetch has run to its end with the outcome [o], the
    fetcher was called exactly once and every one of these callers receives
    [o], a value or a failure. *)
Theorem getOrSet_single_flight
    {T F : Type} (s : Cache.State T F) (key : string) (ttl : Z) (f : F)
    (events : list (Cache.Event T F)) :
  0 < ttl ->
  snd (MemoryCacheStore.get (Cache.store s) (Cache.now s) key) = None ->
  Cache.pendingFetches s !! key = None ->
  Cache.idle key s = true ->
  forallb (Cache.concurrentWith key (length (Cache.promises s))) events = true ->
  let id := length (Cache.promises s) in
  let started := fst (Cache.getOrSet key ttl f s) in
  let s' := Cache.run started events in
  (Cache.pendingFetches started !! key = Some id
   /\ Cache.invocations started = Cache.invocations s)
  /\ Cache.pendingFetches s' !! key = Some id
  /\ (forall (id' : nat) (p : Cache.Pending T F),
         Cache.promises s' !! id' = Some p -> Cache.pendingKey p = key ->
         Cache.inFlight p = true -> id' = id)
  /\ Cache.returnedFor key s'
     = Cache.returnedFor key s
       ++ replicate (S (Cache.callsFor key events)) (Cache.Shared id)
  /\ (forall (ttl' : Z) (f' : F),
         0 < ttl' ->
         snd (Cache.getOrSet key ttl' f' s') = Cache.Shared id
         /\ Cache.invocations (fst (Cache.getOrSet key ttl' f' s')) = Cache.invocations s')
  /\ (Cache.invokedFor key s' = Cache.invokedFor key s
      \/ Cache.invokedFor key s' = Cache.invokedFor key s ++ [f])
  /\ (forall o : Cache.Outcome T,
         let settled :=
           Cache.run s' [Cache.RunFetcher id; Cache.FetcherSettles id o; Cache.RunFinally id] in
         Cache.invokedFor key settled = Cache.invokedFor key s ++ [f]
         /\ Cache.returnedFor key settled
            = Cache.returnedFor key s
              ++ replicate (S (Cache.callsFor key events)) (Cache.Shared id)
         /\ Cache.received settled (Cache.Shared id) = Some o
         /\ Cache.pendingFetches settled !! key = None).
Proof.
  intros Httl Hmiss Hpend Hidle Hall id started s'.
  destruct (CacheFacts.flying_start s key ttl f Httl Hmiss Hpend Hidle)
    as (Hhandle & Hinv0 & Hfly0).
  pose proof (CacheFacts.flying_run key ttl f id s events 1 started Hfly0 Hall) as Hfly.
  change (1 + Cache.callsFor key events)%nat with (S (Cache.callsFor key events)) in Hfly.
  fold s' in Hfly.
  split; [split; [apply Hfly0 | exact Hinv0]|].
  split; [apply Hfly|]. split; [apply Hfly|]. split; [apply Hfly|].
  split.
  { intros ttl' f' Httl'.
    destruct (CacheFacts.flying_join key ttl f id s _ s' ttl' f' Hfly Httl') as (H1 & H2 & _).
    auto. }
  split.
  { destruct Hfly as [_ _ _ (ph & _ & [[_ H]|[_ H]]) _ _]; auto. }
  intros o settled.
  destruct (CacheFacts.flying_finish key ttl f id s _ s' o Hfly)
    as (H1 & H2 & H3 & _ & _ & _ & H4 & _).
  auto.
Qed.

(** C2. For [ttl > 0]: a value a fetch of [getOrSet(key, ttl, f)] stored
    expires [ttl * 1000] ms after it was stored. A later call made less than
    that after the store returns the value and changes nothing else: no
    fetcher is called, no promise is created. A call made when that time has
    passed, or later, deletes the entry and starts a new fetch, which calls
    its fetcher. For [ttl <= 0] a call does nothing but call its fetcher,
    once: the store and the pending-fetch table are neither read nor
    written, whatever they hold. *)
Theorem getOrSet_ttl_policy {T F : Type} :
  (forall (s : Cache.State T F) (key : string) (ttl : Z) (f : F) (v : T) (d1 d2 : Z),
      0 < ttl ->
      snd (MemoryCacheStore.get (Cache.store s) (Cache.now s) key) = None ->
      Cache.pendingFetches s !! key = None ->
      let id := length (Cache.promises s) in
      let stored :=
        Cache.run s [Cache.CallGetOrSet key ttl f; Cache.RunFetcher id; Cache.Tick d1;
                     Cache.FetcherSettles id (Cache.Fulfilled v); Cache.RunFinally id] in
      let later := Cache.tick d2 stored in
      Cache.store stored !! key
      = Some {| MemoryCacheStore.value := v;
                MemoryCacheStore.expiresAt := Some (Cache.now stored + ttl * 1000) |}
      /\ Cache.invocations stored = Cache.invocations s ++ [(key, f)]
      /\ (d2 < ttl * 1000 ->
          forall (ttl' : Z) (f' : F),
            0 < ttl' ->
            Cache.getOrSet key ttl' f' later
            = ({| Cache.store := Cache.store later;
                  Cache.pendingFetches := Cache.pendingFetches later;
                  Cache.promises := Cache.promises later;
                  Cache.now := Cache.now later;
                  Cache.invocations := Cache.invocations later;
                  Cache.returned := Cache.returned later ++ [(key, Cache.Immediate v)] |},
               Cache.Immediate v))
      /\ (ttl * 1000 <= d2 ->
          forall (ttl' : Z) (f' : F),
            0 < ttl' ->
            let again := fst (Cache.getOrSet key ttl' f' later) in
            snd (Cache.getOrSet key ttl' f' later) = Cache.Shared (S id)
            /\ Cache.store again !! key = None
            /\ Cache.invocations (Cache.runFetcher (S id) again)
               = Cache.invocations s ++ [(key, f); (key, f')]))
  /\ (forall (s : Cache.State T F) (key : string) (ttl : Z) (f : F),
         ttl <= 0 ->
         Cache.getOrSet key ttl f s
         = ({| Cache.store := Cache.store s;
               Cache.pendingFetches := Cache.pendingFetches s;
               Cache.promises := Cache.promises s;
               Cache.now := Cache.now s;
               Cache.invocations := Cache.invocations s ++ [(key, f)];
               Cache.returned := Cache.returned s ++ [(key, Cache.Direct)] |},
            Cache.Direct)).
Proof.
  split.
  - intros s key ttl f v d1 d2 Httl Hmiss Hpend id stored later.
    pose proof (CacheFacts.fetched s key ttl f v d1 Httl Hmiss Hpend) as Hfetched.
    cbv zeta in Hfetched. fold id in Hfetched. fold stored in Hfetched.
    destruct Hfetched as (Hstore & Hpending & Hlen & Hinv & Hnow & _).
    split; [now rewrite Hnow|]. split; [exact Hinv|]. split.
    + intros Hd ttl' f' Httl'. unfold Cache.getOrSet.
      destruct (Z.leb_spec ttl' 0) as [|_]; [lia|].
      rewrite (CacheFacts.get_live (Cache.store later) (Cache.now later) key v
                 (Cache.now s + d1 + ttl * 1000)); [reflexivity | exact Hstore |].
      simpl. lia.
    + intros Hd ttl' f' Httl' again.
      assert (Hexp : MemoryCacheStore.get (Cache.store later) (Cache.now later) key
                     = (base.delete key (Cache.store later), None)).
      { apply (CacheFacts.get_expired _ _ key v (Cache.now s + d1 + ttl * 1000));
          [exact Hstore | simpl; lia]. }
      assert (Hmiss' : snd (MemoryCacheStore.get (Cache.store later) (Cache.now later) key)
                       = None) by now rewrite Hexp.
      pose proof (CacheFacts.getOrSet_miss later key ttl' f' Httl' Hmiss' Hpending) as Hcall.
      rewrite Hexp in Hcall. cbn [fst] in Hcall.
      change (Cache.promises later) with (Cache.promises stored) in Hcall.
      change (Cache.invocations later) with (Cache.invocations stored) in Hcall.
      rewrite Hlen, Hinv in Hcall.
      subst again. rewrite Hcall. cbn [fst snd Cache.store].
      split; [reflexivity|]. split; [apply lookup_delete_eq|].
      unfold Cache.runFetcher. cbn [Cache.promises].
      rewrite list_lookup_middle by (symmetry; exact Hlen).
      cbn [Cache.phase Cache.invocations Cache.pendingKey Cache.pendingFetcher].
      rewrite <- app_assoc. reflexivity.
  - intros s key ttl f Httl. unfold Cache.getOrSet.
    destruct (Z.leb_spec ttl 0); [reflexivity | lia].
Qed.

(** C3, as amended. In the setting of C1 (nothing cached and nothing in
    flight for [key] when the fetch starts, and no [clear()] before it
    settles), let the fetcher fail with [reason]. The
    failing fetch leaves the store as it was, and no value is stored for
    [key]; the pending-fetch record for [key] is still there when the fetcher
    has settled and is removed by the [.finally] reaction, after a failure as
    after a success; every caller that was handed the shared promise
    receives the same failure; and the next call of [getOrSet] for [key]
    after that starts a new fetch, which calls its own fetcher. *)
Theorem getOrSet_failure_not_cached
    {T F : Type} (s : Cache.State T F) (key : string) (ttl : Z) (f : F)
    (events : list (Cache.Event T F)) (reason : string) :
  0 < ttl ->
  snd (MemoryCacheStore.get (Cache.store s) (Cache.now s) key) = None ->
  Cache.pendingFetches s !! key = None ->
  Cache.idle key s = true ->
  forallb (Cache.concurrentWith key (length (Cache.promises s))) events = true ->
  let id := length (Cache.promises s) in
  let s' := Cache.run (fst (Cache.getOrSet key ttl f s)) events in
  let failed :=
    Cache.run s' [Cache.RunFetcher id; Cache.FetcherSettles id (Cache.Rejected reason)] in
  let settled := Cache.run failed [Cache.RunFinally id] in
  Cache.store failed = Cache.store s'
  /\ Cache.store settled !! key = None
  /\ Cache.pendingFetches failed !! key = Some id
  /\ Cache.pendingFetches settled !! key = None
  /\ (forall o : Cache.Outcome T,
         Cache.pendingFetches
           (Cache.run s' [Cache.RunFetcher id; Cache.FetcherSettles id o; Cache.RunFinally id])
         !! key = None)
  /\ Cache.returnedFor key settled
     = Cache.returnedFor key s
       ++ replicate (S (Cache.callsFor key events)) (Cache.Shared id)
  /\ Cache.received settled (Cache.Shared id) = Some (Cache.Rejected reason)
  /\ (forall (ttl' : Z) (f' : F),
         0 < ttl' ->
         let id' := length (Cache.promises settled) in
         let retried := fst (Cache.getOrSet key ttl' f' settled) in
         id' <> id
         /\ snd (Cache.getOrSet key ttl' f' settled) = Cache.Shared id'
         /\ Cache.promises retried !! id'
            = Some {| Cache.pendingKey := key; Cache.pendingTtl := ttl';
                      Cache.pendingFetcher := f'; Cache.phase := Cache.Queued |}
         /\ Cache.invokedFor key (Cache.runFetcher id' retried)
            = Cache.invokedFor key s ++ [f; f']).
Proof.
  intros Httl Hmiss Hpend Hidle Hall id s' failed settled.
  destruct (CacheFacts.flying_start s key ttl f Httl Hmiss Hpend Hidle) as (_ & _ & Hfly0).
  pose proof (CacheFacts.flying_run key ttl f id s events 1 _ Hfly0 Hall) as Hfly.
  change (1 + Cache.callsFor key events)%nat with (S (Cache.callsFor key events)) in Hfly.
  fold s' in Hfly.
  pose proof (CacheFacts.flying_finish key ttl f id s _ s' (Cache.Rejected reason) Hfly)
    as Hfin.
  cbv zeta in Hfin.
  change (Cache.run s' [Cache.RunFetcher id; Cache.FetcherSettles id (Cache.Rejected reason);
                        Cache.RunFinally id]) with settled in Hfin.
  fold failed in Hfin.
  destruct Hfin as (Hinv & Hrec & Hpending & Hstore & Hunchanged & Hstill & Hret & Hidle'
                    & Hlen & _).
  split; [exact Hunchanged|]. split; [exact Hstore|]. split; [exact Hstill|].
  split; [exact Hpending|]. split.
  { intros o. apply (CacheFacts.flying_finish key ttl f id s _ s' o Hfly). }
  split; [exact Hret|]. split; [exact Hrec|].
  intros ttl' f' Httl' id' retried.
  destruct (CacheFacts.getOrSet_starts settled key ttl' f' Httl' Hstore Hpending)
    as (Hh & Hp & _ & _ & Hi).
  fold id' in Hh, Hp, Hi. fold retried in Hp, Hi.
  split.
  { unfold id'. rewrite Hlen. destruct Hfly as [_ _ _ (ph & Hprom & _) _ _].
    apply lookup_lt_Some in Hprom. lia. }
  split; [exact Hh|]. split; [exact Hp|].
  rewrite Hi, Hinv, <- app_assoc. reflexivity.
Qed.

(** C6, as amended. [clear()] empties the store and the pending-fetch
    table and leaves the promises alone. After it, and after any events that
    leave [key] alone (no call for [key], no fulfilment of a fetch for [key]
    that was in flight at the time of the [clear()]), a call
    [getOrSet(key, ttl, f)] with [ttl > 0] starts a new fetch, which calls
    [f]: whatever was cached for [key] before, expired or not, and whatever
    fetch for [key] was in flight. A fetch that was in flight at the time of
    the [clear()] and fulfils after it still stores its value, with its own
    ttl; from then on, until that entry expires, a call for its key returns
    that value and calls no fetcher. *)
Theorem clear_resets_until_refilled {T F : Type} :
  (forall s : Cache.State T F,
      Cache.store (Cache.clear s) = ∅
      /\ Cache.pendingFetches (Cache.clear s) = ∅
      /\ Cache.promises (Cache.clear s) = Cache.promises s)
  /\ (forall (s : Cache.State T F) (key : string) (ttl : Z) (f : F)
             (events : list (Cache.Event T F)),
         0 < ttl ->
         forallb (Cache.leavesAlone key (Cache.promises s)) events = true ->
         let s' := Cache.run (Cache.clear s) events in
         let id := length (Cache.promises s') in
         let started := fst (Cache.getOrSet key ttl f s') in
         snd (Cache.getOrSet key ttl f s') = Cache.Shared id
         /\ Cache.promises started !! id
            = Some {| Cache.pendingKey := key; Cache.pendingTtl := ttl;
                      Cache.pendingFetcher := f; Cache.phase := Cache.Queued |}
         /\ Cache.pendingFetches started !! key = Some id
         /\ Cache.invokedFor key (Cache.runFetcher id started)
            = Cache.invokedFor key s' ++ [f])
  /\ (forall (s : Cache.State T F) (id : nat) (p : Cache.Pending T F) (v : T),
         Cache.promises s !! id = Some p ->
         Cache.phase p = Cache.Running ->
         0 < Cache.pendingTtl p ->
         let refilled := Cache.run (Cache.clear s) [Cache.FetcherSettles id (Cache.Fulfilled v)] in
         Cache.store refilled !! Cache.pendingKey p
         = Some {| MemoryCacheStore.value := v;
                   MemoryCacheStore.expiresAt :=
                     Some (Cache.now s + Cache.pendingTtl p * 1000) |}
         /\ (forall (d ttl' : Z) (f' : F),
                0 < ttl' -> d < Cache.pendingTtl p * 1000 ->
                let later := Cache.tick d refilled in
                snd (Cache.getOrSet (Cache.pendingKey p) ttl' f' later) = Cache.Immediate v
                /\ Cache.invocations (fst (Cache.getOrSet (Cache.pendingKey p) ttl' f' later))
                   = Cache.invocations s
                /\ Cache.promises (fst (Cache.getOrSet (Cache.pendingKey p) ttl' f' later))
                   = Cache.promises refilled)).
Proof.
  split; [|split].
  - intros s. repeat split.
  - intros s key ttl f events Httl Hall s' id started.
    pose proof (CacheFacts.untouched_run key (Cache.promises s) events (Cache.clear s)
                  (CacheFacts.untouched_clear key s) Hall) as [Hstore Hpend _].
    fold s' in Hstore, Hpend.
    destruct (CacheFacts.getOrSet_starts s' key ttl f Httl Hstore Hpend)
      as (H1 & H2 & H3 & _ & H4).
    auto.
  - intros s id p v Hp Hph Httl refilled.
    assert (Hrefilled : refilled = Cache.fetcherSettles id (Cache.Fulfilled v) (Cache.clear s))
      by reflexivity.
    rewrite (CacheFacts.fetcherSettles_running (Cache.clear s) id p (Cache.Fulfilled v) Hp Hph)
      in Hrefilled.
    assert (Hstore : Cache.store refilled !! Cache.pendingKey p
                     = Some {| MemoryCacheStore.value := v;
                               MemoryCacheStore.expiresAt :=
                                 Some (Cache.now s + Cache.pendingTtl p * 1000) |}).
    { rewrite Hrefilled. cbn [Cache.store].
      rewrite CacheFacts.set_positive by exact Httl. apply lookup_insert_eq. }
    split; [exact Hstore|].
    intros d ttl' f' Httl' Hd later. unfold Cache.getOrSet.
    destruct (Z.leb_spec ttl' 0) as [|_]; [lia|].
    rewrite (CacheFacts.get_live (Cache.store later) (Cache.now later) (Cache.pendingKey p) v
               (Cache.now s + Cache.pendingTtl p * 1000)).
    + subst later. rewrite Hrefilled. simpl. auto.
    + exact Hstore.
    + unfold later. rewrite Hrefilled. simpl. lia.
Qed.

(** Three callers of one key, one of another key in between: one fetch. *)
Lemma getOrSet_single_flight_witness :
  let events : list (Cache.Event string string) :=
    [Cache.CallGetOrSet "projects:assigned" 300 "fetchProjects";
     Cache.CallGetOrSet "users:0:-" 300 "fetchUsers";
     Cache.RunFetcher 0;
     Cache.CallGetOrSet "projects:assigned" 300 "fetchProjects"]%string in
  let s' :=
    Cache.run (fst (Cache.getOrSet "projects:assigned" 300 "fetchProjects"%string Cache.initial))
      events in
  let settled :=
    Cache.run s' [Cache.RunFetcher 0; Cache.FetcherSettles 0 (Cache.Fulfilled "[]"%string);
                  Cache.RunFinally 0] in
  Cache.returnedFor "projects:assigned" s' = [Cache.Shared 0; Cache.Shared 0; Cache.Shared 0]
  /\ Cache.invokedFor "projects:assigned" settled = ["fetchProjects"%string]
  /\ Cache.received settled (Cache.Shared 0) = Some (Cache.Fulfilled "[]"%string).
Proof.
  intros events s' settled.
  pose proof (getOrSet_single_flight (T := string) (F := string) Cache.initial
                "projects:assigned" 300 "fetchProjects"%string events
                ltac:(lia) eq_refl eq_refl eq_refl eq_refl) as H.
  cbv zeta in H. destruct H as (_ & _ & _ & Hret & _ & _ & Hend).
  destruct (Hend (Cache.Fulfilled "[]"%string)) as (Hinv & _ & Hrec & _).
  split; [exact Hret|]. split; [exact Hinv | exact Hrec].
Defined.

(** A value fetched with a ttl of 1 s: served 999 ms later, fetched again
    1000 ms later; and two calls with a ttl of 0 call the fetcher twice. *)
Lemma getOrSet_ttl_policy_witness :
  let stored : Cache.State string string :=
    Cache.run Cache.initial
      [Cache.CallGetOrSet "key" 1 "f"; Cache.RunFetcher 0; Cache.Tick 10;
       Cache.FetcherSettles 0 (Cache.Fulfilled "initial"); Cache.RunFinally 0]%string in
  snd (Cache.getOrSet "key" 1 "f"%string (Cache.tick 999 stored)) = Cache.Immediate "initial"%string
  /\ snd (Cache.getOrSet "key" 1 "f"%string (Cache.tick 1000 stored)) = Cache.Shared 1
  /\ Cache.invocations (T := string)
       (Cache.run Cache.initial
          [Cache.CallGetOrSet "key" 0 "f"; Cache.CallGetOrSet "key" 0 "f"]%string)
     = [("key", "f"); ("key", "f")]%string.
Proof.
  intros stored.
  destruct (getOrSet_ttl_policy (T := string) (F := string)) as [Hpos Hzero].
  destruct (Hpos Cache.initial "key"%string 1 "f"%string "initial"%string 10 999
              ltac:(lia) eq_refl eq_refl) as (_ & _ & Hlive & _).
  destruct (Hpos Cache.initial "key"%string 1 "f"%string "initial"%string 10 1000
              ltac:(lia) eq_refl eq_refl) as (_ & _ & _ & Hexpired).
  split; [|split].
  - exact (f_equal snd (Hlive ltac:(lia) 1 "f"%string ltac:(lia))).
  - apply (Hexpired ltac:(lia) 1 "f"%string ltac:(lia)).
  - exact (f_equal (fun r => Cache.invocations (fst r))
             (Hzero (fst (Cache.getOrSet "key" 0 "f"%string Cache.initial))
                "key"%string 0 "f"%string ltac:(lia))).
Defined.

(** Two callers share a fetch that fails; the next call fetches again. *)
Lemma getOrSet_failure_not_cached_witness :
  let s' : Cache.State string string :=
    Cache.run (fst (Cache.getOrSet "key" 60 "f"%string Cache.initial))
      [Cache.CallGetOrSet "key" 60 "f"%string] in
  let failed :=
    Cache.run s' [Cache.RunFetcher 0; Cache.FetcherSettles 0 (Cache.Rejected "HTTP 500")] in
  let settled := Cache.run failed [Cache.RunFinally 0] in
  Cache.store settled !! "key" = None
  /\ Cache.pendingFetches settled !! "key" = None
  /\ Cache.returnedFor "key" settled = [Cache.Shared 0; Cache.Shared 0]
  /\ Cache.received settled (Cache.Shared 0) = Some (Cache.Rejected "HTTP 500")
  /\ snd (Cache.getOrSet "key" 60 "f"%string settled) = Cache.Shared 1.
Proof.
  pose proof (getOrSet_failure_not_cached (T := string) (F := string) Cache.initial
                "key" 60 "f"%string [Cache.CallGetOrSet "key" 60 "f"%string] "HTTP 500"
                ltac:(lia) eq_refl eq_refl eq_refl eq_refl) as H.
  change (length (Cache.promises (Cache.initial (T := string) (F := string)))) with 0%nat in H.
  intros s' failed settled. fold s' failed settled in H.
  destruct H as (_ & Hstore & _ & Hpend & _ & Hret & Hrec & Hnext).
  destruct (Hnext 60 "f"%string ltac:(lia)) as (_ & Hh & _).
  split; [exact Hstore|]. split; [exact Hpend|]. split; [exact Hret|].
  split; [exact Hrec|]. etransitivity; [exact Hh | vm_compute; reflexivity].
Defined.

(** After [clear()] the next call fetches again, although the value was
    cached for 60 s. *)
Lemma clear_resets_until_refilled_witness :
  let cached : Cache.State string string :=
    Cache.run Cache.initial
      [Cache.CallGetOrSet "key" 60 "f"; Cache.RunFetcher 0;
       Cache.FetcherSettles 0 (Cache.Fulfilled "value"); Cache.RunFinally 0]%string in
  snd (Cache.getOrSet "key" 60 "f"%string cached) = Cache.Immediate "value"%string
  /\ snd (Cache.getOrSet "key" 60 "f"%string (Cache.run (Cache.clear cached) []))
     = Cache.Shared 1.
Proof.
  intros cached. split; [reflexivity|].
  destruct (clear_resets_until_refilled (T := string) (F := string)) as (_ & Hnext & _).
  apply (Hnext cached "key"%string 60 "f"%string [] ltac:(lia) eq_refl).
Defined.

(** C6, as the claim states it, fails when a fetch that was in flight at
    the time of [clear()] fulfils before the next call: that call is served
    the value fetched before the [clear()], and its fetcher is not called. *)
Lemma clear_then_stale_value_served :
  let s : Cache.State string string :=
    Cache.run Cache.initial
      [Cache.CallGetOrSet "key" 60 "f"; Cache.RunFetcher 0; Cache.CallClear;
       Cache.FetcherSettles 0 (Cache.Fulfilled "fetched before clear"); Cache.RunFinally 0;
       Cache.CallGetOrSet "key" 60 "g"]%string in
  Cache.returnedFor "key" s = [Cache.Shared 0; Cache.Immediate "fetched before clear"%string]
  /\ Cache.invokedFor "key" s = ["f"%string]
  /\ Cache.promises s
     = [{| Cache.pendingKey := "key"%string; Cache.pendingTtl := 60;
           Cache.pendingFetcher := "f"%string;
           Cache.phase := Cache.Settled (Cache.Fulfilled "fetched before clear"%string) |}].
Proof. vm_compute. repeat split; reflexivity. Qed.

(** What else [clear()] does while a fetch is in flight: the [.finally]
    reaction of the old fetch removes the record of the fetch started after
    the [clear()], so that a third caller starts a third fetch while the
    second is in flight. *)
Remark clear_then_two_fetches_in_flight :
  let s : Cache.State string string :=
    Cache.run Cache.initial
      [Cache.CallGetOrSet "key" 60 "f"; Cache.RunFetcher 0; Cache.CallClear;
       Cache.CallGetOrSet "key" 60 "g"; Cache.RunFetcher 1;
       Cache.FetcherSettles 0 (Cache.Rejected "HTTP 500"); Cache.RunFinally 0;
       Cache.CallGetOrSet "key" 60 "h"; Cache.RunFetcher 2]%string in
  Cache.returnedFor "key" s = [Cache.Shared 0; Cache.Shared 1; Cache.Shared 2]
  /\ Cache.invokedFor "key" s = ["f"; "g"; "h"]%string
  /\ Cache.inFlight <$> Cache.promises s = [false; true; true].
Proof. vm_compute. repeat split; reflexivity. Qed.

(** C1, as the claim states it, fails when [clear()] is called between two
    calls for the key, before the first fetch settles: the second caller
    finds no record, so the fetcher is called a second time, two fetches for
    the key are in flight, and the two callers receive the values of two
    different fetches. *)
Lemma getOrSet_clear_between_calls_fetches_twice :
  let flying : Cache.State string string :=
    Cache.run Cache.initial
      [Cache.CallGetOrSet "key" 60 "f"; Cache.CallClear; Cache.CallGetOrSet "key" 60 "f";
       Cache.RunFetcher 0; Cache.RunFetcher 1]%string in
  let settled :=
    Cache.run flying
      [Cache.FetcherSettles 0 (Cache.Fulfilled "first"); Cache.RunFinally 0;
       Cache.FetcherSettles 1 (Cache.Fulfilled "second"); Cache.RunFinally 1]%string in
  Cache.returnedFor "key" flying = [Cache.Shared 0; Cache.Shared 1]
  /\ Cache.invokedFor "key" flying = ["f"; "f"]%string
  /\ (fun p => (Cache.pendingKey p, Cache.inFlight p)) <$> Cache.promises flying
     = [("key"%string, true); ("key"%string, true)]
  /\ Cache.received settled (Cache.Shared 0) = Some (Cache.Fulfilled "first"%string)
  /\ Cache.received settled (Cache.Shared 1) = Some (Cache.Fulfilled "second"%string).
Proof. vm_compute. repeat split; reflexivity. Qed.

(** C3, as the claim states it, fails when [clear()] was called while an
    earlier fetch for the key was in flight: the fetch started after the
    [clear()] fails, but the earlier fetch has fulfilled and stored its value
    in between, so the store holds a value for the key when the failed fetch
    has settled, and the next call is served that value: no new fetch is
    started and its fetcher is not called. *)
Lemma getOrSet_failure_after_clear_served_from_store :
  let started : Cache.State string string :=
    Cache.run Cache.initial
      [Cache.CallGetOrSet "key" 60 "f"; Cache.RunFetcher 0; Cache.CallClear;
       Cache.CallGetOrSet "key" 60 "g"; Cache.RunFetcher 1]%string in
  let settled :=
    Cache.run started
      [Cache.FetcherSettles 0 (Cache.Fulfilled "fetched before clear"); Cache.RunFinally 0;
       Cache.FetcherSettles 1 (Cache.Rejected "HTTP 500"); Cache.RunFinally 1]%string in
  let next := Cache.getOrSet "key" 60 "h"%string settled in
  snd (MemoryCacheStore.get (Cache.store started) (Cache.now started) "key") = None
  /\ Cache.pendingFetches started !! "key" = Some 1%nat
  /\ Cache.received settled (Cache.Shared 1) = Some (Cache.Rejected "HTTP 500")
  /\ snd (MemoryCacheStore.get (Cache.store settled) (Cache.now settled) "key")
     = Some "fetched before clear"%string
  /\ snd next = Cache.Immediate "fetched before clear"%string
  /\ Cache.invokedFor "key" (fst next) = ["f"; "g"]%string
  /\ length (Cache.promises (fst next)) = 2%nat.
Proof. vm_compute. repeat split; reflexivity. Qed.

(** * The cache key of the user directory *)

(** C5, as amended. When [localeCompare] orders the tags given (the
    trimmed, non-blank ones: of two of them one stands before the other,
    transitively, and no two different ones compare equal; nothing is asked
    of [localeCompare] on other strings), the cache key of [getCachedUsers]
    does not depend on the order of the tags: two lists whose trimmed,
    non-blank tags are permutations of each other give the same key, whatever
    [includeArchived] is. An absent list, the empty list and a list of blank
    tags only all give the key that ends in [-], whatever [localeCompare]
    is. So two calls of [getCachedUsers] whose tags differ in order only
    share one fetch: the second is handed the promise of the first while it
    is in flight, and its value from the store afterwards, until it expires.
    (A tag given twice stays twice in the key.) *)
Theorem cacheKey_order_invariant (localeCompare : string -> string -> Z) :
  (forall (includeArchived : bool) (tags1 tags2 : list string),
      Directory.ordersTags localeCompare (Directory.trimmedTags tags1) ->
      Directory.trimmedTags tags1 ≡ₚ Directory.trimmedTags tags2 ->
      Directory.cacheKey localeCompare includeArchived (Some tags1)
      = Directory.cacheKey localeCompare includeArchived (Some tags2))
  /\ (forall (includeArchived : bool) (tags : list string),
         forallb Directory.blank tags = true ->
         Directory.cacheKey localeCompare includeArchived (Some tags)
         = Directory.cacheKey localeCompare includeArchived None)
  /\ (forall includeArchived : bool,
         Directory.cacheKey localeCompare includeArchived None
         = ("users:" +:+ (if includeArchived then "1" else "0") +:+ ":-")%string)
  /\ (forall (T : Type) (s : Cache.State T Service.Fetcher) (ttl : Z)
             (includeArchived : bool) (tags1 tags2 : list string) (users : T) (d1 d2 : Z),
         Directory.ordersTags localeCompare (Directory.trimmedTags tags1) ->
         Directory.trimmedTags tags1 ≡ₚ Directory.trimmedTags tags2 ->
         0 < ttl ->
         snd (MemoryCacheStore.get (Cache.store s) (Cache.now s)
                (Directory.cacheKey localeCompare includeArchived (Some tags1))) = None ->
         Cache.pendingFetches s
           !! Directory.cacheKey localeCompare includeArchived (Some tags1) = None ->
         d2 < ttl * 1000 ->
         let first := Service.getCachedUsers localeCompare ttl includeArchived (Some tags1) s in
         let id := length (Cache.promises s) in
         let stored :=
           Cache.run (fst first)
             [Cache.RunFetcher id; Cache.Tick d1;
              Cache.FetcherSettles id (Cache.Fulfilled users); Cache.RunFinally id;
              Cache.Tick d2] in
         let second :=
           Service.getCachedUsers localeCompare ttl includeArchived (Some tags2) stored in
         snd (Service.getCachedUsers localeCompare ttl includeArchived (Some tags2) (fst first))
         = Cache.Shared id
         /\ snd second = Cache.Immediate users
         /\ length (Cache.invocations (fst second)) = S (length (Cache.invocations s))).
Proof.
  assert (Hkey : forall (includeArchived : bool) (tags1 tags2 : list string),
             Directory.ordersTags localeCompare (Directory.trimmedTags tags1) ->
             Directory.trimmedTags tags1 ≡ₚ Directory.trimmedTags tags2 ->
             Directory.cacheKey localeCompare includeArchived (Some tags1)
             = Directory.cacheKey localeCompare includeArchived (Some tags2)).
  { intros includeArchived tags1 tags2 Horders Hp.
    unfold Directory.cacheKey, Directory.normalizedTags. simpl.
    now rewrite (DirectoryFacts.sort_of_Permutation localeCompare _ Horders _ Hp). }
  split; [exact Hkey|]. split; [|split].
  - intros includeArchived tags Hb.
    unfold Directory.cacheKey, Directory.normalizedTags. simpl.
    now rewrite (DirectoryFacts.trimmedTags_blank tags Hb).
  - intros []; reflexivity.
  - intros T s ttl includeArchived tags1 tags2 users d1 d2 Horders Hp Httl Hmiss Hpend Hd
      first id stored second.
    subst second stored first. unfold Service.getCachedUsers.
    rewrite <- (Hkey includeArchived tags1 tags2 Horders Hp).
    set (key := Directory.cacheKey localeCompare includeArchived (Some tags1)) in *.
    split.
    + now apply CacheFacts.joins.
    + pose proof (CacheFacts.served s key ttl
                    ("/users"%string, Directory.queryParams localeCompare includeArchived
                                        (Some tags1))
                    users d1 d2 ttl
                    ("/users"%string, Directory.queryParams localeCompare includeArchived
                                        (Some tags2))
                    Httl Hmiss Hpend Httl Hd) as [Hserved Hinv].
      split; [exact Hserved|].
      etransitivity; [exact (f_equal length Hinv)|].
      rewrite length_app. simpl. lia.
Qed.

Lemma cacheKey_order_invariant_witness :
  Directory.cacheKey Directory.codeUnitCompare true (Some [" b"; "a "; ""]%string)
  = Directory.cacheKey Directory.codeUnitCompare true (Some ["a"; "b"]%string)
  /\ Directory.cacheKey Directory.codeUnitCompare false (Some ["  "; ""]%string)
     = Directory.cacheKey Directory.codeUnitCompare false None
  /\ Directory.cacheKey Directory.codeUnitCompare false None = "users:0:-"%string.
Proof.
  pose proof (cacheKey_order_invariant Directory.codeUnitCompare)
    as [Horder [Hblank [Habsent _]]].
  split; [|split].
  - apply Horder; [apply DirectoryFacts.codeUnitCompare_orders|].
    vm_compute. apply perm_swap.
  - apply Hblank. reflexivity.
  - apply Habsent.
Defined.

(** C5, as the claim states it, fails for a repeated tag: the key keeps
    both copies, so [['a','a']] and [['a']] use two cache entries. *)
Lemma cacheKey_keeps_duplicates :
  Directory.cacheKey Directory.codeUnitCompare false (Some ["a"; "a"]%string)
  = "users:0:a|a"%string
  /\ Directory.cacheKey Directory.codeUnitCompare false (Some ["a"]%string)
     = "users:0:a"%string
  /\ String.eqb
       (Directory.cacheKey Directory.codeUnitCompare false (Some ["a"; "a"]%string))
       (Directory.cacheKey Directory.codeUnitCompare false (Some ["a"]%string))
     = false.
Proof. vm_compute. repeat split; reflexivity. Qed.

(** * The store on its own *)

(** X1. A value set with [ttlSeconds > 0] at the time [t0] is read back at
    every time before [t0 + ttlSeconds * 1000], and the read changes
    nothing; from that time on the read returns nothing and removes the
    entry, leaving the store as if the key had been deleted. *)
Theorem store_set_then_get
    {T : Type} (store : gmap string (MemoryCacheStore.MemoryCacheEntry T))
    (t0 t ttl : Z) (key : string) (v : T) :
  0 < ttl ->
  let written := MemoryCacheStore.set store t0 key v (Some ttl) in
  (t < t0 + ttl * 1000 -> MemoryCacheStore.get written t key = (written, Some v))
  /\ (t0 + ttl * 1000 <= t ->
      MemoryCacheStore.get written t key = (MemoryCacheStore.delete store key, None)).
Proof.
  intros Httl written. subst written.
  rewrite CacheFacts.set_positive by exact Httl. split; intros Ht.
  - apply (CacheFacts.get_live _ _ _ _ (t0 + ttl * 1000));
      [apply lookup_insert_eq | exact Ht].
  - rewrite (CacheFacts.get_expired _ t key v (t0 + ttl * 1000));
      [|apply lookup_insert_eq | exact Ht].
    unfold MemoryCacheStore.delete. now rewrite delete_insert_eq.
Qed.

Lemma store_set_then_get_witness :
  MemoryCacheStore.get (MemoryCacheStore.set (T := string) ∅ 5000 "k" "v" (Some 2)) 6999 "k"
  = (MemoryCacheStore.set ∅ 5000 "k" "v"%string (Some 2), Some "v"%string)
  /\ MemoryCacheStore.get (MemoryCacheStore.set (T := string) ∅ 5000 "k" "v" (Some 2)) 7000 "k"
     = (MemoryCacheStore.delete ∅ "k", None).
Proof.
  destruct (store_set_then_get (T := string) ∅ 5000 6999 2 "k" "v"%string ltac:(lia))
    as [Hlive _].
  destruct (store_set_then_get (T := string) ∅ 5000 7000 2 "k" "v"%string ltac:(lia))
    as [_ Hdead].
  split; [apply Hlive; lia | apply Hdead; lia].
Defined.

(** X2. [set] with a ttl of zero or less stores nothing and removes what
    was stored under the key: the store is the one [delete] gives, and a
    read at any time finds nothing. [set] without a ttl stores a value that
    is read back at every time. *)
Theorem store_set_without_expiry_or_disabled {T : Type} :
  (forall (store : gmap string (MemoryCacheStore.MemoryCacheEntry T))
          (t0 t ttl : Z) (key : string) (v : T),
      ttl <= 0 ->
      MemoryCacheStore.set store t0 key v (Some ttl) = MemoryCacheStore.delete store key
      /\ snd (MemoryCacheStore.get (MemoryCacheStore.set store t0 key v (Some ttl)) t key)
         = None)
  /\ (forall (store : gmap string (MemoryCacheStore.MemoryCacheEntry T))
             (t0 t : Z) (key : string) (v : T),
         MemoryCacheStore.get (MemoryCacheStore.set store t0 key v None) t key
         = (MemoryCacheStore.set store t0 key v None, Some v)).
Proof.
  split.
  - intros store t0 t ttl key v Httl. unfold MemoryCacheStore.set.
    destruct (Z.leb_spec ttl 0); [|lia]. split; [reflexivity|].
    apply CacheFacts.get_absent_returns. apply lookup_delete_eq.
  - intros store t0 t key v. unfold MemoryCacheStore.set, MemoryCacheStore.get.
    now rewrite lookup_insert_eq.
Qed.

(** X3. What is done to one key leaves every other key as it reads: a
    [set], a [delete] or a [get] of [k] (which may purge [k]) does not change
    what a [get] of another key returns. *)
Theorem store_keys_independent
    {T : Type} (store : gmap string (MemoryCacheStore.MemoryCacheEntry T))
    (k key : string) (t0 t : Z) (v : T) (ttl : option Z) :
  k <> key ->
  snd (MemoryCacheStore.get (MemoryCacheStore.set store t0 k v ttl) t key)
  = snd (MemoryCacheStore.get store t key)
  /\ snd (MemoryCacheStore.get (MemoryCacheStore.delete store k) t key)
     = snd (MemoryCacheStore.get store t key)
  /\ snd (MemoryCacheStore.get (fst (MemoryCacheStore.get store t0 k)) t key)
     = snd (MemoryCacheStore.get store t key).
Proof.
  intros Hne.
  assert (Hsame : forall store' : gmap string (MemoryCacheStore.MemoryCacheEntry T),
             store' !! key = store !! key ->
             snd (MemoryCacheStore.get store' t key) = snd (MemoryCacheStore.get store t key)).
  { intros store' H. unfold MemoryCacheStore.get. rewrite H.
    destruct (store !! key) as [e|]; [|reflexivity].
    destruct (MemoryCacheStore.expiresAt e) as [x|]; [|reflexivity].
    destruct (x <=? t); reflexivity. }
  split; [|split]; apply Hsame.
  - now apply CacheFacts.set_other.
  - unfold MemoryCacheStore.delete. now apply lookup_delete_ne.
  - unfold MemoryCacheStore.get. destruct (store !! k) as [e|]; [|reflexivity].
    destruct (MemoryCacheStore.expiresAt e) as [x|]; [|reflexivity].
    destruct (x <=? t0); [|reflexivity]. simpl. now apply lookup_delete_ne.
Qed.

Lemma store_keys_independent_witness :
  snd (MemoryCacheStore.get
         (MemoryCacheStore.set (MemoryCacheStore.set (T := string) ∅ 0 "a" "1" None)
            0 "b" "2" (Some 1)) 5000 "a")
  = snd (MemoryCacheStore.get (MemoryCacheStore.set (T := string) ∅ 0 "a" "1" None) 5000 "a").
Proof.
  apply (store_keys_independent (T := string)
           (MemoryCacheStore.set ∅ 0 "a" "1"%string None) "b" "a" 0 5000 "2"%string (Some 1)).
  discriminate.
Defined.

(** X4. [get] returns a value exactly when the key has an entry that has
    no expiry or whose expiry lies after the time of the read, and then
    leaves the store as it is; otherwise the key has no entry afterwards.
    Reading again at the same time returns the same and changes nothing
    more, and what has expired stays expired at every later time. *)
Theorem store_get_never_stale
    {T : Type} (store : gmap string (MemoryCacheStore.MemoryCacheEntry T))
    (t : Z) (key : string) :
  (forall v : T,
      snd (MemoryCacheStore.get store t key) = Some v <->
      exists e : MemoryCacheStore.MemoryCacheEntry T,
        store !! key = Some e /\ MemoryCacheStore.value e = v
        /\ match MemoryCacheStore.expiresAt e with Some x => t < x | None => True end)
  /\ (forall v : T,
         snd (MemoryCacheStore.get store t key) = Some v ->
         fst (MemoryCacheStore.get store t key) = store)
  /\ (snd (MemoryCacheStore.get store t key) = None ->
      fst (MemoryCacheStore.get store t key) !! key = None)
  /\ MemoryCacheStore.get (fst (MemoryCacheStore.get store t key)) t key
     = MemoryCacheStore.get store t key
  /\ (forall t' : Z,
         t <= t' -> snd (MemoryCacheStore.get store t key) = None ->
         snd (MemoryCacheStore.get store t' key) = None).
Proof.
  unfold MemoryCacheStore.get.
  destruct (store !! key) as [e|] eqn:He.
  - destruct (MemoryCacheStore.expiresAt e) as [x|] eqn:Hx.
    + destruct (Z.leb_spec x t) as [Hle|Hlt]; simpl.
      * split; [|split; [|split; [|split]]].
        -- intros v. split; [discriminate|]. intros (e' & He' & _ & Hlive).
           injection He' as <-. rewrite Hx in Hlive. lia.
        -- discriminate.
        -- intros _. apply lookup_delete_eq.
        -- now rewrite lookup_delete_eq.
        -- intros t' Ht' _. destruct (Z.leb_spec x t'); [reflexivity | lia].
      * split; [|split; [|split; [|split]]].
        -- intros v. split.
           ++ intros H. injection H as <-. exists e. rewrite Hx. auto.
           ++ intros (e' & He' & <- & _). now injection He' as <-.
        -- reflexivity.
        -- discriminate.
        -- rewrite He, Hx. destruct (Z.leb_spec x t); [lia | reflexivity].
        -- discriminate.
    + simpl. split; [|split; [|split; [|split]]].
      * intros v. split.
        -- intros H. injection H as <-. exists e. rewrite Hx. auto.
        -- intros (e' & He' & <- & _). now injection He' as <-.
      * reflexivity.
      * discriminate.
      * now rewrite He, Hx.
      * discriminate.
  - simpl. split; [|split; [|split; [|split]]].
    + intros v. split; [discriminate|]. intros (e' & He' & _). discriminate.
    + discriminate.
    + intros _. exact He.
    + now rewrite He.
    + reflexivity.
Qed.

(** * The cache around the store *)

(** X5. [setStore] empties the store it is handed: whatever the new store
    held, a [get] finds nothing afterwards, and the next [getOrSet] with a
    positive ttl creates a new promise whose reaction calls the caller's
    fetcher, also when a fetch for the key was pending before. *)
Theorem setStore_discards_contents
    {T F : Type} (newStore : gmap string (MemoryCacheStore.MemoryCacheEntry T))
    (s : Cache.State T F) (key : string) (ttl : Z) (f : F) :
  0 < ttl ->
  let s0 := CacheFacade.setStore newStore s in
  let id := length (Cache.promises s) in
  Cache.store s0 = ∅
  /\ snd (CacheFacade.get key s0) = None
  /\ snd (Cache.getOrSet key ttl f s0) = Cache.Shared id
  /\ Cache.invokedFor key (Cache.runFetcher id (fst (Cache.getOrSet key ttl f s0)))
     = Cache.invokedFor key s ++ [f].
Proof.
  intros Httl s0 id.
  assert (Hstore : Cache.store s0 = ∅) by reflexivity.
  assert (Hpend : Cache.pendingFetches s0 !! key = None) by apply lookup_empty.
  assert (Hnone : Cache.store s0 !! key = None) by (rewrite Hstore; apply lookup_empty).
  destruct (CacheFacts.getOrSet_starts s0 key ttl f Httl Hnone Hpend)
    as (Hh & _ & _ & _ & Hinv).
  split; [exact Hstore|]. split; [|split].
  - unfold CacheFacade.get.
    pose proof (CacheFacts.get_absent_returns (Cache.store s0) (Cache.now s0) key Hnone) as H.
    destruct (MemoryCacheStore.get (Cache.store s0) (Cache.now s0) key). exact H.
  - exact Hh.
  - exact Hinv.
Qed.

Lemma setStore_discards_contents_witness :
  snd (Cache.getOrSet "k" 60 tt
         (CacheFacade.setStore (MemoryCacheStore.set ∅ 0 "k" "old"%string None)
            (Cache.initial (T := string) (F := unit))))
  = Cache.Shared 0.
Proof.
  destruct (setStore_discards_contents
              (MemoryCacheStore.set ∅ 0 "k" "old"%string None)
              (Cache.initial (T := string) (F := unit)) "k" 60 tt ltac:(lia))
    as (_ & _ & H & _).
  exact H.
Defined.

(** X6. In a cache that was never cleared, two promises in flight are for
    different keys: whatever calls, fetcher runs, settlements and clock
    ticks happened, at most one fetch per key is in flight. *)
Theorem one_fetch_in_flight_per_key
    {T F : Type} (history : list (Cache.Event T F))
    (id1 id2 : nat) (p1 p2 : Cache.Pending T F) :
  Cache.withoutClear history = true ->
  Cache.promises (Cache.run Cache.initial history) !! id1 = Some p1 ->
  Cache.promises (Cache.run Cache.initial history) !! id2 = Some p2 ->
  Cache.inFlight p1 = true -> Cache.inFlight p2 = true ->
  Cache.pendingKey p1 = Cache.pendingKey p2 ->
  id1 = id2.
Proof.
  intros Hhist H1 H2 F1 F2 Hkey.
  pose proof (CacheFacts.registered_run history Cache.initial
                CacheFacts.registered_initial Hhist) as Hreg.
  pose proof (Hreg id1 p1 H1 F1) as R1.
  pose proof (Hreg id2 p2 H2 F2) as R2.
  rewrite Hkey in R1. congruence.
Qed.

Lemma one_fetch_in_flight_per_key_witness :
  exists p : Cache.Pending string unit,
    Cache.promises
      (Cache.run Cache.initial
         [Cache.CallGetOrSet "a" 60 tt; Cache.CallGetOrSet "b" 60 tt;
          Cache.RunFetcher 0%nat; Cache.CallGetOrSet "a" 60 tt]) !! 0%nat = Some p
    /\ Cache.inFlight p = true
    /\ 0%nat = 0%nat.
Proof.
  eexists. split; [vm_compute; reflexivity|]. split; [reflexivity|].
  eapply (one_fetch_in_flight_per_key (T := string) (F := unit)
            [Cache.CallGetOrSet "a" 60 tt; Cache.CallGetOrSet "b" 60 tt;
             Cache.RunFetcher 0%nat; Cache.CallGetOrSet "a" 60 tt] 0 0).
  - reflexivity.
  - vm_compute; reflexivity.
  - vm_compute; reflexivity.
  - reflexivity.
  - reflexivity.
  - reflexivity.
Defined.



(** * More on pagination *)

Module PaginationMore.

Import Pagination.



End PaginationMore.



(** X9. A response whose [X-Total] or [X-Per-Page] does not start with a
    number (after white space and a sign) ends the loop at that page,
    whatever the other headers say; when it is the first response, its items
    are the result and one request was made. *)
Theorem fetchAllPages_unreadable_headers_stop
    {T : Type} (request : Z -> string + Pagination.PageResponse T)
    (r : Pagination.PageResponse T) :
  JsNum.parseInt (default EmptyString (Pagination.xTotal r)) = JsNum.NaN
  \/ JsNum.parseInt (default EmptyString (Pagination.xPerPage r)) = JsNum.NaN ->
  (forall currentPage : Z, Pagination.hasMorePages currentPage r = false)
  /\ (request 1 = inr r ->
      forall fuel : nat,
        Pagination.fetchAllPages (S fuel) request = Pagination.Done (Pagination.data r) [1]).
Proof.
  intros Hnan.
  assert (Hstop : forall currentPage : Z, Pagination.hasMorePages currentPage r = false).
  { intros p. unfold Pagination.hasMorePages, Pagination.totalPages.
    destruct (_ && _ && _); [|reflexivity].
    destruct Hnan as [-> | ->].
    - reflexivity.
    - destruct (JsNum.parseInt _); reflexivity. }
  split; [exact Hstop|].
  intros Hreq fuel. unfold Pagination.fetchAllPages. cbn [Pagination.fetchLoop].
  now rewrite Hreq, Hstop.
Qed.

Lemma fetchAllPages_unreadable_headers_stop_witness :
  Pagination.fetchAllPages 10
    (fun _ : Z =>
       inr {| Pagination.data := [7]; Pagination.xPage := Some "1"%string;
              Pagination.xTotal := Some "many"%string;
              Pagination.xPerPage := Some "2"%string |})
  = Pagination.Done [7] [1].
Proof.
  refine (proj2 (fetchAllPages_unreadable_headers_stop
                   (fun _ : Z =>
                      inr {| Pagination.data := [7]; Pagination.xPage := Some "1"%string;
                             Pagination.xTotal := Some "many"%string;
                             Pagination.xPerPage := Some "2"%string |})
                   {| Pagination.data := [7]; Pagination.xPage := Some "1"%string;
                      Pagination.xTotal := Some "many"%string;
                      Pagination.xPerPage := Some "2"%string |} _) eq_refl 9%nat).
  left. reflexivity.
Defined.

(** X10. A page whose request throws fails the whole call: when the first
    [n] pages ask for more and the request for page [n + 1] throws,
    [fetchAllPages] throws that error after exactly [n + 1] requests, and
    the items of the pages before are not returned. *)
Theorem fetchAllPages_page_failure_propagates
    {T : Type} (request : Z -> string + Pagination.PageResponse T)
    (n : nat) (message : string) :
  (forall i : nat, (i < n)%nat ->
     exists r : Pagination.PageResponse T,
       request (1 + Z.of_nat i) = inr r
       /\ Pagination.hasMorePages (1 + Z.of_nat i) r = true) ->
  request (1 + Z.of_nat n) = inl message ->
  forall fuel : nat,
    (n < fuel)%nat ->
    Pagination.fetchAllPages fuel request
    = Pagination.Threw message (Pagination.pagesFrom 1 (S n)).
Proof.
  intros Hpages Hfail fuel Hfuel. unfold Pagination.fetchAllPages.
  replace fuel with (n + S (fuel - S n))%nat by lia.
  rewrite PaginationFacts.fetchLoop_prefix by exact Hpages.
  cbn [Pagination.fetchLoop]. rewrite Hfail. f_equal.
  cbn [app]. apply PaginationFacts.pagesFrom_snoc.
Qed.

Lemma fetchAllPages_page_failure_propagates_witness :
  Pagination.fetchAllPages 10
    (fun page : Z => if page =? 3 then inl "HTTP 500"%string else Pagination.threePages page)
  = Pagination.Threw "HTTP 500"%string [1; 2; 3].
Proof.
  apply (fetchAllPages_page_failure_propagates
           (fun page : Z =>
              if page =? 3 then inl "HTTP 500"%string else Pagination.threePages page)
           2 "HTTP 500"%string).
  - intros [|[|i]] Hi; [| |lia]; eexists; (split; [reflexivity | vm_compute; reflexivity]).
  - reflexivity.
  - lia.
Defined.

(** * More on the two searches *)

Module SearchFacts.

Import JsFacts.

Lemma prefix_empty (s : string) : String.prefix "" s = true.
Proof. destruct s; reflexivity. Qed.

Lemma prefix_spec (t s : string) :
  String.prefix t s = true <-> exists b : string, s = t +:+ b.
Proof.
  revert t. induction s as [|c s IH]; intros [|d t].
  - split; [exists EmptyString; reflexivity | reflexivity].
  - split; [discriminate|]. intros [b H]. rewrite append_cons in H. discriminate.
  - split; [exists (String c s); reflexivity | reflexivity].
  - simpl. destruct (ascii_dec d c) as [->|Hne].
    + rewrite IH. split; intros [b H]; exists b.
      * rewrite append_cons. now f_equal.
      * rewrite append_cons in H. now injection H.
    + split; [discriminate|]. intros [b H]. rewrite append_cons in H.
      injection H as H _. congruence.
Qed.

Lemma includes_cons (c : ascii) (s t : string) :
  Js.includes (String c s) t = String.prefix t (String c s) || Js.includes s t.
Proof. reflexivity. Qed.

(** [s.includes(t)] holds exactly when [t] stands somewhere in [s]. *)
Lemma includes_spec (s t : string) :
  Js.includes s t = true <-> exists a b : string, s = a +:+ t +:+ b.
Proof.
  induction s as [|c s IH].
  - cbn [Js.includes]. rewrite orb_false_r, prefix_spec. split.
    + intros [b H]. exists EmptyString, b. exact H.
    + intros [[|x a] [b H]]; [exists b; exact H|].
      rewrite append_cons in H. discriminate.
  - rewrite includes_cons, orb_true_iff, prefix_spec, IH. split.
    + intros [[b H]|[a [b H]]].
      * exists EmptyString, b. exact H.
      * exists (String c a), b. rewrite append_cons. now f_equal.
    + intros [[|x a] [b H]].
      * left. exists b. exact H.
      * right. rewrite append_cons in H. injection H as _ H. now exists a, b.
Qed.

Lemma includes_char_cons (c d : ascii) (s : string) :
  Js.includes (String c s) (String d EmptyString) = false ->
  c <> d /\ Js.includes s (String d EmptyString) = false.
Proof.
  rewrite includes_cons. intros H. apply orb_false_elim in H as [Hp Hs].
  split; [|exact Hs]. intros ->. simpl in Hp.
  destruct (ascii_dec d d); [|contradiction].
  now rewrite prefix_empty in Hp.
Qed.

(** What contains the longer text contains every part of it. *)
Lemma includes_trans (s t u : string) :
  Js.includes s t = true -> Js.includes t u = true -> Js.includes s u = true.
Proof.
  rewrite !includes_spec. intros [a [b ->]] [a' [b' ->]].
  exists (a +:+ a'), (b' +:+ b). now rewrite !append_assoc.
Qed.

Lemma filter_refines {A : Type} (f g : A -> bool) (l : list A) :
  (forall x, f x = true -> g x = true) ->
  List.filter f (List.filter g l) = List.filter f l.
Proof.
  intros H. induction l as [|x l IH]; simpl; [reflexivity|].
  destruct (g x) eqn:Hg; simpl.
  - now rewrite IH.
  - destruct (f x) eqn:Hf; [|exact IH]. apply H in Hf. congruence.
Qed.

Lemma filter_sublist {A : Type} (f : A -> bool) (l : list A) :
  sublist (List.filter f l) l.
Proof.
  induction l as [|x l IH]; simpl; [constructor|].
  destruct (f x); now constructor.
Qed.

Lemma projectMatches_narrows (q1 q2 : string) (p : Directory.Project) :
  Js.includes q2 q1 = true ->
  Directory.projectMatches q2 p = true -> Directory.projectMatches q1 p = true.
Proof.
  intros Hq. unfold Directory.projectMatches. rewrite !orb_true_iff.
  intros [H|H]; [left; eapply includes_trans; eauto|]. right.
  destruct (Directory.projectDescription p) as [d|]; [|discriminate].
  apply andb_prop in H as [Ht Hd]. rewrite Ht. simpl.
  eapply includes_trans; eauto.
Qed.

Lemma userMatches_narrows (q1 q2 : string) (u : Directory.User) :
  Js.includes q2 q1 = true ->
  Directory.userMatches q2 u = true -> Directory.userMatches q1 u = true.
Proof.
  intros Hq. unfold Directory.userMatches. rewrite !existsb_exists.
  intros [target [Hin H]]. exists target. split; [exact Hin|].
  eapply includes_trans; eauto.
Qed.

End SearchFacts.

(** X11. Narrowing a project search: when the lower-cased query [q1] is
    part of the lower-cased query [q2], the projects found for [q2] are
    among those found for [q1], in the same order, and searching for [q2]
    within the results for [q1] finds the same as searching all projects.
    Every result is one of the projects searched, in their order. *)
Theorem searchProjects_narrows
    (allProjects : list Directory.Project) (q1 q2 : string) :
  Js.includes (Js.toLowerCase q2) (Js.toLowerCase q1) = true ->
  Directory.searchProjects (Directory.searchProjects allProjects q1) q2
  = Directory.searchProjects allProjects q2
  /\ sublist (Directory.searchProjects allProjects q2)
       (Directory.searchProjects allProjects q1)
  /\ sublist (Directory.searchProjects allProjects q1) allProjects.
Proof.
  intros Hq. unfold Directory.searchProjects.
  assert (E : List.filter (Directory.projectMatches (Js.toLowerCase q2))
                (List.filter (Directory.projectMatches (Js.toLowerCase q1)) allProjects)
              = List.filter (Directory.projectMatches (Js.toLowerCase q2)) allProjects).
  { apply SearchFacts.filter_refines. intros p.
    now apply SearchFacts.projectMatches_narrows. }
  split; [exact E|]. split.
  - rewrite <- E. apply SearchFacts.filter_sublist.
  - apply SearchFacts.filter_sublist.
Qed.

Lemma searchProjects_narrows_witness :
  let projects :=
    [ {| Directory.projectName := "Website Relaunch";
         Directory.projectDescription := None |};
      {| Directory.projectName := "Intranet";
         Directory.projectDescription := Some "internal web portal"%string |};
      {| Directory.projectName := "Payroll";
         Directory.projectDescription := None |} ] in
  Directory.searchProjects (Directory.searchProjects projects "WEB") "Website"
  = Directory.searchProjects projects "Website".
Proof.
  intros projects.
  apply (searchProjects_narrows projects "WEB" "Website"). reflexivity.
Defined.

Module TrimFacts.

Import JsFacts.

Lemma isWhiteSpace_lowerChar (c : ascii) :
  Js.isWhiteSpace (Js.lowerChar c) = Js.isWhiteSpace c.
Proof. destruct c as [[] [] [] [] [] [] [] []]; reflexivity. Qed.

Lemma lowerChar_idempotent (c : ascii) : Js.lowerChar (Js.lowerChar c) = Js.lowerChar c.
Proof. destruct c as [[] [] [] [] [] [] [] []]; reflexivity. Qed.

Lemma toLowerCase_idempotent (s : string) :
  Js.toLowerCase (Js.toLowerCase s) = Js.toLowerCase s.
Proof.
  induction s as [|c s IH]; [reflexivity|].
  cbn [Js.toLowerCase]. now rewrite lowerChar_idempotent, IH.
Qed.

Lemma trimStart_toLowerCase (s : string) :
  Js.trimStart (Js.toLowerCase s) = Js.toLowerCase (Js.trimStart s).
Proof.
  induction s as [|c s IH]; [reflexivity|].
  cbn [Js.toLowerCase Js.trimStart]. rewrite isWhiteSpace_lowerChar.
  destruct (Js.isWhiteSpace c); [exact IH | reflexivity].
Qed.

Lemma trimEnd_toLowerCase (s : string) :
  Js.trimEnd (Js.toLowerCase s) = Js.toLowerCase (Js.trimEnd s).
Proof.
  induction s as [|c s IH]; [reflexivity|].
  cbn [Js.toLowerCase Js.trimEnd]. rewrite IH, isWhiteSpace_lowerChar.
  destruct (Js.trimEnd s); [destruct (Js.isWhiteSpace c)|]; reflexivity.
Qed.

Lemma trim_toLowerCase (s : string) :
  Js.trim (Js.toLowerCase s) = Js.toLowerCase (Js.trim s).
Proof. unfold Js.trim. now rewrite trimStart_toLowerCase, trimEnd_toLowerCase. Qed.

(** What [trimStart] leaves starts with a character that is not white
    space. *)
Lemma trimStart_head (s : string) :
  Js.trimStart s = EmptyString
  \/ exists (c : ascii) (r : string),
       Js.trimStart s = String c r /\ Js.isWhiteSpace c = false.
Proof.
  induction s as [|c s IH]; [now left|].
  cbn [Js.trimStart]. destruct (Js.isWhiteSpace c) eqn:E; [exact IH|].
  right. now exists c, s.
Qed.

Lemma trimEnd_head (c : ascii) (r : string) :
  Js.isWhiteSpace c = false -> Js.trimEnd (String c r) <> EmptyString.
Proof.
  intros H. cbn [Js.trimEnd]. rewrite H. destruct (Js.trimEnd r); discriminate.
Qed.

(** A blank string is one that [trimStart] empties. *)
Lemma blank_trimStart (s : string) :
  Directory.blank s = true <-> Js.trimStart s = EmptyString.
Proof.
  unfold Directory.blank, Js.trim. split.
  - intros H. destruct (trimStart_head s) as [E|(c & r & E & Hc)]; [exact E|].
    rewrite E in H. pose proof (trimEnd_head c r Hc).
    destruct (Js.trimEnd (String c r)); [contradiction | discriminate].
  - intros ->. reflexivity.
Qed.

Lemma trimStart_blank_app (ws s : string) :
  Js.trimStart ws = EmptyString -> Js.trimStart (ws +:+ s) = Js.trimStart s.
Proof.
  induction ws as [|c ws IH]; intros H; [reflexivity|].
  rewrite append_cons. cbn [Js.trimStart] in *.
  destruct (Js.isWhiteSpace c); [now apply IH | discriminate].
Qed.

Lemma trimEnd_blank (ws : string) :
  Js.trimStart ws = EmptyString -> Js.trimEnd ws = EmptyString.
Proof.
  induction ws as [|c ws IH]; intros H; [reflexivity|].
  cbn [Js.trimStart Js.trimEnd] in *.
  destruct (Js.isWhiteSpace c); [|discriminate]. now rewrite IH.
Qed.

Lemma trimEnd_app_blank (s ws : string) :
  Js.trimStart ws = EmptyString -> Js.trimEnd (s +:+ ws) = Js.trimEnd s.
Proof.
  intros H. induction s as [|c s IH]; [now apply trimEnd_blank|].
  rewrite append_cons. cbn [Js.trimEnd]. now rewrite IH.
Qed.

Lemma trim_app_blank (s ws : string) :
  Js.trimStart ws = EmptyString -> Js.trim (s +:+ ws) = Js.trim s.
Proof.
  intros H. unfold Js.trim. induction s as [|c s IH].
  - change ("" +:+ ws) with ws. now rewrite H.
  - rewrite append_cons. cbn [Js.trimStart].
    destruct (Js.isWhiteSpace c); [exact IH|].
    rewrite <- append_cons. now apply trimEnd_app_blank.
Qed.

(** White space around a string does not change what [trim] gives. *)
Lemma trim_padding (before s after : string) :
  Directory.blank before = true -> Directory.blank after = true ->
  Js.trim (before +:+ s +:+ after) = Js.trim s.
Proof.
  rewrite !blank_trimStart. intros Hb Ha.
  transitivity (Js.trim (s +:+ after)); [|now apply trim_app_blank].
  unfold Js.trim. now rewrite trimStart_blank_app.
Qed.

End TrimFacts.

(** X12. [searchUsers] reads its query without regard to case and to white
    space around it: the query padded with white space on either side, and
    the query in lower case, find the same users as the query itself. *)
Theorem searchUsers_ignores_case_and_padding
    (allUsers : list Directory.User) (query before after : string) :
  Directory.blank before = true -> Directory.blank after = true ->
  Directory.searchUsers allUsers (before +:+ query +:+ after)
  = Directory.searchUsers allUsers query
  /\ Directory.searchUsers allUsers (Js.toLowerCase query)
     = Directory.searchUsers allUsers query.
Proof.
  intros Hb Ha. unfold Directory.searchUsers. split.
  - now rewrite TrimFacts.trim_padding.
  - now rewrite TrimFacts.trim_toLowerCase, TrimFacts.toLowerCase_idempotent.
Qed.

Lemma searchUsers_ignores_case_and_padding_witness :
  let ada := {| Directory.firstname := Some "Ada"%string;
                Directory.lastname := Some "Lovelace"%string;
                Directory.email := None; Directory.info := None;
                Directory.tags := None; Directory.unit := None;
                Directory.role := None; Directory.mobile_phone := None;
                Directory.work_phone := None |} in
  Directory.searchUsers [ada] ("  " +:+ "LOVE" +:+ " ") = Directory.searchUsers [ada] "LOVE".
Proof.
  intros ada.
  apply (searchUsers_ignores_case_and_padding [ada] "LOVE" "  " " "); reflexivity.
Defined.

(** X13. Narrowing a user search: when the normalized query [q1] (trimmed,
    lower case) is part of the normalized [q2], searching for [q2] within
    the users found for [q1] finds the same as searching all users, and the
    users found for [q2] are among those found for [q1], in the same
    order. *)
Theorem searchUsers_narrows (allUsers : list Directory.User) (q1 q2 : string) :
  Js.includes (Js.toLowerCase (Js.trim q2)) (Js.toLowerCase (Js.trim q1)) = true ->
  Directory.searchUsers (Directory.searchUsers allUsers q1) q2
  = Directory.searchUsers allUsers q2
  /\ sublist (Directory.searchUsers allUsers q2) (Directory.searchUsers allUsers q1).
Proof.
  intros Hq.
  assert (Hsub : forall (users : list Directory.User) (q : string),
             sublist (Directory.searchUsers users q) users).
  { intros users q. unfold Directory.searchUsers.
    destruct (_ =? 0)%nat; [reflexivity | apply SearchFacts.filter_sublist]. }
  assert (E : Directory.searchUsers (Directory.searchUsers allUsers q1) q2
              = Directory.searchUsers allUsers q2).
  { unfold Directory.searchUsers.
    destruct (Js.toLowerCase (Js.trim q1)) as [|c1 n1] eqn:E1; [reflexivity|].
    destruct (Js.toLowerCase (Js.trim q2)) as [|c2 n2] eqn:E2; [discriminate|].
    cbn [String.length Nat.eqb].
    apply SearchFacts.filter_refines. intros u.
    now apply SearchFacts.userMatches_narrows. }
  split; [exact E|]. rewrite <- E. apply Hsub.
Qed.

Lemma searchUsers_narrows_witness :
  let ada := {| Directory.firstname := Some "Ada"%string;
                Directory.lastname := Some "Lovelace"%string;
                Directory.email := None; Directory.info := None;
                Directory.tags := None; Directory.unit := None;
                Directory.role := None; Directory.mobile_phone := None;
                Directory.work_phone := None |} in
  let alan := {| Directory.firstname := Some "Alan"%string;
                 Directory.lastname := Some "Turing"%string;
                 Directory.email := None; Directory.info := None;
                 Directory.tags := None; Directory.unit := None;
                 Directory.role := None; Directory.mobile_phone := None;
                 Directory.work_phone := None |} in
  Directory.searchUsers (Directory.searchUsers [ada; alan] " a") "Ada "
  = Directory.searchUsers [ada; alan] "Ada ".
Proof.
  intros ada alan.
  apply (searchUsers_narrows [ada; alan] " a" "Ada "). reflexivity.
Defined.

(** * More on the redaction of headers *)

Module RedactionMore.

Import JsFacts.

(** In the header that [defaultHeaders] builds, the first [token=] is the
    one the service wrote, whatever the key is. *)
Lemma indexOf_default (apiKey : string) :
  Js.indexOf (Js.toLowerCase ("Token " +:+ "token=" +:+ apiKey)) "token=" = Some 6%nat.
Proof.
  change ("Token " +:+ "token=" +:+ apiKey)
    with (String "T" (String "o" (String "k" (String "e" (String "n" (String " "
           (String "t" (String "o" (String "k" (String "e" (String "n" (String "="
              apiKey)))))))))))).
  cbn [Js.toLowerCase].
  change (Js.lowerChar "T") with "t"%char. change (Js.lowerChar "o") with "o"%char.
  change (Js.lowerChar "k") with "k"%char. change (Js.lowerChar "e") with "e"%char.
  change (Js.lowerChar "n") with "n"%char. change (Js.lowerChar " ") with " "%char.
  change (Js.lowerChar "t") with "t"%char. change (Js.lowerChar "=") with "="%char.
  destruct (Js.toLowerCase apiKey); reflexivity.
Qed.

Lemma default_authorization (apiKey : string) :
  Redaction.defaultHeaders apiKey !! "Authorization"
  = Some ("Token " +:+ "token=" +:+ apiKey).
Proof. unfold Redaction.defaultHeaders. now rewrite lookup_insert_eq. Qed.

(** What the service logs for the headers of a request. *)
Lemma sanitize_default (apiKey : string) :
  Redaction.sanitizeRequestHeaders (Redaction.defaultHeaders apiKey)
  = <["Authorization" :=
        ("Token " +:+ "token=") +:+
        (if (String.length apiKey <=? 8)%nat
         then Js.repeat "*" (Nat.max (String.length apiKey) 4)
         else Js.slice apiKey 0 (Some 4) +:+ "..." +:+ Js.slice apiKey (-4) None)]>
      (Redaction.defaultHeaders apiKey).
Proof.
  rewrite (RedactionFacts.sanitize_cut _ "Token " "token=" apiKey
             (default_authorization apiKey) eq_refl (indexOf_default apiKey)).
  destruct (String.length apiKey <=? 8)%nat; reflexivity.
Qed.

End RedactionMore.

Module RedactionStable.

Import JsFacts.

Lemma prefix_length (t s : string) :
  String.prefix t s = true -> (String.length t <= String.length s)%nat.
Proof.
  revert t. induction s as [|c s IH]; intros [|d t] H; simpl in *;
    try lia; try discriminate.
  destruct (ascii_dec d c); [|discriminate]. apply IH in H. lia.
Qed.

(** Whether [t] starts [a +:+ b] is decided within [a] when [t] is no
    longer than [a]. *)
Lemma prefix_app_short (t a b : string) :
  (String.length t <= String.length a)%nat ->
  String.prefix t (a +:+ b) = String.prefix t a.
Proof.
  revert t. induction a as [|c a IH]; intros [|d t] H; simpl in H.
  - change ("" +:+ b) with b. now rewrite SearchFacts.prefix_empty.
  - lia.
  - reflexivity.
  - rewrite append_cons. simpl. destruct (ascii_dec d c); [|reflexivity].
    apply IH. lia.
Qed.

Lemma indexOf_bound (s t : string) (i : nat) :
  Js.indexOf s t = Some i -> (i + String.length t <= String.length s)%nat.
Proof.
  revert i. induction s as [|c s IH]; intros i H; cbn [Js.indexOf] in H.
  - destruct (String.prefix t "") eqn:E; [|discriminate].
    injection H as <-. apply prefix_length in E. simpl in *. lia.
  - destruct (String.prefix t (String c s)) eqn:E.
    + injection H as <-. apply prefix_length in E. simpl in *. lia.
    + destruct (Js.indexOf s t) as [j|] eqn:Hj; [|discriminate].
      injection H as <-. specialize (IH j eq_refl). simpl. lia.
Qed.

(** The first place where [t] occurs does not move when the text after it
    changes. *)
Lemma indexOf_stable (a b b' t : string) (i : nat) :
  Js.indexOf (a +:+ b) t = Some i ->
  (i + String.length t <= String.length a)%nat ->
  Js.indexOf (a +:+ b') t = Some i.
Proof.
  revert i. induction a as [|c a IH]; intros i H Hi.
  - simpl in Hi. assert (t = EmptyString) as -> by (destruct t; simpl in Hi; [auto | lia]).
    assert (i = 0%nat) as -> by lia.
    change ("" +:+ b') with b'. destruct b'; reflexivity.
  - rewrite append_cons in *. cbn [Js.indexOf] in *.
    rewrite <- !append_cons in *.
    destruct i as [|i].
    + rewrite prefix_app_short by (simpl in *; lia).
      destruct (String.prefix t (String c a +:+ b)) eqn:E.
      * rewrite prefix_app_short in E by (simpl in *; lia). now rewrite E.
      * destruct (Js.indexOf (a +:+ b) t); discriminate.
    + destruct (String.prefix t (String c a +:+ b)) eqn:E; [discriminate|].
      rewrite prefix_app_short in E by (simpl in *; lia).
      rewrite prefix_app_short by (simpl in *; lia). rewrite E.
      destruct (Js.indexOf (a +:+ b) t) as [j|] eqn:Hj; [|discriminate].
      injection H as ->. rewrite (IH i eq_refl); [reflexivity | simpl in Hi; lia].
Qed.

Lemma toLowerCase_append (a b : string) :
  Js.toLowerCase (a +:+ b) = Js.toLowerCase a +:+ Js.toLowerCase b.
Proof.
  induction a as [|c a IH]; [reflexivity|].
  rewrite append_cons. cbn [Js.toLowerCase]. rewrite append_cons. now f_equal.
Qed.

Lemma length_toLowerCase (s : string) :
  String.length (Js.toLowerCase s) = String.length s.
Proof. induction s as [|c s IH]; simpl; [reflexivity | now rewrite IH]. Qed.

Lemma length_slice_first4 (s : string) :
  (4 <= String.length s)%nat -> String.length (Js.slice s 0 (Some 4)) = 4%nat.
Proof.
  intros H. unfold Js.slice, Js.sliceIndex.
  change (0 <? 0) with false. change (4 <? 0) with false. cbv iota.
  change (Z.to_nat 0) with 0%nat. change (Z.to_nat 4) with 4%nat.
  rewrite Nat.min_0_l, Nat.min_l by lia. apply length_substring. lia.
Qed.

Lemma length_slice_last4 (s : string) :
  (4 <= String.length s)%nat -> String.length (Js.slice s (-4) None) = 4%nat.
Proof.
  intros H. unfold Js.slice, Js.sliceIndex. change (-4 <? 0) with true. cbv iota.
  rewrite length_substring; lia.
Qed.

(** A header value is the text before its first marker, the marker, and the
    rest. *)
Lemma cut_at_marker (auth : string) (i : nat) :
  Js.indexOf (Js.toLowerCase auth) "token=" = Some i ->
  exists pre marker secret : string,
    auth = pre +:+ marker +:+ secret
    /\ String.length pre = i /\ String.length marker = 6%nat.
Proof.
  intros H. apply indexOf_bound in H. rewrite length_toLowerCase in H. simpl in H.
  pose proof (substring_split auth i ltac:(lia)) as H1.
  set (pre := String.substring 0 i auth) in *.
  set (rest := String.substring i (String.length auth - i) auth) in *.
  assert (Hpre : String.length pre = i) by (apply length_substring; lia).
  assert (Hrest : String.length rest = (String.length auth - i)%nat)
    by (apply length_substring; lia).
  pose proof (substring_split rest 6 ltac:(lia)) as H2.
  exists pre, (String.substring 0 6 rest),
    (String.substring 6 (String.length rest - 6) rest).
  split; [now rewrite <- H2|]. split; [exact Hpre|].
  apply length_substring. lia.
Qed.

(** The mask of a mask is that mask. *)
Lemma mask_of_mask (secret : string) :
  let masked :=
    if (String.length secret <=? 8)%nat
    then Js.repeat "*" (Nat.max (String.length secret) 4)
    else Js.slice secret 0 (Some 4) +:+ "..." +:+ Js.slice secret (-4) None in
  (if (String.length masked <=? 8)%nat
   then Js.repeat "*" (Nat.max (String.length masked) 4)
   else Js.slice masked 0 (Some 4) +:+ "..." +:+ Js.slice masked (-4) None)
  = masked.
Proof.
  intros masked. subst masked.
  destruct (Nat.leb_spec (String.length secret) 8) as [Hs|Hs].
  - rewrite repeat_length.
    destruct (Nat.leb_spec (Nat.max (String.length secret) 4) 8); [|lia].
    f_equal. lia.
  - pose proof (length_slice_first4 secret ltac:(lia)) as Ha.
    pose proof (length_slice_last4 secret ltac:(lia)) as Hb.
    set (a := Js.slice secret 0 (Some 4)) in *.
    set (b := Js.slice secret (-4) None) in *.
    assert (Hlen : String.length (a +:+ "..." +:+ b) = 11%nat)
      by (rewrite !length_append, Ha, Hb; reflexivity).
    rewrite Hlen. change (11 <=? 8)%nat with false. cbv iota.
    assert (Hlast : Js.slice (a +:+ "..." +:+ b) (-4) None = b)
      by (rewrite <- append_assoc; now apply slice_last4).
    rewrite slice_first4 by exact Ha. now rewrite Hlast.
Qed.

End RedactionStable.

(** X14. [sanitizeRequestHeaders] changes at most the [Authorization]
    entry: every other header is logged as it was sent, no header is added,
    and [Authorization] is in the result exactly when it was in the input. *)
Theorem sanitizeRequestHeaders_touches_only_authorization
    (headers : gmap string string) :
  base.delete "Authorization" (Redaction.sanitizeRequestHeaders headers)
  = base.delete "Authorization" headers
  /\ (forall key : string,
         key <> "Authorization"%string ->
         Redaction.sanitizeRequestHeaders headers !! key = headers !! key)
  /\ (is_Some (Redaction.sanitizeRequestHeaders headers !! "Authorization")
      <-> is_Some (headers !! "Authorization")).
Proof.
  assert (Hshape : Redaction.sanitizeRequestHeaders headers = headers
                   \/ exists v : string,
                        is_Some (headers !! "Authorization")
                        /\ Redaction.sanitizeRequestHeaders headers
                           = <["Authorization" := v]> headers).
  { unfold Redaction.sanitizeRequestHeaders.
    destruct (headers !! "Authorization") as [auth|] eqn:H; [|now left].
    destruct (negb (Js.truthy auth)); [now left|].
    destruct (Js.indexOf (Js.toLowerCase auth) "token=") as [i|].
    - destruct (_ <=? 8)%nat; right; eexists; (split; [eauto | reflexivity]).
    - right; eexists; (split; [eauto | reflexivity]). }
  destruct Hshape as [-> | (v & Hsome & ->)].
  - split; [reflexivity|]. split; [reflexivity | tauto].
  - split; [apply delete_insert_eq|]. split.
    + intros key Hkey. apply lookup_insert_ne. congruence.
    + rewrite lookup_insert_eq. split; [intros _; exact Hsome | eauto].
Qed.

(** X15. What is logged for the headers the service sends: whatever the
    API key is, the logged [Authorization] is [Token token=] followed by at
    most the first four and the last four characters of the key around an
    ellipsis (asterisks only for a key of 8 characters or less), and
    [Content-Type] and [Accept] are logged as sent. The logged value is at
    most 23 characters long. *)
Theorem sanitizeRequestHeaders_of_defaultHeaders (apiKey : string) :
  let masked :=
    if (String.length apiKey <=? 8)%nat
    then Js.repeat "*" (Nat.max (String.length apiKey) 4)
    else Js.slice apiKey 0 (Some 4) +:+ "..." +:+ Js.slice apiKey (-4) None in
  Redaction.sanitizeRequestHeaders (Redaction.defaultHeaders apiKey)
  = Redaction.defaultHeaders masked
  /\ (String.length masked <= 11)%nat.
Proof.
  intros masked. split.
  - rewrite RedactionMore.sanitize_default. unfold Redaction.defaultHeaders.
    rewrite insert_insert_eq. fold masked. now rewrite JsFacts.append_assoc.
  - subst masked. destruct (Nat.leb_spec (String.length apiKey) 8) as [Hs|Hs].
    + rewrite JsFacts.repeat_length. lia.
    + rewrite !JsFacts.length_append, RedactionStable.length_slice_first4,
        RedactionStable.length_slice_last4 by lia. simpl. lia.
Qed.

(** X16. Two API keys of more than 8 characters that start with the same
    four characters and end with the same four characters leave the same
    log, whatever lies between and however long they are; so do any two keys
    of at most four characters. *)
Theorem sanitizeRequestHeaders_reveals_only_the_ends (key1 key2 : string) :
  ((8 < String.length key1)%nat /\ (8 < String.length key2)%nat
   /\ Js.slice key1 0 (Some 4) = Js.slice key2 0 (Some 4)
   /\ Js.slice key1 (-4) None = Js.slice key2 (-4) None)
  \/ ((String.length key1 <= 4)%nat /\ (String.length key2 <= 4)%nat) ->
  Redaction.sanitizeRequestHeaders (Redaction.defaultHeaders key1)
  = Redaction.sanitizeRequestHeaders (Redaction.defaultHeaders key2).
Proof.
  intros H. rewrite !RedactionMore.sanitize_default. unfold Redaction.defaultHeaders.
  rewrite !insert_insert_eq. f_equal. f_equal.
  destruct H as [(H1 & H2 & Ha & Hb) | (H1 & H2)].
  - destruct (Nat.leb_spec (String.length key1) 8); [lia|].
    destruct (Nat.leb_spec (String.length key2) 8); [lia|].
    now rewrite Ha, Hb.
  - destruct (Nat.leb_spec (String.length key1) 8); [|lia].
    destruct (Nat.leb_spec (String.length key2) 8); [|lia].
    f_equal. lia.
Qed.

Lemma sanitizeRequestHeaders_reveals_only_the_ends_witness :
  Redaction.sanitizeRequestHeaders (Redaction.defaultHeaders "abcd-first-secret-wxyz")
  = Redaction.sanitizeRequestHeaders (Redaction.defaultHeaders "abcd2wxyz").
Proof.
  apply (sanitizeRequestHeaders_reveals_only_the_ends
           "abcd-first-secret-wxyz" "abcd2wxyz").
  left. repeat split; simpl; lia.
Defined.

(** X17. Sanitizing is idempotent: headers that were sanitized are left as
    they are by a second pass, so a masked value is never masked further. *)
Theorem sanitizeRequestHeaders_idempotent (headers : gmap string string) :
  Redaction.sanitizeRequestHeaders (Redaction.sanitizeRequestHeaders headers)
  = Redaction.sanitizeRequestHeaders headers.
Proof.
  destruct (headers !! "Authorization") as [auth|] eqn:Hget.
  2: { assert (E : Redaction.sanitizeRequestHeaders headers = headers)
         by (unfold Redaction.sanitizeRequestHeaders; now rewrite Hget).
       now rewrite !E. }
  destruct (Js.truthy auth) eqn:Htruthy.
  2: { assert (E : Redaction.sanitizeRequestHeaders headers = headers)
         by (unfold Redaction.sanitizeRequestHeaders; now rewrite Hget, Htruthy).
       now rewrite !E. }
  destruct (Js.indexOf (Js.toLowerCase auth) "token=") as [i|] eqn:Hidx.
  - destruct (RedactionStable.cut_at_marker auth i Hidx)
      as (pre & marker & secret & -> & Hpre & Hmarker).
    rewrite <- Hpre in Hidx.
    rewrite (RedactionFacts.sanitize_cut headers pre marker secret Hget Hmarker Hidx).
    assert (Hfirst : exists masked : string,
               (if (String.length secret <=? 8)%nat
                then <["Authorization" :=
                         (pre +:+ marker) +:+
                         Js.repeat "*" (Nat.max (String.length secret) 4)]> headers
                else <["Authorization" :=
                         (pre +:+ marker) +:+ Js.slice secret 0 (Some 4) +:+ "..."
                         +:+ Js.slice secret (-4) None]> headers)
               = <["Authorization" := pre +:+ marker +:+ masked]> headers
               /\ (if (String.length masked <=? 8)%nat
                   then Js.repeat "*" (Nat.max (String.length masked) 4)
                   else Js.slice masked 0 (Some 4) +:+ "..." +:+ Js.slice masked (-4) None)
                  = masked).
    { pose proof (RedactionStable.mask_of_mask secret) as Hmask. cbv zeta in Hmask.
      destruct (String.length secret <=? 8)%nat; eexists;
        (split; [rewrite JsFacts.append_assoc; reflexivity | exact Hmask]). }
    destruct Hfirst as (masked & -> & Hmask).
    assert (Hidx' : Js.indexOf (Js.toLowerCase (pre +:+ marker +:+ masked)) "token="
                    = Some (String.length pre)).
    { rewrite <- JsFacts.append_assoc, RedactionStable.toLowerCase_append.
      rewrite <- JsFacts.append_assoc, RedactionStable.toLowerCase_append in Hidx.
      apply (RedactionStable.indexOf_stable _ _ _ _ _ Hidx).
      rewrite RedactionStable.length_toLowerCase, JsFacts.length_append, Hmarker.
      simpl. lia. }
    rewrite (RedactionFacts.sanitize_cut _ pre marker masked
               (lookup_insert_eq _ _ _) Hmarker Hidx').
    transitivity (<["Authorization" := (pre +:+ marker) +:+ masked]>
                    (<["Authorization" := pre +:+ marker +:+ masked]> headers)).
    + destruct (String.length masked <=? 8)%nat; now rewrite Hmask.
    + rewrite JsFacts.append_assoc. apply insert_insert_eq.
  - assert (E : Redaction.sanitizeRequestHeaders headers
                = <["Authorization" := "[REDACTED]"%string]> headers)
      by (unfold Redaction.sanitizeRequestHeaders; now rewrite Hget, Htruthy, Hidx).
    rewrite E. unfold Redaction.sanitizeRequestHeaders at 1.
    rewrite lookup_insert_eq. cbn. apply insert_insert_eq.
Qed.

(** * More on the cache key of the user directory *)

Module KeyFacts.

Import JsFacts.

Lemma append_empty_l (s : string) : "" +:+ s = s.
Proof. reflexivity. Qed.

(** A text without a bar is not a text, a bar and more. *)
Lemma bar_free_not_joined (x y r : string) :
  Js.includes x "|" = false -> x <> y +:+ "|" +:+ r.
Proof.
  intros H E. assert (Js.includes x "|" = true); [|congruence].
  apply SearchFacts.includes_spec. now exists y, r.
Qed.

(** Two texts without a bar that are followed by a bar end at the same
    place. *)
Lemma split_at_bar (x y r1 r2 : string) :
  Js.includes x "|" = false -> Js.includes y "|" = false ->
  x +:+ "|" +:+ r1 = y +:+ "|" +:+ r2 -> x = y /\ r1 = r2.
Proof.
  revert y. induction x as [|c x IH]; intros [|d y] Hx Hy E.
  - rewrite !append_empty_l, !append_cons in E. now injection E.
  - apply SearchFacts.includes_char_cons in Hy as [Hd _].
    rewrite append_empty_l, !append_cons in E. injection E as E _. congruence.
  - apply SearchFacts.includes_char_cons in Hx as [Hc _].
    rewrite append_empty_l, !append_cons in E. injection E as E _. congruence.
  - apply SearchFacts.includes_char_cons in Hx as [_ Hx]. apply SearchFacts.includes_char_cons in Hy as [_ Hy].
    rewrite !append_cons in E. injection E as -> E.
    destruct (IH y Hx Hy E) as [-> ->]. auto.
Qed.

(** Joining with a bar loses nothing when no part holds a bar. *)
Lemma join_bar_injective (l1 : list string) :
  forall l2 : list string,
    Forall (fun tag => Js.includes tag "|" = false) l1 ->
    Forall (fun tag => Js.includes tag "|" = false) l2 ->
    l1 <> [] -> l2 <> [] ->
    Js.join "|" l1 = Js.join "|" l2 -> l1 = l2.
Proof.
  unfold Js.join.
  induction l1 as [|x l1 IH]; intros l2 H1 H2 N1 N2 E; [contradiction|].
  destruct l2 as [|y l2]; [contradiction|].
  inversion H1 as [|? ? Hx H1']; subst. inversion H2 as [|? ? Hy H2']; subst.
  destruct l1 as [|x' l1], l2 as [|y' l2].
  - simpl in E. now subst.
  - exfalso. cbn [String.concat] in E. exact (bar_free_not_joined _ _ _ Hx E).
  - exfalso. cbn [String.concat] in E. symmetry in E.
    exact (bar_free_not_joined _ _ _ Hy E).
  - cbn [String.concat] in E. fold (String.concat "|" (x' :: l1)) in E.
    fold (String.concat "|" (y' :: l2)) in E.
    destruct (split_at_bar _ _ _ _ Hx Hy E) as [-> E'].
    f_equal. apply IH; auto; discriminate.
Qed.

Lemma trimStart_suffix (s : string) : exists a : string, s = a +:+ Js.trimStart s.
Proof.
  induction s as [|c s [a IH]]; [now exists EmptyString|].
  cbn [Js.trimStart]. destruct (Js.isWhiteSpace c).
  - exists (String c a). rewrite append_cons. now f_equal.
  - now exists EmptyString.
Qed.

Lemma trimEnd_prefix (s : string) : exists b : string, s = Js.trimEnd s +:+ b.
Proof.
  induction s as [|c s [b IH]]; [now exists EmptyString|].
  cbn [Js.trimEnd]. destruct (Js.trimEnd s) as [|d t] eqn:E.
  - rewrite append_empty_l in IH. subst b. destruct (Js.isWhiteSpace c).
    + now exists (String c s).
    + now exists s.
  - exists b. rewrite append_cons. now f_equal.
Qed.

(** What [trim] gives stands in the string that was trimmed. *)
Lemma includes_trim (s t : string) :
  Js.includes (Js.trim s) t = true -> Js.includes s t = true.
Proof.
  intros H. apply SearchFacts.includes_trans with (Js.trim s); [|exact H].
  apply SearchFacts.includes_spec. unfold Js.trim.
  destruct (trimStart_suffix s) as [a Ha].
  destruct (trimEnd_prefix (Js.trimStart s)) as [b Hb].
  exists a, b. now rewrite <- Hb.
Qed.

Lemma trimmedTags_bar_free (tags : list string) :
  Forall (fun tag => Js.includes tag "|" = false) tags ->
  Forall (fun tag => Js.includes tag "|" = false) (Directory.trimmedTags tags).
Proof.
  unfold Directory.trimmedTags. induction 1 as [|tag tags Htag _ IH]; [constructor|].
  simpl. destruct (Js.truthy (Js.trim tag)); [|exact IH].
  constructor; [|exact IH].
  destruct (Js.includes (Js.trim tag) "|") eqn:E; [|reflexivity].
  apply includes_trim in E. congruence.
Qed.

(** The last part of the key, as [getCachedUsers] builds it. *)
Lemma cacheKey_parts (localeCompare : string -> string -> Z)
    (includeArchived : bool) (tags : option (list string)) :
  Directory.cacheKey localeCompare includeArchived tags
  = "users:" +:+ (if includeArchived then "1" else "0") +:+ ":" +:+
    (if Directory.hasTags (Directory.normalizedTags localeCompare tags)
     then Js.join "|" (default [] (Directory.normalizedTags localeCompare tags))
     else "-").
Proof. unfold Directory.cacheKey. destruct includeArchived; reflexivity. Qed.

(** Tags without a bar that are not the one tag [-] can be read back from
    the last part of the key. *)
Lemma key_part_injective (localeCompare : string -> string -> Z)
    (tags1 tags2 : option (list string)) :
  (forall l : list string,
      tags1 = Some l ->
      Forall (fun tag => Js.includes tag "|" = false) l
      /\ Directory.trimmedTags l <> ["-"%string]) ->
  (forall l : list string,
      tags2 = Some l ->
      Forall (fun tag => Js.includes tag "|" = false) l
      /\ Directory.trimmedTags l <> ["-"%string]) ->
  (if Directory.hasTags (Directory.normalizedTags localeCompare tags1)
   then Js.join "|" (default [] (Directory.normalizedTags localeCompare tags1))
   else "-"%string)
  = (if Directory.hasTags (Directory.normalizedTags localeCompare tags2)
     then Js.join "|" (default [] (Directory.normalizedTags localeCompare tags2))
     else "-"%string) ->
  Directory.hasTags (Directory.normalizedTags localeCompare tags1)
  = Directory.hasTags (Directory.normalizedTags localeCompare tags2)
  /\ (Directory.hasTags (Directory.normalizedTags localeCompare tags1) = true ->
      default [] (Directory.normalizedTags localeCompare tags1)
      = default [] (Directory.normalizedTags localeCompare tags2)).
Proof.
  assert (Hclean : forall tags : option (list string),
             (forall l : list string,
                 tags = Some l ->
                 Forall (fun tag => Js.includes tag "|" = false) l
                 /\ Directory.trimmedTags l <> ["-"%string]) ->
             Directory.hasTags (Directory.normalizedTags localeCompare tags) = true ->
             let n := default [] (Directory.normalizedTags localeCompare tags) in
             Forall (fun tag => Js.includes tag "|" = false) n
             /\ n <> [] /\ Js.join "|" n <> "-"%string).
  { intros [l|] H Hhas; [|discriminate]. destruct (H l eq_refl) as [Hbar Hdash].
    cbn [Directory.normalizedTags fmap option_fmap option_map default] in *.
    unfold id.
    pose proof (DirectoryFacts.sort_Permutation localeCompare (Directory.trimmedTags l))
      as Hperm.
    assert (Hfree : Forall (fun tag => Js.includes tag "|" = false)
                      (Directory.sort localeCompare (Directory.trimmedTags l))).
    { rewrite Forall_forall. intros tag Hin.
      pose proof (trimmedTags_bar_free l Hbar) as Hf. rewrite Forall_forall in Hf.
      apply Hf. now rewrite <- Hperm. }
    destruct (Directory.sort localeCompare (Directory.trimmedTags l)) as [|x [|y more]]
      eqn:Hsort; [discriminate| |].
    - split; [exact Hfree|]. split; [discriminate|].
      unfold Js.join. simpl. intros ->.
      apply Hdash. apply Permutation_singleton_l in Hperm. now symmetry.
    - split; [exact Hfree|]. split; [discriminate|].
      unfold Js.join. cbn [String.concat]. intros E.
      inversion Hfree as [|? ? Hx _]; subst.
      assert (Hin : Js.includes "-" "|" = true)
        by (apply SearchFacts.includes_spec; eexists _, _; symmetry; exact E).
      discriminate. }
  intros H1 H2 E.
  destruct (Directory.hasTags (Directory.normalizedTags localeCompare tags1)) eqn:Has1;
    destruct (Directory.hasTags (Directory.normalizedTags localeCompare tags2)) eqn:Has2.
  - split; [reflexivity|]. intros _.
    destruct (Hclean tags1 H1 Has1) as (F1 & N1 & _).
    destruct (Hclean tags2 H2 Has2) as (F2 & N2 & _).
    now apply join_bar_injective.
  - destruct (Hclean tags1 H1 Has1) as (_ & _ & D). contradiction.
  - destruct (Hclean tags2 H2 Has2) as (_ & _ & D). symmetry in E. contradiction.
  - split; [reflexivity | discriminate].
Qed.

End KeyFacts.

(** X18. The cache key tells requests apart when no tag holds a bar and the
    tags are not the single tag [-]: two calls of [getCachedUsers] with the
    same key have the same [includeArchived] and send the same query, so a
    cache entry is only ever shared by calls that ask the upstream the
    same. *)
Theorem cacheKey_separates_requests
    (localeCompare : string -> string -> Z)
    (includeArchived1 includeArchived2 : bool) (tags1 tags2 : option (list string)) :
  (forall l : list string,
      tags1 = Some l ->
      Forall (fun tag => Js.includes tag "|" = false) l
      /\ Directory.trimmedTags l <> ["-"%string]) ->
  (forall l : list string,
      tags2 = Some l ->
      Forall (fun tag => Js.includes tag "|" = false) l
      /\ Directory.trimmedTags l <> ["-"%string]) ->
  Directory.cacheKey localeCompare includeArchived1 tags1
  = Directory.cacheKey localeCompare includeArchived2 tags2 ->
  includeArchived1 = includeArchived2
  /\ Directory.queryParams localeCompare includeArchived1 tags1
     = Directory.queryParams localeCompare includeArchived2 tags2.
Proof.
  intros H1 H2 E. rewrite !KeyFacts.cacheKey_parts in E.
  apply JsFacts.append_cancel_l in E.
  assert (Hflag : includeArchived1 = includeArchived2).
  { destruct includeArchived1, includeArchived2; try reflexivity;
      rewrite !JsFacts.append_cons in E; discriminate. }
  subst includeArchived2. split; [reflexivity|].
  apply JsFacts.append_cancel_l, JsFacts.append_cancel_l in E.
  destruct (KeyFacts.key_part_injective localeCompare tags1 tags2 H1 H2 E) as [Hhas Hl].
  unfold Directory.queryParams. rewrite <- Hhas.
  destruct (Directory.hasTags (Directory.normalizedTags localeCompare tags1));
    [|reflexivity].
  now rewrite Hl.
Qed.

Lemma cacheKey_separates_requests_witness :
  true = true
  /\ Directory.queryParams Directory.codeUnitCompare true (Some [" b"; "a "]%string)
     = Directory.queryParams Directory.codeUnitCompare true (Some ["a"; "b"; " "]%string).
Proof.
  apply (cacheKey_separates_requests Directory.codeUnitCompare true true
           (Some [" b"; "a "]%string) (Some ["a"; "b"; " "]%string)).
  - intros l [= <-]. split; [repeat constructor | discriminate].
  - intros l [= <-]. split; [repeat constructor | discriminate].
  - reflexivity.
Defined.

(** X19. Without those conditions the key is shared by calls that ask the
    upstream for different things: the single tag [-] has the key of a call
    without tags, and the single tag [a|a] has the key of the two tags [a]
    and [a], while the queries sent differ. So, with caching on, a call
    without tags made while the fetch for the tag [-] is in flight is handed
    the promise of that fetch. *)
Theorem cacheKey_shared_by_different_requests
    (localeCompare : string -> string -> Z) (includeArchived : bool) :
  Directory.cacheKey localeCompare includeArchived (Some ["-"%string])
  = Directory.cacheKey localeCompare includeArchived None
  /\ Directory.queryParams localeCompare includeArchived (Some ["-"%string]) !! "tags"
     = Some "-"%string
  /\ Directory.queryParams localeCompare includeArchived None !! "tags" = None
  /\ Directory.cacheKey localeCompare includeArchived (Some ["a|a"%string])
     = Directory.cacheKey localeCompare includeArchived (Some ["a"; "a"]%string)
  /\ Directory.queryParams localeCompare includeArchived (Some ["a|a"%string]) !! "tags"
     = Some "a|a"%string
  /\ Directory.queryParams localeCompare includeArchived (Some ["a"; "a"]%string) !! "tags"
     = Some "a,a"%string
  /\ (forall (T : Type) (s : Cache.State T Service.Fetcher) (ttl : Z),
         0 < ttl ->
         snd (MemoryCacheStore.get (Cache.store s) (Cache.now s)
                (Directory.cacheKey localeCompare includeArchived None)) = None ->
         Cache.pendingFetches s
           !! Directory.cacheKey localeCompare includeArchived None = None ->
         snd (Service.getCachedUsers localeCompare ttl includeArchived None
                (fst (Service.getCachedUsers localeCompare ttl includeArchived
                        (Some ["-"%string]) s)))
         = Cache.Shared (length (Cache.promises s))).
Proof.
  assert (Hsort : Directory.sort localeCompare ["a"; "a"]%string = ["a"; "a"]%string).
  { simpl. destruct (localeCompare "a" "a" <=? 0); reflexivity. }
  assert (Hkey : Directory.cacheKey localeCompare includeArchived (Some ["-"%string])
                 = Directory.cacheKey localeCompare includeArchived None)
    by reflexivity.
  split; [exact Hkey|].
  split; [unfold Directory.queryParams; simpl; now rewrite lookup_insert_eq|].
  split; [unfold Directory.queryParams; simpl; destruct includeArchived;
          [now rewrite lookup_insert_ne | apply lookup_empty]|].
  split.
  { unfold Directory.cacheKey, Directory.normalizedTags.
    cbn [fmap option_fmap option_map].
    change (Directory.trimmedTags ["a"; "a"]%string) with ["a"; "a"]%string.
    rewrite Hsort. reflexivity. }
  split; [unfold Directory.queryParams; simpl; now rewrite lookup_insert_eq|].
  split.
  { unfold Directory.queryParams, Directory.normalizedTags.
    cbn [fmap option_fmap option_map].
    change (Directory.trimmedTags ["a"; "a"]%string) with ["a"; "a"]%string.
    rewrite Hsort. simpl. now rewrite lookup_insert_eq. }
  intros T s ttl Httl Hmiss Hpend. unfold Service.getCachedUsers.
  rewrite Hkey. now apply CacheFacts.joins.
Qed.

Lemma cacheKey_shared_by_different_requests_witness :
  snd (Service.getCachedUsers Directory.codeUnitCompare 60 false None
         (fst (Service.getCachedUsers Directory.codeUnitCompare 60 false
                 (Some ["-"%string]) (Cache.initial (T := list string)))))
  = Cache.Shared 0.
Proof.
  destruct (cacheKey_shared_by_different_requests Directory.codeUnitCompare false)
    as (_ & _ & _ & _ & _ & _ & H).
  apply (H (list string) Cache.initial 60); [lia | reflexivity | reflexivity].
Defined.

(** * The tasks of an assigned project *)

(** X20. [getProjectTasks] throws exactly when no assigned project has the
    id, and the message names the id. Otherwise it answers from the first
    project with that id in the list: one task per task of that project, in
    their order, with the same id, name and flags, each carrying the id and
    name of that project and its timestamps. *)
Theorem getProjectTasks_first_match
    (assignedProjects : list Tasks.AssignedProject) (wanted : Z) :
  match Tasks.getProjectTasks assignedProjects wanted with
  | inl message =>
      Forall (fun p => Tasks.projectId p <> wanted) assignedProjects
      /\ message = "Project " +:+ JsText.numberToString wanted
                   +:+ " is not assigned to the current user or does not exist."
  | inr tasks =>
      exists (before : list Tasks.AssignedProject) (project : Tasks.AssignedProject)
             (after : list Tasks.AssignedProject),
        assignedProjects = before ++ project :: after
        /\ Forall (fun p => Tasks.projectId p <> wanted) before
        /\ Tasks.projectId project = wanted
        /\ length tasks = length (Tasks.projectTasks project)
        /\ (forall (i : nat) (task : Tasks.Task),
               tasks !! i = Some task ->
               exists source : Tasks.ProjectTask,
                 Tasks.projectTasks project !! i = Some source
                 /\ Tasks.id task = Tasks.taskId source
                 /\ Tasks.name task = Tasks.taskName source
                 /\ Tasks.active task = Tasks.taskActive source
                 /\ Tasks.billable task = Tasks.taskBillable source
                 /\ Tasks.ofProjectId task = wanted
                 /\ Tasks.ofProjectName task = Tasks.projectName project
                 /\ Tasks.created_at task = Tasks.projectCreatedAt project
                 /\ Tasks.updated_at task = Tasks.projectUpdatedAt project)
  end.
Proof.
  unfold Tasks.getProjectTasks.
  induction assignedProjects as [|p ps IH]; [simpl; auto|].
  cbn [List.find]. destruct (Z.eqb_spec (Tasks.projectId p) wanted) as [Hid|Hid].
  - exists [], p, ps. split; [reflexivity|]. split; [constructor|].
    split; [exact Hid|]. split; [apply length_map|].
    intros i task Hi. rewrite list_lookup_fmap in Hi.
    destruct (Tasks.projectTasks p !! i) as [source|]; [|discriminate].
    injection Hi as <-. exists source. simpl. repeat split; auto.
  - destruct (List.find (fun q => Tasks.projectId q =? wanted) ps) as [project|].
    + destruct IH as (before & q & after & -> & Hb & Hq & Hlen & Htasks).
      exists (p :: before), q, after. split; [reflexivity|].
      split; [now constructor|]. auto.
    + destruct IH as [Hall Hmsg]. split; [now constructor | exact Hmsg].
Qed.

(** * The three readings of the schedules *)

(** X21. The taken holidays, the sick days and the public holidays of a
    year are three parts of the schedules with nothing in common: each is a
    sublist of the schedules of the response, in its order, holding
    absences only, and no schedule is in two of them. When the request
    fails, all three are empty. *)
Theorem schedule_readings_disjoint {E : Type} (attempt : Schedules.Fetch E) :
  (forall allSchedules : list Schedules.Schedule,
      attempt = Schedules.Answered allSchedules ->
      sublist (Schedules.getTakenHolidays attempt) allSchedules
      /\ sublist (Schedules.getTakenSickDays attempt) allSchedules
      /\ sublist (Schedules.getPublicHolidays attempt) allSchedules)
  /\ (forall schedule : Schedules.Schedule,
         (schedule ∈ Schedules.getTakenHolidays attempt
          \/ schedule ∈ Schedules.getTakenSickDays attempt
          \/ schedule ∈ Schedules.getPublicHolidays attempt ->
          Schedules.isAbsence schedule = true)
         /\ ~ (schedule ∈ Schedules.getTakenHolidays attempt
               /\ schedule ∈ Schedules.getTakenSickDays attempt)
         /\ ~ (schedule ∈ Schedules.getTakenHolidays attempt
               /\ schedule ∈ Schedules.getPublicHolidays attempt)
         /\ ~ (schedule ∈ Schedules.getTakenSickDays attempt
               /\ schedule ∈ Schedules.getPublicHolidays attempt))
  /\ (forall error : E,
         attempt = Schedules.Errored error ->
         Schedules.getTakenHolidays attempt = []
         /\ Schedules.getTakenSickDays attempt = []
         /\ Schedules.getPublicHolidays attempt = []).
Proof.
  split; [|split].
  - intros allSchedules ->. cbn [Schedules.getTakenHolidays Schedules.getTakenSickDays
                                  Schedules.getPublicHolidays].
    split; [|split]; try apply SearchFacts.filter_sublist.
    etransitivity; apply SearchFacts.filter_sublist.
  - intros schedule. destruct attempt as [allSchedules|error].
    2: { cbn. repeat split; try (intros [H _]; now apply elem_of_nil in H).
         intros [H|[H|H]]; now apply elem_of_nil in H. }
    cbn [Schedules.getTakenHolidays Schedules.getTakenSickDays
         Schedules.getPublicHolidays].
    rewrite !list_elem_of_In, !filter_In. unfold Schedules.isAbsence.
    destruct (Schedules.assignment schedule) as [[ty code nm]|];
      cbn [mbind option_bind Schedules.assignmentType Schedules.assignmentCode
           Schedules.assignmentName];
      [|repeat split; intros; intuition discriminate].
    destruct (Schedules.equals ty "Absence"); cbn [andb];
      [|repeat split; intros; intuition discriminate].
    destruct code as [code|]; cbn [Schedules.equals andb];
      [|repeat split; intros; intuition discriminate].
    destruct (String.eqb code "4") eqn:E4; destruct (String.eqb code "3") eqn:E3;
      destruct (String.eqb code "2") eqn:E2; cbn [andb];
      try (apply String.eqb_eq in E4; apply String.eqb_eq in E3; congruence);
      try (apply String.eqb_eq in E4; apply String.eqb_eq in E2; congruence);
      try (apply String.eqb_eq in E3; apply String.eqb_eq in E2; congruence);
      repeat split; intros; intuition discriminate.
  - intros error ->. auto.
Qed.

Lemma schedule_readings_disjoint_witness :
  let holiday :=
    {| Schedules.scheduleDate := "2024-07-01";
       Schedules.assignment :=
         Some {| Schedules.assignmentType := Some "Absence"%string;
                 Schedules.assignmentCode := Some "4"%string;
                 Schedules.assignmentName := Some "Urlaub"%string |} |} in
  let sick :=
    {| Schedules.scheduleDate := "2024-02-12";
       Schedules.assignment :=
         Some {| Schedules.assignmentType := Some "Absence"%string;
                 Schedules.assignmentCode := Some "3"%string;
                 Schedules.assignmentName := Some "Krankheit"%string |} |} in
  sublist (Schedules.getTakenHolidays (E := string) (Schedules.Answered [sick; holiday]))
    [sick; holiday]
  /\ Schedules.getTakenHolidays (Schedules.Errored "HTTP 500"%string) = [].
Proof.
  intros holiday sick. split.
  - apply (proj1 (schedule_readings_disjoint (E := string)
                    (Schedules.Answered [sick; holiday])) [sick; holiday] eq_refl).
  - apply (proj2 (proj2 (schedule_readings_disjoint
                           (Schedules.Errored "HTTP 500"%string)))
             "HTTP 500"%string eq_refl).
Defined.

(** * The configuration read from the environment *)

Module EnvironmentFacts.

Import JsFacts.

Lemma unset_false (value : option string) :
  JsText.unset value = false -> exists s : string, value = Some s /\ s <> EmptyString.
Proof.
  destruct value as [[|c s]|]; try discriminate. intros _.
  exists (String c s). split; [reflexivity | discriminate].
Qed.

(** A string that starts with a digit reads as the double nearest to the
    number of its digits, and behind a minus sign as the negative of it. *)
Lemma parseInt_digits (s : string) :
  JsNum.startsWithDigit s = true ->
  JsNum.parseInt s = JsNum.number false (JsNum.nearestDouble (JsNum.parseDigits 0 s))
  /\ JsNum.parseInt (String "-" s)
     = JsNum.number true (JsNum.nearestDouble (JsNum.parseDigits 0 s)).
Proof.
  intros H. split.
  - destruct s as [|c r]; [discriminate|]. unfold JsNum.parseInt.
    assert (Hc : Js.isWhiteSpace c = false /\ c <> "-"%char /\ c <> "+"%char).
    { cbn [JsNum.startsWithDigit] in H.
      destruct c as [[] [] [] [] [] [] [] []]; try discriminate H;
        (split; [reflexivity | split; discriminate]). }
    destruct Hc as (Hws & Hm & Hp). cbn [Js.trimStart]. rewrite Hws.
    destruct c as [[] [] [] [] [] [] [] []];
      try (exfalso; apply Hm; reflexivity); try (exfalso; apply Hp; reflexivity);
      now rewrite H.
  - unfold JsNum.parseInt. cbn [Js.trimStart].
    change (Js.isWhiteSpace "-") with false. cbv iota. now rewrite H.
Qed.

Lemma startsWithDigit_decimal (n : Z) : JsNum.startsWithDigit (Pagination.decimal n) = true.
Proof.
  unfold Pagination.decimal.
  destruct (PaginationFacts.decimalFrom_head (Z.to_nat n) n EmptyString) as [d [rest ->]].
  cbn [JsNum.startsWithDigit].
  destruct d as [|q|q]; try reflexivity.
  do 4 (destruct q as [q|q|]; try reflexivity).
Qed.

Lemma truthy_nonempty (s : string) : Js.truthy s = true <-> s <> EmptyString.
Proof. destruct s; simpl; split; congruence. Qed.

(** The double nearest to a number that is not negative is accepted as a
    cache time. *)
Lemma nanOrNegative_rounded (n : Z) :
  0 <= n ->
  Environment.nanOrNegative (JsNum.number false (JsNum.nearestDouble n)) = false.
Proof.
  intros Hn. destruct (JsNum.nearestDouble n) as [v|] eqn:E; [|reflexivity].
  cbn [JsNum.number]. destruct (Z.eqb_spec v 0); [reflexivity|].
  cbn [Environment.nanOrNegative]. apply Z.ltb_ge.
  destruct (Z.eq_dec n 0) as [->|Hne].
  - rewrite NumberFacts.nearestDouble_safe in E by (split; [lia | discriminate]).
    injection E as <-. lia.
  - pose proof (NumberFacts.nearestDouble_positive n v ltac:(lia) E). lia.
Qed.

(** The negative of the double nearest to a positive number is refused as
    a cache time. *)
Lemma nanOrNegative_negated (n : Z) :
  0 < n ->
  Environment.nanOrNegative (JsNum.number true (JsNum.nearestDouble n)) = true.
Proof.
  intros Hn. destruct (JsNum.nearestDouble n) as [v|] eqn:E; [|reflexivity].
  pose proof (NumberFacts.nearestDouble_positive n v Hn E) as Hv.
  cbn [JsNum.number]. destruct (Z.eqb_spec v 0); [lia|].
  cbn [Environment.nanOrNegative]. apply Z.ltb_lt. lia.
Qed.

(** The double nearest to a positive number is accepted as a port. *)
Lemma nanOrNotPositive_rounded (n : Z) :
  0 < n ->
  Environment.nanOrNotPositive (JsNum.number false (JsNum.nearestDouble n)) = false.
Proof.
  intros Hn. destruct (JsNum.nearestDouble n) as [v|] eqn:E; [|reflexivity].
  pose proof (NumberFacts.nearestDouble_positive n v Hn E) as Hv.
  cbn [JsNum.number]. destruct (Z.eqb_spec v 0); [lia|].
  cbn [Environment.nanOrNotPositive]. apply Z.leb_gt. exact Hv.
Qed.

End EnvironmentFacts.

(** X22. A configuration that [getMocoConfig] returns is well formed: the
    API key and the subdomain are the non-empty values of their variables,
    the subdomain holds no dot and no [http], the base URL is
    [https://<subdomain>.mocoapp.com/api/v1], and the cache time is what
    [parseInt] reads in the variable, a number of seconds that is not [NaN]
    and not negative (it may be [Infinity]), 300 when the variable is not
    set. *)
Theorem getMocoConfig_valid (env : Environment.Env) (config : Environment.MocoConfig) :
  Environment.getMocoConfig env = inr config ->
  env !! "MOCO_API_KEY" = Some (Environment.apiKey config)
  /\ Environment.apiKey config <> EmptyString
  /\ env !! "MOCO_SUBDOMAIN" = Some (Environment.subdomain config)
  /\ Environment.subdomain config <> EmptyString
  /\ Js.includes (Environment.subdomain config) "." = false
  /\ Js.includes (Environment.subdomain config) "http" = false
  /\ Environment.baseUrl config
     = "https://" +:+ Environment.subdomain config +:+ ".mocoapp.com/api/v1"
  /\ match Environment.cacheTtlSeconds config with
     | JsNum.Int seconds => 0 <= seconds
     | JsNum.NegZero | JsNum.PosInf => True
     | JsNum.NaN | JsNum.NegInf => False
     end
  /\ (forall value : string,
         env !! "MOCO_API_CACHE_TIME" = Some value ->
         Environment.cacheTtlSeconds config = JsNum.parseInt value)
  /\ (env !! "MOCO_API_CACHE_TIME" = None ->
      Environment.cacheTtlSeconds config = JsNum.Int 300).
Proof.
  unfold Environment.getMocoConfig.
  destruct (JsText.unset (env !! "MOCO_API_KEY")) eqn:Hkey; [discriminate|].
  destruct (JsText.unset (env !! "MOCO_SUBDOMAIN")) eqn:Hsub; [discriminate|].
  apply EnvironmentFacts.unset_false in Hkey as (key & -> & Hkey).
  apply EnvironmentFacts.unset_false in Hsub as (sub & -> & Hsub).
  cbn [default]. unfold id.
  destruct (Js.includes sub ".") eqn:Hdot; [discriminate|].
  destruct (Js.includes sub "http") eqn:Hhttp; [discriminate|]. cbn [orb].
  destruct (env !! "MOCO_API_CACHE_TIME") as [value|].
  - destruct (Environment.nanOrNegative (JsNum.parseInt value)) eqn:Hneg; [discriminate|].
    intros [= <-]. cbn. repeat split; auto; [| |discriminate].
    + destruct (JsNum.parseInt value) as [| | | |z]; cbn in *; try discriminate; auto.
      destruct (Z.ltb_spec z 0); [discriminate | lia].
    + intros value' [= <-]. reflexivity.
  - intros [= <-]. cbn. repeat split; auto; easy.
Qed.

Lemma getMocoConfig_valid_witness :
  let env : Environment.Env :=
    <["MOCO_API_KEY" := "abcdefghijklmnop"%string]>
      (<["MOCO_SUBDOMAIN" := "acme"%string]> ∅) in
  let config :=
    {| Environment.apiKey := "abcdefghijklmnop";
       Environment.subdomain := "acme";
       Environment.baseUrl := "https://acme.mocoapp.com/api/v1";
       Environment.cacheTtlSeconds := JsNum.Int 300 |} in
  Environment.baseUrl config
  = "https://" +:+ Environment.subdomain config +:+ ".mocoapp.com/api/v1".
Proof.
  intros env config.
  destruct (getMocoConfig_valid env config) as (_ & _ & _ & _ & _ & _ & H & _);
    [vm_compute; reflexivity | exact H].
Defined.

(** X23. A cache time written as a decimal numeral is the configured cache
    time, as a double: with a non-empty API key and a subdomain without dot
    and [http], [MOCO_API_CACHE_TIME] set to the numeral of [n >= 0] gives a
    configuration whose cache time is the double nearest to [n]: [n] itself
    up to [Number.MAX_SAFE_INTEGER], zero included, and [Infinity] from
    2^1024 on; the variable left out gives 300. A numeral of a negative number
    is refused. *)
Theorem getMocoConfig_reads_cache_time
    (env : Environment.Env) (key sub : string) (n : Z) :
  env !! "MOCO_API_KEY" = Some key -> key <> EmptyString ->
  env !! "MOCO_SUBDOMAIN" = Some sub -> sub <> EmptyString ->
  Js.includes sub "." = false -> Js.includes sub "http" = false ->
  0 <= n ->
  let configured (seconds : JsNum.jsnum) :=
    {| Environment.apiKey := key;
       Environment.subdomain := sub;
       Environment.baseUrl := "https://" +:+ sub +:+ ".mocoapp.com/api/v1";
       Environment.cacheTtlSeconds := seconds |} in
  Environment.getMocoConfig (<["MOCO_API_CACHE_TIME" := Pagination.decimal n]> env)
  = inr (configured (JsNum.number false (JsNum.nearestDouble n)))
  /\ (n <= JsNum.MAX_SAFE_INTEGER ->
      Environment.getMocoConfig (<["MOCO_API_CACHE_TIME" := Pagination.decimal n]> env)
      = inr (configured (JsNum.Int n)))
  /\ (2 ^ 1024 <= n ->
      Environment.getMocoConfig (<["MOCO_API_CACHE_TIME" := Pagination.decimal n]> env)
      = inr (configured JsNum.PosInf))
  /\ Environment.getMocoConfig (base.delete "MOCO_API_CACHE_TIME" env)
     = inr (configured (JsNum.Int 300))
  /\ (0 < n ->
      Environment.getMocoConfig
        (<["MOCO_API_CACHE_TIME" := JsText.numberToString (- n)]> env)
      = inl "MOCO_API_CACHE_TIME must be a non-negative integer representing seconds."%string).
Proof.
  intros Hkey Hk Hsub Hs Hdot Hhttp Hn configured.
  assert (Hstart : forall (env' : Environment.Env),
             env' !! "MOCO_API_KEY" = Some key -> env' !! "MOCO_SUBDOMAIN" = Some sub ->
             Environment.getMocoConfig env'
             = match env' !! "MOCO_API_CACHE_TIME" with
               | None => inr (configured (JsNum.Int 300))
               | Some value =>
                   if Environment.nanOrNegative (JsNum.parseInt value)
                   then inl "MOCO_API_CACHE_TIME must be a non-negative integer representing seconds."%string
                   else inr {| Environment.apiKey := key;
                               Environment.subdomain := sub;
                               Environment.baseUrl :=
                                 "https://" +:+ sub +:+ ".mocoapp.com/api/v1";
                               Environment.cacheTtlSeconds := JsNum.parseInt value |}
               end).
  { intros env' H1 H2. unfold Environment.getMocoConfig. rewrite H1, H2.
    destruct key; [contradiction|]. destruct sub; [contradiction|].
    cbn [JsText.unset Js.truthy negb default]. unfold id.
    rewrite Hdot, Hhttp. cbn [orb]. reflexivity. }
  assert (Hset : Environment.getMocoConfig
                   (<["MOCO_API_CACHE_TIME" := Pagination.decimal n]> env)
                 = inr (configured (JsNum.number false (JsNum.nearestDouble n)))).
  { rewrite Hstart by (rewrite lookup_insert_ne by discriminate; assumption).
    rewrite lookup_insert_eq, PaginationFacts.parseInt_decimal_rounded by exact Hn.
    now rewrite EnvironmentFacts.nanOrNegative_rounded by exact Hn. }
  split; [exact Hset|]. split; [|split; [|split]].
  - intros Hmax. rewrite Hset, NumberFacts.nearestDouble_safe by lia.
    cbn [JsNum.number]. destruct (Z.eqb_spec n 0) as [->|]; reflexivity.
  - intros Hbig. rewrite Hset, NumberFacts.nearestDouble_infinite by exact Hbig.
    reflexivity.
  - rewrite Hstart by (rewrite lookup_delete_ne by discriminate; assumption).
    now rewrite lookup_delete_eq.
  - intros Hpos.
    rewrite Hstart by (rewrite lookup_insert_ne by discriminate; assumption).
    rewrite lookup_insert_eq. unfold JsText.numberToString.
    destruct (Z.ltb_spec (- n) 0); [|lia]. rewrite Z.opp_involutive.
    assert (Hparse : JsNum.parseInt ("-" +:+ Pagination.decimal n)
                     = JsNum.number true (JsNum.nearestDouble n)).
    { destruct (EnvironmentFacts.parseInt_digits _ (EnvironmentFacts.startsWithDigit_decimal n))
        as [_ Hminus].
      change ("-" +:+ Pagination.decimal n) with (String "-" (Pagination.decimal n)).
      now rewrite Hminus, PaginationFacts.parseDigits_decimal by exact Hn. }
    now rewrite Hparse, EnvironmentFacts.nanOrNegative_negated by exact Hpos.
Qed.

Lemma getMocoConfig_reads_cache_time_witness :
  let env : Environment.Env :=
    <["MOCO_API_KEY" := "abcdefghijklmnop"%string]>
      (<["MOCO_SUBDOMAIN" := "acme"%string]> ∅) in
  Environment.getMocoConfig (<["MOCO_API_CACHE_TIME" := Pagination.decimal 0]> env)
  = inr {| Environment.apiKey := "abcdefghijklmnop";
           Environment.subdomain := "acme";
           Environment.baseUrl := "https://" +:+ "acme" +:+ ".mocoapp.com/api/v1";
           Environment.cacheTtlSeconds := JsNum.Int 0 |}.
Proof.
  intros env.
  apply (proj1 (proj2 (getMocoConfig_reads_cache_time env "abcdefghijklmnop" "acme" 0
                         eq_refl ltac:(discriminate) eq_refl ltac:(discriminate)
                         eq_refl eq_refl ltac:(lia)))).
  discriminate.
Defined.

Module CsvFacts.

Import JsFacts.

Lemma trimEnd_cons (c : ascii) (s : string) :
  Js.trimEnd (String c s)
  = match Js.trimEnd s with
    | EmptyString => if Js.isWhiteSpace c then EmptyString else String c EmptyString
    | String d t => String c (String d t)
    end.
Proof. reflexivity. Qed.

Lemma trimEnd_idempotent (s : string) : Js.trimEnd (Js.trimEnd s) = Js.trimEnd s.
Proof.
  induction s as [|c s IH]; [reflexivity|].
  rewrite trimEnd_cons. destruct (Js.trimEnd s) as [|d t] eqn:E.
  - destruct (Js.isWhiteSpace c) eqn:Hc; [reflexivity|].
    rewrite trimEnd_cons. cbn [Js.trimEnd]. now rewrite Hc.
  - rewrite trimEnd_cons, IH. reflexivity.
Qed.

Lemma trimEnd_keeps_head (c : ascii) (r : string) :
  Js.isWhiteSpace c = false -> exists t : string, Js.trimEnd (String c r) = String c t.
Proof.
  intros H. cbn [Js.trimEnd]. rewrite H. destruct (Js.trimEnd r); eauto.
Qed.

Lemma trim_idempotent (s : string) : Js.trim (Js.trim s) = Js.trim s.
Proof.
  unfold Js.trim.
  assert (H : Js.trimStart (Js.trimEnd (Js.trimStart s)) = Js.trimEnd (Js.trimStart s)).
  { destruct (TrimFacts.trimStart_head s) as [->|(c & r & -> & Hc)]; [reflexivity|].
    destruct (trimEnd_keeps_head c r Hc) as [t ->]. cbn [Js.trimStart]. now rewrite Hc. }
  rewrite H. apply trimEnd_idempotent.
Qed.

(** A string that starts and ends with a character that is not white space
    is what [trim] leaves it. *)
Lemma trimEnd_app_char (x : string) (c : ascii) :
  Js.isWhiteSpace c = false ->
  Js.trimEnd (x +:+ String c EmptyString) = x +:+ String c EmptyString.
Proof.
  intros Hc. induction x as [|d x IH].
  - change ("" +:+ String c "") with (String c ""). cbn [Js.trimEnd]. now rewrite Hc.
  - rewrite append_cons. cbn [Js.trimEnd]. rewrite IH.
    destruct x; reflexivity.
Qed.

Lemma split_free (sep : ascii) (x : string) :
  Js.includes x (String sep EmptyString) = false -> JsText.split sep x = [x].
Proof.
  induction x as [|c x IH]; intros H; [reflexivity|].
  apply SearchFacts.includes_char_cons in H as [Hc Hx]. cbn [JsText.split].
  destruct (Ascii.eqb_spec c sep); [contradiction|]. now rewrite IH.
Qed.

Lemma split_app (sep : ascii) (x r : string) :
  Js.includes x (String sep EmptyString) = false ->
  JsText.split sep (x +:+ String sep r) = x :: JsText.split sep r.
Proof.
  induction x as [|c x IH]; intros H.
  - change ("" +:+ String sep r) with (String sep r). cbn [JsText.split].
    now rewrite Ascii.eqb_refl.
  - apply SearchFacts.includes_char_cons in H as [Hc Hx]. rewrite append_cons. cbn [JsText.split].
    destruct (Ascii.eqb_spec c sep); [contradiction|]. now rewrite IH.
Qed.

(** Splitting at commas what was joined with commas gives the parts back,
    when no part holds a comma. *)
Lemma split_join (entries : list string) :
  entries <> [] ->
  Forall (fun e => Js.includes e "," = false) entries ->
  JsText.split "," (Js.join "," entries) = entries.
Proof.
  unfold Js.join. induction entries as [|x [|y l] IH]; intros Hne Hall.
  - contradiction.
  - inversion Hall; subst. now apply split_free.
  - inversion Hall as [|? ? Hx Hrest]; subst.
    assert (E : String.concat "," (x :: y :: l)
                = x +:+ String "," (String.concat "," (y :: l))) by reflexivity.
    rewrite E, split_app by exact Hx. f_equal. apply IH; [discriminate | exact Hrest].
Qed.

Lemma join_nonempty (entries : list string) :
  entries <> [] -> Forall (fun e => e <> EmptyString) entries ->
  Js.join "," entries <> EmptyString.
Proof.
  unfold Js.join. destruct entries as [|x [|y l]]; intros Hne Hall; [contradiction| |];
    inversion Hall as [|? ? Hx _]; subst; cbn [String.concat]; [exact Hx|].
  destruct x; [contradiction | discriminate].
Qed.

End CsvFacts.

(** X24. [parseCsv] never gives an empty list, and every entry it gives is
    non-empty and free of white space at both ends. A list of such entries
    without commas, joined with commas, is read back as that list. *)
Theorem parseCsv_entries_and_round_trip :
  (forall (value : option string) (entries : list string),
      Environment.parseCsv value = Some entries ->
      entries <> []
      /\ Forall (fun e => e <> EmptyString /\ Js.trim e = e) entries)
  /\ (forall entries : list string,
         entries <> [] ->
         Forall (fun e => e <> EmptyString /\ Js.trim e = e /\ Js.includes e "," = false)
           entries ->
         Environment.parseCsv (Some (Js.join "," entries)) = Some entries).
Proof.
  split.
  - intros value entries. unfold Environment.parseCsv.
    destruct (JsText.unset value); [discriminate|].
    destruct (List.filter Js.truthy
                (List.map Js.trim (JsText.split "," (default EmptyString value))))
      as [|e l] eqn:E; [discriminate|].
    intros [= <-]. split; [discriminate|]. rewrite <- E.
    rewrite Forall_forall. intros x Hx. rewrite list_elem_of_In in Hx.
    apply filter_In in Hx as [Hin Ht]. apply in_map_iff in Hin as [p [<- _]].
    split; [now apply EnvironmentFacts.truthy_nonempty | apply CsvFacts.trim_idempotent].
  - intros entries Hne Hall. unfold Environment.parseCsv.
    assert (Hjoin : Js.join "," entries <> EmptyString).
    { apply CsvFacts.join_nonempty; [exact Hne|].
      eapply Forall_impl; [exact Hall|]. now intros e [H _]. }
    cbn [JsText.unset]. apply EnvironmentFacts.truthy_nonempty in Hjoin. rewrite Hjoin.
    cbn [negb default]. unfold id.
    rewrite CsvFacts.split_join;
      [|exact Hne | eapply Forall_impl; [exact Hall|]; now intros e (_ & _ & H)].
    assert (Hsame : List.filter Js.truthy (List.map Js.trim entries) = entries).
    { clear Hne Hjoin. induction Hall as [|e l (He & Ht & _) _ IH]; [reflexivity|].
      cbn [List.map List.filter]. rewrite Ht.
      apply EnvironmentFacts.truthy_nonempty in He. rewrite He. now f_equal. }
    rewrite Hsame. destruct entries; [contradiction | reflexivity].
Qed.

Lemma parseCsv_entries_and_round_trip_witness :
  Environment.parseCsv (Some (Js.join "," ["localhost"; "example.org:8080"]%string))
  = Some ["localhost"; "example.org:8080"]%string.
Proof.
  apply (proj2 parseCsv_entries_and_round_trip); [discriminate|].
  repeat constructor; discriminate.
Defined.

Module BasePathFacts.

Import JsFacts.

Lemma startsWith_slash (w : string) :
  JsText.startsWith w "/" = true <-> exists r : string, w = String "/" r.
Proof.
  unfold JsText.startsWith. rewrite SearchFacts.prefix_spec. split; intros [r ->]; eauto.
Qed.

Lemma trim_between_slashes (r : string) :
  Js.trim (String "/" r +:+ "/") = String "/" r +:+ "/".
Proof.
  unfold Js.trim. rewrite append_cons. cbn [Js.trimStart].
  change (Js.isWhiteSpace "/") with false. cbv iota.
  rewrite <- append_cons. now apply CsvFacts.trimEnd_app_char.
Qed.

(** One slash at the end is taken off. *)
Lemma normalize_strips_one (w : string) :
  JsText.startsWith w "/" = true ->
  Environment.normalizeHttpBasePath (Some (w +:+ "/")) = w.
Proof.
  intros H. apply startsWith_slash in H as [r ->].
  unfold Environment.normalizeHttpBasePath.
  cbn [default]. unfold id. rewrite trim_between_slashes.
  rewrite append_cons. cbn [JsText.unset Js.truthy negb JsText.startsWith String.prefix].
  rewrite <- append_cons.
  destruct (ascii_dec "/" "/") as [_|Hc]; [|contradiction].
  rewrite SearchFacts.prefix_empty.
  assert (Hlen : String.length (String "/" r +:+ "/") = S (S (String.length r)))
    by (rewrite length_append; simpl; lia).
  rewrite Hlen. cbn [Nat.eqb].
  assert (Hends : JsText.endsWith (String "/" r +:+ "/") "/" = true).
  { unfold JsText.endsWith. rewrite Hlen. cbn [String.length Nat.leb andb].
    replace (S (S (String.length r)) - 1)%nat with (String.length (String "/" r))
      by (simpl; lia).
    rewrite substring_append_r. reflexivity. }
  rewrite Hends. unfold Js.slice, Js.sliceIndex. rewrite Hlen.
  change (0 <? 0) with false. change (-1 <? 0) with true. cbv iota.
  change (Z.to_nat 0) with 0%nat. rewrite Nat.min_0_l, Nat.sub_0_r.
  replace (Z.to_nat (Z.max (Z.of_nat (S (S (String.length r))) + -1) 0))
    with (String.length (String "/" r)) by (simpl; lia).
  apply substring_append_l.
Qed.

(** The result starts with a slash. *)
Lemma normalize_starts_with_slash (pathValue : option string) :
  JsText.startsWith (Environment.normalizeHttpBasePath pathValue) "/" = true.
Proof.
  apply startsWith_slash. unfold Environment.normalizeHttpBasePath.
  destruct (JsText.unset pathValue); [now eexists|].
  set (trimmed := Js.trim (default EmptyString pathValue)).
  destruct (Js.truthy trimmed); [|now eexists]. cbn [negb].
  set (w := if JsText.startsWith trimmed "/" then trimmed else "/" +:+ trimmed).
  assert (Hw : exists r : string, w = String "/" r).
  { subst w. destruct (JsText.startsWith trimmed "/") eqn:E.
    - now apply startsWith_slash.
    - now exists trimmed. }
  destruct Hw as [r ->].
  destruct (String.length (String "/" r) =? 1)%nat eqn:Hlen; [now eexists|].
  destruct (JsText.endsWith (String "/" r) "/"); [|now eexists].
  destruct r as [|c r]; [discriminate|].
  unfold Js.slice, Js.sliceIndex.
  change (0 <? 0) with false. change (-1 <? 0) with true. cbv iota.
  change (Z.to_nat 0) with 0%nat. rewrite Nat.min_0_l, Nat.sub_0_r.
  replace (Z.to_nat (Z.max (Z.of_nat (String.length (String "/" (String c r))) + -1) 0))
    with (S (String.length r)) by (simpl; lia).
  now eexists.
Qed.

End BasePathFacts.

(** X25. The base path [normalizeHttpBasePath] returns always starts with
    a slash; it is [/sse] when the variable is not set, empty or blank. One
    slash at the end is taken off, and only one: a path that ends in two
    slashes keeps one, so normalizing is not idempotent, and the base path
    [startHttpServer] serves, which normalizes the configured path again,
    then differs from the configured base path. *)
Theorem normalizeHttpBasePath_shape :
  (forall pathValue : option string,
      JsText.startsWith (Environment.normalizeHttpBasePath pathValue) "/" = true)
  /\ (forall pathValue : option string,
         Directory.blank (default EmptyString pathValue) = true ->
         Environment.normalizeHttpBasePath pathValue = "/sse"%string)
  /\ (forall w : string,
         JsText.startsWith w "/" = true ->
         Environment.normalizeHttpBasePath (Some (w +:+ "/")) = w
         /\ Environment.normalizeHttpBasePath (Some (w +:+ "/" +:+ "/")) = w +:+ "/"
         /\ forall env : Environment.Env,
              env !! "MCP_HTTP_PATH" = Some (w +:+ "/" +:+ "/") ->
              Environment.basePath (Environment.getHttpServerConfig env) = w +:+ "/"
              /\ Http.servedBasePath None env = w).
Proof.
  split; [exact BasePathFacts.normalize_starts_with_slash|]. split.
  - intros pathValue Hblank. unfold Environment.normalizeHttpBasePath.
    destruct (JsText.unset pathValue); [reflexivity|].
    unfold Directory.blank in Hblank.
    destruct (Js.trim (default EmptyString pathValue)); [reflexivity | discriminate].
  - intros w Hw.
    assert (H1 : Environment.normalizeHttpBasePath (Some (w +:+ "/")) = w)
      by now apply BasePathFacts.normalize_strips_one.
    assert (H2 : Environment.normalizeHttpBasePath (Some (w +:+ "/" +:+ "/")) = w +:+ "/").
    { rewrite <- JsFacts.append_assoc. apply BasePathFacts.normalize_strips_one.
      apply BasePathFacts.startsWith_slash in Hw as [r ->].
      apply BasePathFacts.startsWith_slash. now exists (r +:+ "/"). }
    split; [exact H1|]. split; [exact H2|].
    intros env Henv.
    assert (Hconfig : Environment.basePath (Environment.getHttpServerConfig env) = w +:+ "/")
      by (cbn [Environment.getHttpServerConfig Environment.basePath]; now rewrite Henv).
    split; [exact Hconfig|].
    unfold Http.servedBasePath. cbn [default]. now rewrite Hconfig.
Qed.

Lemma normalizeHttpBasePath_shape_witness :
  Environment.normalizeHttpBasePath (Some ("/mcp" +:+ "/" +:+ "/")) = "/mcp" +:+ "/"
  /\ Environment.normalizeHttpBasePath (Some ("/mcp" +:+ "/")) = "/mcp"%string
  /\ Environment.normalizeHttpBasePath (Some "   "%string) = "/sse"%string.
Proof.
  destruct normalizeHttpBasePath_shape as (_ & Hblank & Hstrip).
  destruct (Hstrip "/mcp"%string eq_refl) as (H1 & H2 & _).
  split; [exact H2|]. split; [exact H1|].
  apply (Hblank (Some "   "%string)). reflexivity.
Defined.

(** X26. The HTTP configuration is always usable as far as it goes: the
    port is a positive number, an integer or [Infinity] (8080 when neither
    variable is set), the host is non-empty without white space at its
    ends, the base path starts with a slash, and the two lists are absent
    rather than empty. [PORT] is read only when [MCP_HTTP_PORT] is not set:
    with [MCP_HTTP_PORT] set, even to the empty string or to something that
    is not a positive number, the port does not depend on [PORT]. Any
    positive numeral is taken as the port, as the double nearest to it: the
    number itself up to [Number.MAX_SAFE_INTEGER], [Infinity] from 2^1024 on;
    there is no upper bound. *)
Theorem getHttpServerConfig_valid (env : Environment.Env) :
  let config := Environment.getHttpServerConfig env in
  (Environment.port config = JsNum.PosInf
   \/ exists p : Z, Environment.port config = JsNum.Int p /\ 0 < p)
  /\ Environment.host config <> EmptyString
  /\ Js.trim (Environment.host config) = Environment.host config
  /\ JsText.startsWith (Environment.basePath config) "/" = true
  /\ Environment.allowedHosts config <> Some []
  /\ Environment.allowedOrigins config <> Some []
  /\ (env !! "MCP_HTTP_PORT" = None -> env !! "PORT" = None ->
      Environment.port config = JsNum.Int 8080)
  /\ (forall (value : string) (env' : Environment.Env),
         env !! "MCP_HTTP_PORT" = Some value ->
         env' !! "MCP_HTTP_PORT" = Some value ->
         Environment.port (Environment.getHttpServerConfig env')
         = Environment.port config)
  /\ (forall n : Z,
         0 < n ->
         Environment.port
           (Environment.getHttpServerConfig (<["MCP_HTTP_PORT" := Pagination.decimal n]> env))
         = JsNum.number false (JsNum.nearestDouble n))
  /\ (forall n : Z,
         0 < n <= JsNum.MAX_SAFE_INTEGER ->
         Environment.port
           (Environment.getHttpServerConfig (<["MCP_HTTP_PORT" := Pagination.decimal n]> env))
         = JsNum.Int n)
  /\ (forall n : Z,
         2 ^ 1024 <= n ->
         Environment.port
           (Environment.getHttpServerConfig (<["MCP_HTTP_PORT" := Pagination.decimal n]> env))
         = JsNum.PosInf).
Proof.
  intros config.
  assert (Hcsv : forall value : option string, Environment.parseCsv value <> Some []).
  { intros value. unfold Environment.parseCsv. destruct (JsText.unset value); [discriminate|].
    destruct (List.filter _ _); discriminate. }
  assert (Hport : forall n : Z,
             0 < n ->
             Environment.port
               (Environment.getHttpServerConfig
                  (<["MCP_HTTP_PORT" := Pagination.decimal n]> env))
             = JsNum.number false (JsNum.nearestDouble n)).
  { intros n Hn. cbn [Environment.getHttpServerConfig Environment.port].
    rewrite lookup_insert_eq. cbn [default]. unfold id.
    pose proof (PaginationFacts.truthy_decimal n) as Ht.
    cbn [JsText.unset]. rewrite Ht. cbn [negb].
    rewrite PaginationFacts.parseInt_decimal_rounded by lia.
    now rewrite EnvironmentFacts.nanOrNotPositive_rounded by exact Hn. }
  split; [|split; [|split; [|split; [|split; [|split; [|split; [|split; [|split; [|split]]]]]]]]].
  - subst config. cbn [Environment.getHttpServerConfig Environment.port].
    set (rawPort := match env !! "MCP_HTTP_PORT" with
                    | Some v => Some v
                    | None => env !! "PORT"
                    end).
    destruct (JsText.unset rawPort); [right; exists 8080; split; reflexivity|].
    destruct (JsNum.parseInt (default EmptyString rawPort)) as [| | | |z];
      cbn [Environment.nanOrNotPositive];
      try (right; exists 8080; split; reflexivity); [now left|].
    destruct (Z.leb_spec z 0); [right; exists 8080; split; reflexivity|].
    right. exists z. split; [reflexivity | lia].
  - subst config. cbn [Environment.getHttpServerConfig Environment.host].
    destruct (env !! "MCP_HTTP_HOST") as [h|]; cbn; [|discriminate].
    destruct (Js.truthy (Js.trim h)) eqn:E; [|discriminate].
    now apply EnvironmentFacts.truthy_nonempty.
  - subst config. cbn [Environment.getHttpServerConfig Environment.host].
    destruct (env !! "MCP_HTTP_HOST") as [h|]; cbn [fmap option_fmap option_map];
      [|reflexivity].
    destruct (Js.truthy (Js.trim h)); [apply CsvFacts.trim_idempotent | reflexivity].
  - apply BasePathFacts.normalize_starts_with_slash.
  - apply Hcsv.
  - apply Hcsv.
  - intros H1 H2. subst config. cbn [Environment.getHttpServerConfig Environment.port].
    rewrite H1, H2. reflexivity.
  - intros value env' H H'. subst config.
    cbn [Environment.getHttpServerConfig Environment.port]. now rewrite H, H'.
  - exact Hport.
  - intros n Hn. rewrite Hport, NumberFacts.nearestDouble_safe by lia.
    cbn [JsNum.number]. destruct (Z.eqb_spec n 0); [lia | reflexivity].
  - intros n Hn.
    assert (H0 : 0 < n) by (apply Z.lt_le_trans with (2 ^ 1024); [reflexivity | exact Hn]).
    rewrite Hport, NumberFacts.nearestDouble_infinite by assumption. reflexivity.
Qed.

(** * The log level *)

(** X27. Errors are logged at every log level. A message is logged
    whenever a less severe one is. With [LOG_LEVEL] not set, empty, or not
    one of the four names, the level is [info]: debug messages are dropped and
    the rest is logged. The name is read without regard to case. *)
Theorem shouldLog_threshold (env : Environment.Env) :
  Logger.shouldLog env Environment.LevelError = true
  /\ (forall low high : Environment.LogLevel,
         Logger.levelPriority low <= Logger.levelPriority high ->
         Logger.shouldLog env low = true -> Logger.shouldLog env high = true)
  /\ (Js.toLowerCase (default EmptyString (env !! "LOG_LEVEL"))
        ∉ ["debug"; "info"; "warn"; "error"]%string ->
      Environment.getLogLevel env = Environment.LevelInfo
      /\ Logger.shouldLog env Environment.LevelDebug = false
      /\ Logger.shouldLog env Environment.LevelInfo = true)
  /\ (forall value : string,
         Environment.getLogLevel (<["LOG_LEVEL" := Js.toLowerCase value]> env)
         = Environment.getLogLevel (<["LOG_LEVEL" := value]> env)).
Proof.
  split; [|split; [|split]].
  - unfold Logger.shouldLog. destruct (Environment.getLogLevel env); reflexivity.
  - intros low high Hle. unfold Logger.shouldLog.
    destruct (Z.leb_spec (Logger.levelPriority (Environment.getLogLevel env))
                (Logger.levelPriority low)); [|discriminate].
    intros _. apply Z.leb_le. lia.
  - intros Hother.
    assert (Hinfo : Environment.getLogLevel env = Environment.LevelInfo).
    { unfold Environment.getLogLevel, Environment.normalizeLogLevel.
      destruct (JsText.unset (env !! "LOG_LEVEL")); [reflexivity|].
      rewrite !not_elem_of_cons in Hother. destruct Hother as (H1 & H2 & H3 & H4 & _).
      apply String.eqb_neq in H1, H2, H3, H4. now rewrite H1, H2, H3, H4. }
    unfold Logger.shouldLog. now rewrite Hinfo.
  - intros value. unfold Environment.getLogLevel. rewrite !lookup_insert_eq.
    unfold Environment.normalizeLogLevel. cbn [default]. unfold id.
    rewrite TrimFacts.toLowerCase_idempotent.
    destruct value as [|c value]; [reflexivity|]. reflexivity.
Qed.

Lemma shouldLog_threshold_witness :
  Environment.getLogLevel (<["LOG_LEVEL" := "verbose"%string]> ∅) = Environment.LevelInfo
  /\ Logger.shouldLog (<["LOG_LEVEL" := "verbose"%string]> ∅) Environment.LevelDebug = false
  /\ Logger.shouldLog (<["LOG_LEVEL" := "verbose"%string]> ∅) Environment.LevelInfo = true.
Proof.
  apply (proj1 (proj2 (proj2 (shouldLog_threshold (<["LOG_LEVEL" := "verbose"%string]> ∅))))).
  change (Js.toLowerCase
            (default EmptyString
               ((<["LOG_LEVEL" := "verbose"%string]> ∅ : Environment.Env) !! "LOG_LEVEL")))
    with "verbose"%string.
  rewrite !not_elem_of_cons. repeat split; try discriminate.
  apply not_elem_of_nil.
Defined.

(** * Routing by base path *)

Module RouteFacts.

Import JsFacts.

Lemma matches_spec (basePath pathname : string) :
  basePath <> "/"%string ->
  Http.matchesBasePath basePath pathname = true
  <-> pathname = basePath \/ exists rest : string, pathname = basePath +:+ "/" +:+ rest.
Proof.
  intros Hb. unfold Http.matchesBasePath, JsText.startsWith.
  destruct (String.eqb_spec basePath "/") as [|_]; [contradiction|].
  rewrite orb_true_iff, String.eqb_eq, SearchFacts.prefix_spec.
  split; (intros [H|[rest H]]; [now left | right; exists rest]).
  - now rewrite <- append_assoc.
  - now rewrite append_assoc.
Qed.

End RouteFacts.

(** X28. With a base path other than [/], a request is answered 404
    exactly when its path is neither the base path nor the base path
    followed by a slash and more; so a path that only starts with the same
    characters is not served. A request that is served reaches the transport
    with the base path taken off its URL: the rest of the path, or [/] when
    nothing is left, followed by the query. With the base path [/] every
    request is served with its URL as it came. *)
Theorem route_strips_base_path (rawUrl search : string) :
  (forall basePath : string,
      basePath <> "/"%string ->
      (forall rest : string,
          Http.route basePath rawUrl (basePath +:+ "/" +:+ rest) search
          = Http.Forwarded (("/" +:+ rest) +:+ search))
      /\ Http.route basePath rawUrl basePath search = Http.Forwarded ("/" +:+ search)
      /\ (forall pathname : string,
             Http.route basePath rawUrl pathname search = Http.NotFound
             <-> pathname <> basePath
                 /\ forall rest : string, pathname <> basePath +:+ "/" +:+ rest)
      /\ (forall (c : ascii) (rest : string),
             c <> "/"%char ->
             Http.route basePath rawUrl (basePath +:+ String c rest) search
             = Http.NotFound))
  /\ (forall pathname : string,
         Http.route "/" rawUrl pathname search = Http.Forwarded rawUrl).
Proof.
  split.
  - intros basePath Hb.
    assert (Hneq : String.eqb basePath "/" = false) by now apply String.eqb_neq.
    assert (Hnot : forall pathname : string,
               Http.route basePath rawUrl pathname search = Http.NotFound
               <-> pathname <> basePath
                   /\ forall rest : string, pathname <> basePath +:+ "/" +:+ rest).
    { intros pathname. unfold Http.route. rewrite Hneq. cbn [negb].
      pose proof (RouteFacts.matches_spec basePath pathname Hb) as Hm.
      destruct (Http.matchesBasePath basePath pathname); cbn [negb].
      - split; [discriminate|]. intros [H1 H2].
        destruct (proj1 Hm eq_refl) as [E|[rest E]]; [contradiction|].
        now destruct (H2 rest).
      - split; [|reflexivity]. intros _. split.
        + intros E. assert (false = true); [|discriminate]. apply Hm. now left.
        + intros rest E. assert (false = true); [|discriminate]. apply Hm. eauto. }
    split; [|split; [|split]].
    + intros rest. unfold Http.route. rewrite Hneq. cbn [negb].
      assert (Hm : Http.matchesBasePath basePath (basePath +:+ "/" +:+ rest) = true)
        by (apply RouteFacts.matches_spec; eauto).
      rewrite Hm. cbn [negb]. rewrite JsFacts.slice_from.
      change ("/" +:+ rest) with (String "/" rest). cbn [Js.truthy].
      assert (Hs : JsText.startsWith (String "/" rest) "/" = true)
        by (apply BasePathFacts.startsWith_slash; eauto).
      now rewrite Hs.
    + unfold Http.route. rewrite Hneq. cbn [negb].
      assert (Hm : Http.matchesBasePath basePath basePath = true)
        by (apply RouteFacts.matches_spec; auto).
      rewrite Hm. cbn [negb].
      assert (Hslice : Js.slice basePath (Z.of_nat (String.length basePath)) None
                       = EmptyString).
      { rewrite <- (JsFacts.append_empty_r basePath) at 1. apply JsFacts.slice_from. }
      rewrite Hslice. reflexivity.
    + exact Hnot.
    + intros c rest Hc. apply Hnot. split.
      * intros E. apply (f_equal String.length) in E.
        rewrite JsFacts.length_append in E. simpl in E. lia.
      * intros rest' E. apply JsFacts.append_cancel_l in E.
        change ("/" +:+ rest') with (String "/" rest') in E. congruence.
  - intros pathname. reflexivity.
Qed.

Lemma route_strips_base_path_witness :
  Http.route "/sse" "/sse/messages?id=7" ("/sse" +:+ "/" +:+ "messages") "?id=7"
  = Http.Forwarded (("/" +:+ "messages") +:+ "?id=7")
  /\ Http.route "/sse" "/ssefoo" ("/sse" +:+ String "f" "oo") "" = Http.NotFound.
Proof.
  destruct (route_strips_base_path "/sse/messages?id=7" "?id=7") as [H _].
  destruct (H "/sse"%string ltac:(discriminate)) as (Hrest & _).
  destruct (route_strips_base_path "/ssefoo" "") as [H' _].
  destruct (H' "/sse"%string ltac:(discriminate)) as (_ & _ & _ & Hsibling).
  split; [apply Hrest | apply Hsibling; discriminate].
Defined.

(** * The capture of a request body *)

Module CaptureFacts.

Import Http.

(** Once the listeners are detached, nothing changes any more. *)
Lemma emitAll_detached (events : list StreamEvent) (c : Capture) :
  listening c = false -> emitAll c events = c.
Proof.
  intros H. unfold emitAll. induction events as [|e events IH]; [reflexivity|].
  cbn [fold_left].
  assert (Hstep : emit c e = c) by (unfold emit; now rewrite H).
  rewrite Hstep. exact IH.
Qed.

(** Chunks are collected while the listeners are attached. *)
Lemma emitAll_data (received : list string) (c : Capture) :
  listening c = true ->
  emitAll c (OnData <$> received)
  = {| chunks := chunks c ++ received; finished := finished c;
       listening := true; invoked := invoked c |}.
Proof.
  unfold emitAll. revert c. induction received as [|chunk received IH]; intros c H.
  - cbn. rewrite app_nil_r. destruct c; cbn in *. now subst.
  - rewrite fmap_cons. cbn [fold_left].
    assert (Hstep : emit c (OnData chunk)
                    = {| chunks := chunks c ++ [chunk]; finished := finished c;
                         listening := true; invoked := invoked c |})
      by (unfold emit; now rewrite H).
    rewrite Hstep, IH by reflexivity. cbn. now rewrite <- app_assoc.
Qed.

End CaptureFacts.

(** X29. [captureRequestBody] invokes at most one of its two callbacks, at
    most once, whatever the stream emits and in whatever order. While only
    data arrives nothing is invoked. The first [end], [close] or [error]
    decides: on [end] or [close], [onComplete] gets the chunks received until
    then, concatenated, or [undefined] when there were none; on [error],
    [onError] gets the message and the chunks are dropped. What the stream
    emits afterwards has no effect. *)
Theorem captureRequestBody_settles_once :
  (forall received : list string,
      Http.invoked (Http.emitAll Http.listeningCapture (Http.OnData <$> received)) = [])
  /\ (forall (received : list string) (e : Http.StreamEvent) (rest : list Http.StreamEvent),
         (forall chunk : string, e <> Http.OnData chunk) ->
         Http.invoked
           (Http.emitAll Http.listeningCapture ((Http.OnData <$> received) ++ e :: rest))
         = [match e with
            | Http.OnError message => Http.Fail message
            | _ => Http.Complete (Http.bodyOf received)
            end])
  /\ (forall events : list Http.StreamEvent,
         (length (Http.invoked (Http.emitAll Http.listeningCapture events)) <= 1)%nat).
Proof.
  assert (Hdata : forall received : list string,
             Http.emitAll Http.listeningCapture (Http.OnData <$> received)
             = {| Http.chunks := received; Http.finished := false;
                  Http.listening := true; Http.invoked := [] |}).
  { intros received. now rewrite CaptureFacts.emitAll_data. }
  assert (Hfirst : forall (received : list string) (e : Http.StreamEvent)
                          (rest : list Http.StreamEvent),
             (forall chunk : string, e <> Http.OnData chunk) ->
             Http.invoked
               (Http.emitAll Http.listeningCapture ((Http.OnData <$> received) ++ e :: rest))
             = [match e with
                | Http.OnError message => Http.Fail message
                | _ => Http.Complete (Http.bodyOf received)
                end]).
  { intros received e rest He. unfold Http.emitAll. rewrite fold_left_app.
    fold (Http.emitAll Http.listeningCapture (Http.OnData <$> received)).
    rewrite Hdata. cbn [fold_left].
    match goal with
    | |- Http.invoked (fold_left Http.emit rest ?c) = _ =>
        fold (Http.emitAll c rest); rewrite (CaptureFacts.emitAll_detached rest c)
    end.
    - destruct e as [chunk| | |message]; [now destruct (He chunk)| | |]; reflexivity.
    - destruct e as [chunk| | |message]; [now destruct (He chunk)| | |]; reflexivity. }
  split; [|split].
  - intros received. now rewrite Hdata.
  - exact Hfirst.
  - intros events.
    assert (Hsplit : (exists received : list string, events = Http.OnData <$> received)
                     \/ exists (received : list string) (e : Http.StreamEvent)
                               (rest : list Http.StreamEvent),
                          events = (Http.OnData <$> received) ++ e :: rest
                          /\ forall chunk : string, e <> Http.OnData chunk).
    { induction events as [|e events IH]; [left; now exists []|].
      destruct e as [chunk| | |message].
      - destruct IH as [[received ->]|(received & e & rest & -> & He)].
        + left. now exists (chunk :: received).
        + right. now exists (chunk :: received), e, rest.
      - right. exists [], Http.OnEnd, events. split; [reflexivity | discriminate].
      - right. exists [], Http.OnClose, events. split; [reflexivity | discriminate].
      - right. exists [], (Http.OnError message), events.
        split; [reflexivity | discriminate]. }
    destruct Hsplit as [[received ->]|(received & e & rest & -> & He)].
    + rewrite Hdata. simpl. lia.
    + rewrite (Hfirst received e rest He). simpl. lia.
Qed.

Lemma captureRequestBody_settles_once_witness :
  Http.invoked
    (Http.emitAll Http.listeningCapture
       ((Http.OnData <$> ["{"; "}"]%string)
        ++ Http.OnEnd :: [Http.OnClose; Http.OnError "aborted"; Http.OnData "x"]))
  = [Http.Complete (Http.bodyOf ["{"; "}"]%string)].
Proof.
  apply (proj1 (proj2 captureRequestBody_settles_once) ["{"; "}"]%string Http.OnEnd).
  discriminate.
Defined.
